(** * A shallow embedding of the order-matching engine (Engine.py)

    The engine keeps one order book per ticker symbol in a fixed array of
    slots found by open addressing, pushes submitted orders on the bid or ask
    heap of the ticker's book, and repeatedly matches the best bid with the
    best ask of a slot.

    Conventions of the embedding:
    - prices and quantities are Python numbers, [number.t]: an integer,
      which stands for any finite number, with exact arithmetic, or the
      float NaN, which [addOrder] can be passed and of which every
      comparison but [!=] is [False]; the infinities and the rounding of
      floats are not modelled; clock readings are integers [Z];
    - a Python list used as an array is a [list] read with [!!] and written
      with [<[i:=x]>]; reads and writes out of range raise [IndexError];
    - an exception is an outcome [Raise], the engine state at the moment of
      the raise is kept (a Python exception does not roll anything back);
    - [hash], [time.time()] and [uuid.uuid4()] are inputs of the model: the
      hash function is a parameter, clock readings and identifiers are
      arguments of the operations that draw them; in a run of calls the
      identifiers are drawn one after the other from a sequence [uuid4];
    - locks are kept only as far as they are data ([trade_locks] holds [None]
      until a slot is claimed); threads are not modelled, every operation
      runs to its end before the next one starts. *)

From Stdlib Require Import ZArith Lia ZifyNat Ascii.
From stdpp Require Import base numbers option list strings.

Local Open Scope Z_scope.
Local Open Scope nat_scope.

(** ** Outcomes of a call *)

Inductive exn : Set :=
| ValueError | TypeError | IndexError | ZeroDivisionError.

Inductive result (A : Type) : Type :=
| Ok (a : A)
| Raise (e : exn)
| OutOfFuel.
Arguments Ok {A} a.
Arguments Raise {A} e.
Arguments OutOfFuel {A}.

#[global] Instance result_ret : MRet result := @Ok.
#[global] Instance result_bind : MBind result := λ A B f m,
  match m with
  | Ok a => f a
  | Raise e => Raise e
  | OutOfFuel => OutOfFuel
  end.

(** ** Python lists as arrays *)

Section pylist.
Context {A : Type}.

(** [l[i]] *)
Definition getitem (l : list A) (i : nat) : result A :=
  match l !! i with
  | Some x => Ok x
  | None => Raise IndexError
  end.

(** [l[i] = x] *)
Definition setitem (l : list A) (i : nat) (x : A) : result (list A) :=
  if decide (i < length l) then Ok (<[i:=x]> l) else Raise IndexError.

(** [l.pop()] : the last element and the list without it *)
Definition pop (l : list A) : result (A * list A) :=
  match last l with
  | Some x => Ok (x, take (length l - 1) l)
  | None => Raise IndexError
  end.
End pylist.

(** ** The standard library's [heapq] (Lib/heapq.py), on which both sides of
    an order book rest.  [lt x y] is [x < y], that is [x.__lt__(y)]. *)

Module heapq.
Section heapq.
Context {A : Type} (lt : A → A → bool).

(** The [while pos > startpos] loop of [_siftdown]; [pos] strictly
    decreases, so [pos] units of fuel are enough. *)
Fixpoint _siftdown_loop (fuel : nat) (heap : list A) (newitem : A)
    (startpos pos : nat) : result (list A) :=
  if decide (startpos < pos) then
    match fuel with
    | O => OutOfFuel
    | S fuel =>
        let parentpos := Nat.shiftr (pos - 1) 1 in
        parent ← getitem heap parentpos;
        if lt newitem parent then
          heap ← setitem heap pos parent;
          _siftdown_loop fuel heap newitem startpos parentpos
        else setitem heap pos newitem
    end
  else setitem heap pos newitem.

Definition _siftdown (heap : list A) (startpos pos : nat) : result (list A) :=
  newitem ← getitem heap pos;
  _siftdown_loop pos heap newitem startpos pos.

Definition heappush (heap : list A) (item : A) : result (list A) :=
  let heap := heap ++ [item] in
  _siftdown heap 0 (length heap - 1).

(** The [while childpos < endpos] loop of [_siftup]: the smaller child is
    moved up until a leaf is reached; returns the heap and the leaf. *)
Fixpoint _siftup_loop (fuel : nat) (heap : list A) (endpos pos : nat)
    : result (list A * nat) :=
  let childpos := 2 * pos + 1 in
  if decide (childpos < endpos) then
    match fuel with
    | O => OutOfFuel
    | S fuel =>
        let rightpos := childpos + 1 in
        childpos ←
          (if decide (rightpos < endpos) then
             c ← getitem heap childpos;
             r ← getitem heap rightpos;
             Ok (if negb (lt c r) then rightpos else childpos)
           else Ok childpos);
        child ← getitem heap childpos;
        heap ← setitem heap pos child;
        _siftup_loop fuel heap endpos childpos
    end
  else Ok (heap, pos).

Definition _siftup (heap : list A) (pos : nat) : result (list A) :=
  let endpos := length heap in
  let startpos := pos in
  newitem ← getitem heap pos;
  '(heap, pos) ← _siftup_loop endpos heap endpos pos;
  heap ← setitem heap pos newitem;
  _siftdown heap startpos pos.

Definition heappop (heap : list A) : result (A * list A) :=
  '(lastelt, heap) ← pop heap;
  match heap with
  | _ :: _ =>
      returnitem ← getitem heap 0;
      heap ← setitem heap 0 lastelt;
      heap ← _siftup heap 0;
      Ok (returnitem, heap)
  | [] => Ok (lastelt, heap)
  end.
End heapq.
End heapq.

(** ** Numbers *)

Module number.
Inductive t : Set :=
| Num (z : Z)
| NaN.

(** [a < b], [a <= b], [a > b], [a >= b] and [a != b] *)
Definition lt (a b : t) : bool :=
  match a, b with
  | Num x, Num y => (x <? y)%Z
  | _, _ => false
  end.
Definition le (a b : t) : bool :=
  match a, b with
  | Num x, Num y => (x <=? y)%Z
  | _, _ => false
  end.
Definition gt (a b : t) : bool :=
  match a, b with
  | Num x, Num y => (x >? y)%Z
  | _, _ => false
  end.
Definition ge (a b : t) : bool :=
  match a, b with
  | Num x, Num y => (x >=? y)%Z
  | _, _ => false
  end.
Definition ne (a b : t) : bool :=
  match a, b with
  | Num x, Num y => negb (x =? y)%Z
  | _, _ => true
  end.

(** [a - b] *)
Definition sub (a b : t) : t :=
  match a, b with
  | Num x, Num y => Num (x - y)
  | _, _ => NaN
  end.

(** The builtin [min(a, b)]: it keeps [a] unless [b < a]. *)
Definition min (a b : t) : t := if lt b a then b else a.

(** The integer that a number is; 0 for NaN. *)
Definition value (a : t) : Z :=
  match a with
  | Num z => z
  | NaN => 0%Z
  end.
End number.

Bind Scope Z_scope with number.t.
Coercion number.Num : Z >-> number.t.

(** ** Orders *)

Inductive OrderType : Set := BUY | SELL.

(** The value of [uuid.uuid4()]: 128 random bits. *)
Definition uuid : Set := N.

Module Order.
Record t : Set := mk {
  order_type : OrderType;
  ticker_symbol : string;
  price : number.t;
  quantity : number.t;
  timestamp : Z;
  order_id : uuid
}.

(** [Order(order_type, ticker_symbol, price, quantity)], where [now] is the
    reading of [time.time()] and [uid] the value of [uuid.uuid4()]. *)
Definition __init__ (now : Z) (uid : uuid) (order_type : OrderType)
    (ticker_symbol : string) (price quantity : number.t) : t :=
  mk order_type ticker_symbol price quantity now uid.

Definition __lt__ (self other : t) : bool :=
  match order_type self with
  | BUY =>
      if number.ne (price self) (price other)
      then number.gt (price self) (price other)
      else (timestamp self <? timestamp other)%Z
  | SELL =>
      if number.ne (price self) (price other)
      then number.lt (price self) (price other)
      else (timestamp self <? timestamp other)%Z
  end.

(** [self.quantity = q] *)
Definition set_quantity (self : t) (q : number.t) : t :=
  mk (order_type self) (ticker_symbol self) (price self) q
     (timestamp self) (order_id self).
End Order.

(** ** Order books *)

Module OrderBook.
Record t : Set := mk {
  ticker_symbol : option string;
  buy_orders : list Order.t;
  sell_orders : list Order.t
}.

Definition __init__ : t := mk None [] [].

Definition set_ticker_symbol (self : t) (s : string) : t :=
  mk (Some s) (buy_orders self) (sell_orders self).
Definition set_buy_orders (self : t) (h : list Order.t) : t :=
  mk (ticker_symbol self) h (sell_orders self).
Definition set_sell_orders (self : t) (h : list Order.t) : t :=
  mk (ticker_symbol self) (buy_orders self) h.

Definition add_order (self : t) (order : Order.t) : result t :=
  match Order.order_type order with
  | BUY =>
      h ← heapq.heappush Order.__lt__ (buy_orders self) order;
      Ok (set_buy_orders self h)
  | SELL =>
      h ← heapq.heappush Order.__lt__ (sell_orders self) order;
      Ok (set_sell_orders self h)
  end.

Definition get_best_buy (self : t) : option Order.t :=
  match buy_orders self with
  | _ :: _ => buy_orders self !! 0
  | [] => None
  end.

Definition get_best_sell (self : t) : option Order.t :=
  match sell_orders self with
  | _ :: _ => sell_orders self !! 0
  | [] => None
  end.

Definition pop_best_buy (self : t) : result (option Order.t * t) :=
  match buy_orders self with
  | _ :: _ =>
      '(o, h) ← heapq.heappop Order.__lt__ (buy_orders self);
      Ok (Some o, set_buy_orders self h)
  | [] => Ok (None, self)
  end.

Definition pop_best_sell (self : t) : result (option Order.t * t) :=
  match sell_orders self with
  | _ :: _ =>
      '(o, h) ← heapq.heappop Order.__lt__ (sell_orders self);
      Ok (Some o, set_sell_orders self h)
  | [] => Ok (None, self)
  end.
End OrderBook.

(** ** Trade records *)

Module MatchedOrders.
Record t : Set := mk {
  buy_order_id : uuid;
  sell_order_id : uuid;
  quantity : number.t;
  price : number.t;
  timestamp : Z
}.

(** [MatchedOrders(buy_order, sell_order)], created at clock reading [now]. *)
Definition __init__ (now : Z) (buy_order sell_order : Order.t) : t :=
  mk (Order.order_id buy_order)
     (Order.order_id sell_order)
     (number.min (Order.quantity buy_order) (Order.quantity sell_order))
     (Order.price sell_order)
     now.
End MatchedOrders.

(** ** The engine *)

(** A [threading.RLock()]; only its existence is state. *)
Inductive RLock : Set := RLock_new.

Module TradingEngine.
Record t : Set := mk {
  size : nat;
  order_books : list OrderBook.t;
  trade_locks : list (option RLock);
  matches : list MatchedOrders.t
}.

(** [TradingEngine()]. *)
Definition __init__ : t :=
  mk 1600 (replicate 1600 OrderBook.__init__) (replicate 1600 None) [].

Definition set_order_books (self : t) (l : list OrderBook.t) : t :=
  mk (size self) l (trade_locks self) (matches self).
Definition set_trade_locks (self : t) (l : list (option RLock)) : t :=
  mk (size self) (order_books self) l (matches self).
Definition set_matches (self : t) (l : list MatchedOrders.t) : t :=
  mk (size self) (order_books self) (trade_locks self) l.

(** Methods run in a state monad over the engine with outcomes. *)
Definition M (A : Type) : Type := t → result A * t.

Definition ret {A} (a : A) : M A := λ self, (Ok a, self).
Definition raise {A} (e : exn) : M A := λ self, (Raise e, self).
Definition bind {A B} (m : M A) (k : A → M B) : M B := λ self,
  match m self with
  | (Ok a, self) => k a self
  | (Raise e, self) => (Raise e, self)
  | (OutOfFuel, self) => (OutOfFuel, self)
  end.

#[global] Instance M_ret : MRet M := @ret.
#[global] Instance M_bind : MBind M := λ A B k m, bind m k.

(** [self.order_books[index]], read *)
Definition get_order_book (index : nat) : M OrderBook.t := λ self,
  (getitem (order_books self) index, self).

(** The engine whose book in slot [index] has become [ob]. *)
Definition put_order_book (index : nat) (ob : OrderBook.t) (self : t) : t :=
  set_order_books self (<[index:=ob]> (order_books self)).

(** A method of the book [self.order_books[index]], run on the book in
    place: the book in the array is the one that changes. *)
Definition on_order_book {B} (index : nat)
    (f : OrderBook.t → result (B * OrderBook.t)) : M B := λ self,
  match getitem (order_books self) index with
  | Ok ob =>
      match f ob with
      | Ok (b, ob') => (Ok b, put_order_book index ob' self)
      | Raise e => (Raise e, self)
      | OutOfFuel => (OutOfFuel, self)
      end
  | Raise e => (Raise e, self)
  | OutOfFuel => (OutOfFuel, self)
  end.

Definition add_order (index : nat) (order : Order.t) : M unit :=
  on_order_book index (λ ob, ob' ← OrderBook.add_order ob order; Ok (tt, ob')).
Definition pop_best_buy (index : nat) : M (option Order.t) :=
  on_order_book index OrderBook.pop_best_buy.
Definition pop_best_sell (index : nat) : M (option Order.t) :=
  on_order_book index OrderBook.pop_best_sell.
Definition set_ticker_symbol (index : nat) (s : string) : M unit :=
  on_order_book index (λ ob, Ok (tt, OrderBook.set_ticker_symbol ob s)).

(** [self.trade_locks[index]], read and written *)
Definition get_trade_lock (index : nat) : M (option RLock) := λ self,
  (getitem (trade_locks self) index, self).
Definition set_trade_lock (index : nat) (l : option RLock) : M unit := λ self,
  match setitem (trade_locks self) index l with
  | Ok ls => (Ok tt, set_trade_locks self ls)
  | Raise e => (Raise e, self)
  | OutOfFuel => (OutOfFuel, self)
  end.

(** [self.matches.append(m)] *)
Definition append_match (m : MatchedOrders.t) : M unit := λ self,
  (Ok tt, set_matches self (matches self ++ [m])).

(** Truth value of a ticker field: [None] and the empty string are false. *)
Definition truthy (s : option string) : bool :=
  match s with
  | None => false
  | Some s => negb (String.eqb s "")
  end.

(** [order_book.ticker_symbol == ticker_symbol or not order_book.ticker_symbol] *)
Definition free_or_same (order_book : OrderBook.t) (ticker_symbol : string) : bool :=
  bool_decide (OrderBook.ticker_symbol order_book = Some ticker_symbol)
  || negb (truthy (OrderBook.ticker_symbol order_book)).

(** The body shared by the two branches of [ticker_to_index] once a slot
    passed the test: take the slot, create its lock if it has none, and
    return the slot. *)
Definition claim (index : nat) (ticker_symbol : string) : M (option nat) :=
  set_ticker_symbol index ticker_symbol;;
  lock ← get_trade_lock index;
  match lock with
  | None => set_trade_lock index (Some RLock_new)
  | Some _ => mret tt
  end;;
  mret (Some index).

Section with_hash.
(** Python's [hash] on strings. *)
Variable hash : string → Z.

(** [for i in range(self.size)] of [ticker_to_index], on the values of
    [i] still to come. *)
Fixpoint probe (sz : nat) (range : list nat) (index : nat)
    (ticker_symbol : string) : M (option nat) :=
  match range with
  | [] => mret None
  | i :: range =>
      order_book ← get_order_book ((index + i) `mod` sz);
      if free_or_same order_book ticker_symbol
      then claim ((index + i) `mod` sz) ticker_symbol
      else probe sz range index ticker_symbol
  end.

Definition ticker_to_index (ticker_symbol : string) : M (option nat) := λ self,
  match size self with
  | O => (Raise ZeroDivisionError, self)
  | S _ =>
      let index := Z.to_nat (hash ticker_symbol `mod` Z.of_nat (size self))%Z in
      (order_book ← get_order_book index;
       if free_or_same order_book ticker_symbol
       then claim index ticker_symbol
       else probe (size self) (seq 0 (size self)) index ticker_symbol) self
  end.

(** [addOrder]; [now] and [uid] are what [time.time()] and [uuid.uuid4()]
    return inside [Order(...)]. *)
Definition addOrder (now : Z) (uid : uuid) (order_type : OrderType)
    (ticker_symbol : string) (quantity price : number.t) : M uuid :=
  if number.le quantity 0 || number.le price 0 then raise ValueError
  else
    let order := Order.__init__ now uid order_type ticker_symbol price quantity in
    index ← ticker_to_index ticker_symbol;
    match index with
    | None => raise TypeError (* self.order_books[None] *)
    | Some index =>
        add_order index order;;
        mret (Order.order_id order)
    end.
End with_hash.

(** The orders popped in a pass that did not match go back. *)
Definition put_back (index : nat) (best_buy best_sell : option Order.t) : M bool :=
  match best_buy with
  | Some o => add_order index o
  | None => mret tt
  end;;
  match best_sell with
  | Some o => add_order index o
  | None => mret tt
  end;;
  mret false.

(** One pass of the [while matched] loop of [match_orders_by_index]; the
    result is the new value of [matched].  [now] is the clock reading taken
    if a trade is recorded. *)
Definition match_pass (now : Z) (index : nat) : M bool :=
  lock ← get_trade_lock index;
  match lock with
  | None => raise TypeError (* with None: *)
  | Some _ =>
      best_buy ← pop_best_buy index;
      best_sell ← pop_best_sell index;
      match best_buy, best_sell with
      | Some buy, Some sell =>
          if number.ge (Order.price buy) (Order.price sell) then
            append_match (MatchedOrders.__init__ now buy sell);;
            (if number.gt (Order.quantity buy) (Order.quantity sell) then
               add_order index
                 (Order.set_quantity buy
                    (number.sub (Order.quantity buy) (Order.quantity sell)))
             else if number.lt (Order.quantity buy) (Order.quantity sell) then
               add_order index
                 (Order.set_quantity sell
                    (number.sub (Order.quantity sell) (Order.quantity buy)))
             else mret tt);;
            mret true
          else put_back index best_buy best_sell
      | _, _ => put_back index best_buy best_sell
      end
  end.

(** The [while matched] loop; pass number [k] reads the clock as [clock k]. *)
Fixpoint match_loop (clock : nat → Z) (fuel k : nat) (index : nat) : M unit :=
  match fuel with
  | O => λ self, (OutOfFuel, self)
  | S fuel =>
      matched ← match_pass (clock k) index;
      if matched : bool then match_loop clock fuel (S k) index else mret tt
  end.

Definition match_orders_by_index (clock : nat → Z) (fuel : nat) (index : nat)
    : M unit :=
  order_book ← get_order_book index;
  match OrderBook.ticker_symbol order_book with
  | None => mret tt
  | Some _ => match_loop clock fuel 0 index
  end.

(** [matchOrder]: every slot in turn; slot [i] reads the clock as [clock i]. *)
Fixpoint matchOrder_loop (clock : nat → nat → Z) (fuel : nat) (range : list nat)
    : M unit :=
  match range with
  | [] => mret tt
  | i :: range =>
      match_orders_by_index (clock i) fuel i;;
      matchOrder_loop clock fuel range
  end.

Definition matchOrder (clock : nat → nat → Z) (fuel : nat) : M unit := λ self,
  matchOrder_loop clock fuel (seq 0 (size self)) self.
End TradingEngine.

(** ** Heap order *)

Section heap_order.
Context {A : Type} (lt : A → A → bool).

(** No element is smaller than its parent. *)
Definition is_heap (heap : list A) : Prop :=
  ∀ i c p, 0 < i → heap !! i = Some c → heap !! Nat.div2 (i - 1) = Some p →
    lt c p = false.

(** Heap order everywhere but between [pos] and its parent; the children of
    [pos] are then compared with the parent of [pos]. *)
Definition heap_except (heap : list A) (pos : nat) : Prop :=
  (∀ i c p, 0 < i → i ≠ pos →
     heap !! i = Some c → heap !! Nat.div2 (i - 1) = Some p → lt c p = false)
  ∧ (∀ i c g, 0 < pos → 0 < i → Nat.div2 (i - 1) = pos →
     heap !! i = Some c → heap !! Nat.div2 (pos - 1) = Some g → lt c g = false).
End heap_order.

Section heap_order_hole.
Context {A : Type} (lt : A → A → bool).

(** Heap order of a heap whose position [pos] is a hole: the element there
    does not count, and the children of [pos] are compared with the parent
    of [pos]. *)
Definition hole_down (heap : list A) (pos : nat) : Prop :=
  (∀ i c p, 0 < i → i ≠ pos → Nat.div2 (i - 1) ≠ pos →
     heap !! i = Some c → heap !! Nat.div2 (i - 1) = Some p → lt c p = false)
  ∧ (∀ i c g, 0 < pos → 0 < i → Nat.div2 (i - 1) = pos →
     heap !! i = Some c → heap !! Nat.div2 (pos - 1) = Some g → lt c g = false).
End heap_order_hole.

(** ** Vocabulary of the statements *)

(** A number that is not NaN, and one that is above 0. *)
Definition is_num (a : number.t) : Prop := ∃ z, a = number.Num z.
Definition positive (a : number.t) : Prop := number.lt 0 a = true.

(** The test of [addOrder] lets the quantity and the price through: neither
    is [<= 0]. *)
Definition validated (q p : number.t) : Prop :=
  number.le q 0 || number.le p 0 = false.

(** The price of the order is a number. *)
Definition priced (o : Order.t) : Prop := is_num (Order.price o).

(** Price-time priority: [a] ranks no later than [b]. *)
Definition buy_priority (a b : Order.t) : Prop :=
  number.gt (Order.price a) (Order.price b) = true
  ∨ Order.price a = Order.price b ∧ (Order.timestamp a ≤ Order.timestamp b)%Z.

Definition sell_priority (a b : Order.t) : Prop :=
  number.lt (Order.price a) (Order.price b) = true
  ∨ Order.price a = Order.price b ∧ (Order.timestamp a ≤ Order.timestamp b)%Z.

Definition is_buy (o : Order.t) : Prop := Order.order_type o = BUY.
Definition is_sell (o : Order.t) : Prop := Order.order_type o = SELL.

(** A buy order, and a sell order, whose price is a number. *)
Definition priced_buy (o : Order.t) : Prop := is_buy o ∧ priced o.
Definition priced_sell (o : Order.t) : Prop := is_sell o ∧ priced o.

(** Bids hold buy orders and asks hold sell orders. *)
Definition sided (ob : OrderBook.t) : Prop :=
  Forall is_buy (OrderBook.buy_orders ob)
  ∧ Forall is_sell (OrderBook.sell_orders ob).

(** The orders resting in a book, both sides. *)
Definition resting (ob : OrderBook.t) : list Order.t :=
  OrderBook.buy_orders ob ++ OrderBook.sell_orders ob.

(** Both sides are heaps of orders of their side, whose prices are
    numbers. *)
Definition heap_book (ob : OrderBook.t) : Prop :=
  sided ob
  ∧ Forall priced (resting ob)
  ∧ is_heap Order.__lt__ (OrderBook.buy_orders ob)
  ∧ is_heap Order.__lt__ (OrderBook.sell_orders ob).

(** What the two sides hold once [o] has been added to sides holding [B]
    and [S]. *)
Definition holds_with (o : Order.t) (B S : list Order.t) (ob : OrderBook.t) : Prop :=
  match Order.order_type o with
  | BUY => OrderBook.buy_orders ob ≡ₚ o :: B ∧ OrderBook.sell_orders ob ≡ₚ S
  | SELL => OrderBook.buy_orders ob ≡ₚ B ∧ OrderBook.sell_orders ob ≡ₚ o :: S
  end.

(** The best bid [b] and the best ask [s] of a book cross. *)
Definition crosses (ob : OrderBook.t) (b s : Order.t) : Prop :=
  OrderBook.get_best_buy ob = Some b
  ∧ OrderBook.get_best_sell ob = Some s
  ∧ number.ge (Order.price b) (Order.price s) = true.

(** What a crossing pass leaves on the two sides, [B] and [S] being the
    sides without the matched orders [b] and [s]. *)
Definition settled (b s : Order.t) (B S : list Order.t) (ob : OrderBook.t) : Prop :=
  if number.gt (Order.quantity b) (Order.quantity s) then
    holds_with
      (Order.set_quantity b (number.sub (Order.quantity b) (Order.quantity s)))
      B S ob
  else if number.lt (Order.quantity b) (Order.quantity s) then
    holds_with
      (Order.set_quantity s (number.sub (Order.quantity s) (Order.quantity b)))
      B S ob
  else OrderBook.buy_orders ob ≡ₚ B ∧ OrderBook.sell_orders ob ≡ₚ S.

(** The engine after slot [index] has been claimed for [ticker], [ob] being
    the book of the slot before. *)
Definition claimed (index : nat) (ticker : string) (ob : OrderBook.t)
    (e : TradingEngine.t) : TradingEngine.t :=
  TradingEngine.mk (TradingEngine.size e)
    (<[index:=OrderBook.set_ticker_symbol ob ticker]> (TradingEngine.order_books e))
    (<[index:=Some RLock_new]> (TradingEngine.trade_locks e))
    (TradingEngine.matches e).

(** The arrays have [size] entries. *)
Definition sized (e : TradingEngine.t) : Prop :=
  0 < TradingEngine.size e
  ∧ length (TradingEngine.order_books e) = TradingEngine.size e
  ∧ length (TradingEngine.trade_locks e) = TradingEngine.size e.

(** A slot with a ticker has its lock. *)
Definition locked (e : TradingEngine.t) : Prop :=
  ∀ i ob, TradingEngine.order_books e !! i = Some ob →
    OrderBook.ticker_symbol ob ≠ None →
    ∃ lk, TradingEngine.trade_locks e !! i = Some (Some lk).

(** The slot at which the probe for a ticker starts. *)
Definition home (hash : string → Z) (ticker : string) (e : TradingEngine.t) : nat :=
  Z.to_nat (hash ticker `mod` Z.of_nat (TradingEngine.size e))%Z.

(** No cross: a side is empty, or the best bid does not reach the best ask
    (for prices that are numbers: it is below the best ask). *)
Definition no_cross (ob : OrderBook.t) : Prop :=
  OrderBook.get_best_buy ob = None
  ∨ OrderBook.get_best_sell ob = None
  ∨ ∃ b s, OrderBook.get_best_buy ob = Some b
      ∧ OrderBook.get_best_sell ob = Some s
      ∧ number.ge (Order.price b) (Order.price s) = false.

(** The number of orders resting in a slot. *)
Definition resting_count (e : TradingEngine.t) (index : nat) : nat :=
  match TradingEngine.order_books e !! index with
  | Some ob => length (resting ob)
  | None => 0
  end.

(** [loop_run clock index k n e e']: started in [e] with pass number [k],
    the matching loop of slot [index] makes [n] passes that match, then one
    that does not, and ends in [e']. *)
Inductive loop_run (clock : nat → Z) (index : nat)
  : nat → nat → TradingEngine.t → TradingEngine.t → Prop :=
| loop_run_stop k e e' :
    TradingEngine.match_pass (clock k) index e = (Ok false, e') →
    loop_run clock index k 0 e e'
| loop_run_step k n e e1 e' :
    TradingEngine.match_pass (clock k) index e = (Ok true, e1) →
    loop_run clock index (S k) n e1 e' →
    loop_run clock index k (S n) e e'.

(** Orders pushed into a book one after the other. *)
Fixpoint add_orders (ob : OrderBook.t) (orders : list Order.t) : result OrderBook.t :=
  match orders with
  | [] => Ok ob
  | o :: orders => ob ← OrderBook.add_order ob o; add_orders ob orders
  end.

(** The orders resting in the engine, all books together. *)
Definition resting_orders (e : TradingEngine.t) : list Order.t :=
  concat (resting <$> TradingEngine.order_books e).

(** A slot is occupied by a ticker other than [ticker]. *)
Definition occupied_by_other (ticker : string) (ob : OrderBook.t) : Prop :=
  OrderBook.ticker_symbol ob ≠ None
  ∧ OrderBook.ticker_symbol ob ≠ Some ticker.

(** ** Sessions *)

(** What can happen to an engine: a call of [addOrder], one pass of the
    matching loop on a slot, a call of [match_orders_by_index], a call of
    [matchOrder]. *)
Inductive event : Type :=
| Submit (now : Z) (uid : uuid) (order_type : OrderType) (ticker_symbol : string)
    (quantity price : number.t)
| MatchPass (now : Z) (index : nat)
| MatchSlot (clock : nat → Z) (fuel : nat) (index : nat)
| MatchAll (clock : nat → nat → Z) (fuel : nat).

(** The engine after an event; a call that raises leaves the engine as it is
    at the raise. *)
Definition after (hash : string → Z) (e : TradingEngine.t) (ev : event)
    : TradingEngine.t :=
  match ev with
  | Submit now uid ty ticker q p =>
      (TradingEngine.addOrder hash now uid ty ticker q p e).2
  | MatchPass now index => (TradingEngine.match_pass now index e).2
  | MatchSlot clock fuel index =>
      (TradingEngine.match_orders_by_index clock fuel index e).2
  | MatchAll clock fuel => (TradingEngine.matchOrder clock fuel e).2
  end.

(** The engine after a session, from a new engine. *)
Definition session (hash : string → Z) (evs : list event) : TradingEngine.t :=
  foldl (after hash) TradingEngine.__init__ evs.

Definition positive_order (o : Order.t) : Prop :=
  positive (Order.quantity o) ∧ positive (Order.price o).

Definition positive_trade (t : MatchedOrders.t) : Prop :=
  positive (MatchedOrders.quantity t) ∧ positive (MatchedOrders.price t).

(** What holds of the engine all along a session. *)
Definition invariant (e : TradingEngine.t) : Prop :=
  sized e
  ∧ locked e
  ∧ Forall sided (TradingEngine.order_books e).

(** The price submitted in an event is a number; the quantity is; both
    are. *)
Definition priced_event (ev : event) : Prop :=
  match ev with
  | Submit _ _ _ _ _ p => is_num p
  | _ => True
  end.
Definition counted_event (ev : event) : Prop :=
  match ev with
  | Submit _ _ _ _ q _ => is_num q
  | _ => True
  end.
Definition numeric_event (ev : event) : Prop :=
  priced_event ev ∧ counted_event ev.

(** What holds besides along a session whose prices are numbers: the books
    are heaps of priced orders, and every price, resting or recorded, is
    positive. *)
Definition heaped (e : TradingEngine.t) : Prop :=
  Forall heap_book (TradingEngine.order_books e).
Definition valued (e : TradingEngine.t) : Prop :=
  Forall (λ ob, Forall (λ o, positive (Order.price o)) (resting ob))
    (TradingEngine.order_books e)
  ∧ Forall (λ t, positive (MatchedOrders.price t)) (TradingEngine.matches e).

(** What holds besides along a session whose quantities are numbers: every
    quantity, resting or recorded, is positive. *)
Definition counted (e : TradingEngine.t) : Prop :=
  Forall (λ ob, Forall (λ o, positive (Order.quantity o)) (resting ob))
    (TradingEngine.order_books e)
  ∧ Forall (λ t, positive (MatchedOrders.quantity t)) (TradingEngine.matches e).

(** An operation keeps a property of the engine, whatever its outcome. *)
Definition keeps {A} (P : TradingEngine.t → Prop) (m : TradingEngine.M A) : Prop :=
  ∀ e, P e → P (m e).2.

(** ** The directory *)

(** The tickers of the slots. *)
Definition tickers (e : TradingEngine.t) : list (option string) :=
  OrderBook.ticker_symbol <$> TradingEngine.order_books e.

(** The slot at which the probe for a ticker starts in a directory of [n]
    slots. *)
Definition home_in (hash : string → Z) (n : nat) (ticker : string) : nat :=
  Z.to_nat (hash ticker `mod` Z.of_nat n)%Z.

(** Open addressing as it is meant: every ticker of the directory [ts], of
    [n] slots, is non-empty and sits on its probe path, behind slots that
    carry other tickers. *)
Definition on_path_in (hash : string → Z) (n : nat) (ts : list (option string))
    : Prop :=
  ∀ j t, ts !! j = Some (Some t) →
    t ≠ ""
    ∧ ∃ k, k < n
        ∧ j = (home_in hash n t + k) `mod` n
        ∧ ∀ k', k' < k →
            ∃ t', ts !! ((home_in hash n t + k') `mod` n) = Some (Some t')
                  ∧ t' ≠ t.

Definition on_path (hash : string → Z) (e : TradingEngine.t) : Prop :=
  on_path_in hash (TradingEngine.size e) (tickers e).

(** Every resting order carries the ticker of its book. *)
Definition pure_book (ob : OrderBook.t) : Prop :=
  Forall (λ o, OrderBook.ticker_symbol ob = Some (Order.ticker_symbol o))
    (resting ob).

Definition pure (e : TradingEngine.t) : Prop :=
  Forall pure_book (TradingEngine.order_books e).

(** The tickers submitted in an event are not empty. *)
Definition nonempty_ticker (ev : event) : Prop :=
  match ev with
  | Submit _ _ _ ticker _ _ => ticker ≠ ""
  | _ => True
  end.

(** What holds along a session that submits no empty ticker. *)
Definition isolated (hash : string → Z) (e : TradingEngine.t) : Prop :=
  invariant e ∧ pure e ∧ on_path hash e.

(** ** A small session, on which the statements are instantiated *)

Definition demo_hash (s : string) : Z := Z.of_nat (String.length s).

Definition demo_buy : Order.t := Order.mk BUY "X" 50 100 1 11%N.
Definition demo_sell : Order.t := Order.mk SELL "X" 45 40 2 12%N.

(** A bid for "X" has been submitted. *)
Definition demo_bid_only : TradingEngine.t :=
  (TradingEngine.addOrder demo_hash 1 11%N BUY "X" 100 50 TradingEngine.__init__).2.

(** A bid and then an ask for "X" have been submitted. *)
Definition demo_bid_ask : TradingEngine.t :=
  (TradingEngine.addOrder demo_hash 2 12%N SELL "X" 40 45 demo_bid_only).2.

(** A bid and an ask for "X" of one quantity have been submitted and
    matched: slot 1 has the ticker and an empty book. *)
Definition demo_drained : TradingEngine.t :=
  session demo_hash
    [Submit 1 11%N BUY "X" 40 50; Submit 2 12%N SELL "X" 40 45;
     MatchSlot (λ k, Z.of_nat k) 2 1].

(** Three bids, the last two at the best price, and three asks alike. *)
Definition demo_bids : list Order.t :=
  [Order.mk BUY "X" 50 10 1 1%N; Order.mk BUY "X" 52 10 3 2%N;
   Order.mk BUY "X" 52 10 2 3%N].
Definition demo_asks : list Order.t :=
  [Order.mk SELL "X" 50 10 1 4%N; Order.mk SELL "X" 48 10 3 5%N;
   Order.mk SELL "X" 48 10 2 6%N].

(** The ticker made of [n] letters. *)
Fixpoint letters (n : nat) : string :=
  match n with
  | O => ""
  | S n => String "A"%char (letters n)
  end.

(** One order has been submitted for each of the [n] tickers of fewer than
    [n] letters, the shortest first; with [demo_hash] the ticker of [k]
    letters starts its probe at slot [k]. *)
Fixpoint demo_fill (n : nat) : TradingEngine.t :=
  match n with
  | O => TradingEngine.__init__
  | S n =>
      (TradingEngine.addOrder demo_hash (Z.of_nat n) (N.of_nat n) BUY
         (letters n) 1 1 (demo_fill n)).2
  end.

(** The directory is full: 1600 tickers, the empty one in slot 0. *)
Definition demo_full : TradingEngine.t := demo_fill 1600.

(** ** More vocabulary *)

(** A book with one bid and one ask that cross. *)
Definition demo_book : OrderBook.t := OrderBook.mk (Some "X") [demo_buy] [demo_sell].

(** A pass on slot [index] keeps [I] and relates the engine before to the
    engine after by [R], whatever its outcome. *)
Definition pass_closed (I : TradingEngine.t → Prop)
    (R : TradingEngine.t → TradingEngine.t → Prop) (index : nat) : Prop :=
  ∀ now e, I e →
    I (TradingEngine.match_pass now index e).2
    ∧ R e (TradingEngine.match_pass now index e).2.

(** A slot without a ticker holds no order. *)
Definition vacant_empty (e : TradingEngine.t) : Prop :=
  Forall (λ ob, OrderBook.ticker_symbol ob = None → resting ob = [])
    (TradingEngine.order_books e).

(** Only slot [index] differs between two engines, and only by its book. *)
Definition same_but (index : nat) (e e' : TradingEngine.t) : Prop :=
  TradingEngine.size e' = TradingEngine.size e
  ∧ TradingEngine.trade_locks e' = TradingEngine.trade_locks e
  ∧ tickers e' = tickers e
  ∧ ∀ i, i ≠ index →
      TradingEngine.order_books e' !! i = TradingEngine.order_books e !! i.

(** A short session: a bid and an ask for "X" that cross, and a pass on
    their slot. *)
Definition demo_session : list event :=
  [Submit 1 11%N BUY "X" 100 50; Submit 2 12%N SELL "X" 40 45; MatchPass 3 1].

(** ** Quantities *)

Definition total {A} (f : A → Z) (l : list A) : Z :=
  foldr (λ a acc, (f a + acc)%Z) 0%Z l.

(** The quantity that the orders [os] whose id satisfies [P] stand for. *)
Definition volume (P : uuid → bool) (os : list Order.t) : Z :=
  total (λ o, if P (Order.order_id o)
              then number.value (Order.quantity o) else 0%Z) os.

(** The quantity resting on the bid sides, and on the ask sides, of all
    books, for the orders whose id satisfies [P]. *)
Definition bid_volume (P : uuid → bool) (e : TradingEngine.t) : Z :=
  total (λ ob, volume P (OrderBook.buy_orders ob)) (TradingEngine.order_books e).
Definition ask_volume (P : uuid → bool) (e : TradingEngine.t) : Z :=
  total (λ ob, volume P (OrderBook.sell_orders ob)) (TradingEngine.order_books e).

(** The quantity that the ledger records as bought, and as sold, for the
    orders whose id satisfies [P]. *)
Definition bought (P : uuid → bool) (e : TradingEngine.t) : Z :=
  total (λ t, if P (MatchedOrders.buy_order_id t)
              then number.value (MatchedOrders.quantity t) else 0%Z)
    (TradingEngine.matches e).
Definition sold (P : uuid → bool) (e : TradingEngine.t) : Z :=
  total (λ t, if P (MatchedOrders.sell_order_id t)
              then number.value (MatchedOrders.quantity t) else 0%Z)
    (TradingEngine.matches e).

Definition is_Ok {A} (r : result A) : bool :=
  match r with
  | Ok _ => true
  | _ => false
  end.

Definition same_side (a b : OrderType) : bool :=
  match a, b with
  | BUY, BUY | SELL, SELL => true
  | _, _ => false
  end.

(** The quantity that event [ev], run on engine [e], brings in on [side]
    for the ids that satisfy [P]: that of a submission that [addOrder]
    accepts. *)
Definition accepted (hash : string → Z) (side : OrderType) (P : uuid → bool)
    (e : TradingEngine.t) (ev : event) : Z :=
  match ev with
  | Submit now uid ty ticker q p =>
      if is_Ok (TradingEngine.addOrder hash now uid ty ticker q p e).1
         && same_side ty side && P uid
      then number.value q else 0%Z
  | _ => 0%Z
  end.

Fixpoint accepted_from (hash : string → Z) (side : OrderType) (P : uuid → bool)
    (e : TradingEngine.t) (evs : list event) : Z :=
  match evs with
  | [] => 0%Z
  | ev :: evs =>
      (accepted hash side P e ev
       + accepted_from hash side P (after hash e ev) evs)%Z
  end.


(** ** Where orders and trades come from *)

(** The orders that the submissions of a session create: [addOrder] reaches
    [Order(...)] when its test of the quantity and the price has failed. *)
Definition submitted (evs : list event) : list Order.t :=
  omap (λ ev, match ev with
              | Submit now uid ty ticker q p =>
                  if number.le q 0 || number.le p 0 then None
                  else Some (Order.__init__ now uid ty ticker p q)
              | _ => None
              end) evs.

(** [o] is one of the orders [S], but for its quantity. *)
Definition order_of (S : list Order.t) (o : Order.t) : Prop :=
  ∃ o0, o0 ∈ S ∧ o = Order.set_quantity o0 (Order.quantity o).

(** [t] names a buy order and a sell order of [S] that cross, and has the
    price of the sell order. *)
Definition trade_between (S : list Order.t) (t : MatchedOrders.t) : Prop :=
  ∃ b s, b ∈ S ∧ s ∈ S ∧ is_buy b ∧ is_sell s
    ∧ MatchedOrders.buy_order_id t = Order.order_id b
    ∧ MatchedOrders.sell_order_id t = Order.order_id s
    ∧ MatchedOrders.price t = Order.price s
    ∧ number.ge (Order.price b) (Order.price s) = true.

Definition sourced (S : list Order.t) (e : TradingEngine.t) : Prop :=
  Forall (λ ob, Forall (order_of S) (resting ob)) (TradingEngine.order_books e)
  ∧ Forall (trade_between S) (TradingEngine.matches e).

(** [o] is what is left of one of the orders [S]. *)
Definition remainder_of (S : list Order.t) (o : Order.t) : Prop :=
  ∃ o0, o0 ∈ S
    ∧ o = Order.set_quantity o0 (Order.quantity o)
    ∧ positive (Order.quantity o)
    ∧ number.le (Order.quantity o) (Order.quantity o0) = true.

(** [t] is a trade between a buy order and a sell order of [S], at the
    price of the sell order. *)
Definition trade_of (S : list Order.t) (t : MatchedOrders.t) : Prop :=
  ∃ b s, b ∈ S ∧ s ∈ S ∧ is_buy b ∧ is_sell s
    ∧ MatchedOrders.buy_order_id t = Order.order_id b
    ∧ MatchedOrders.sell_order_id t = Order.order_id s
    ∧ MatchedOrders.price t = Order.price s
    ∧ number.ge (Order.price b) (Order.price s) = true
    ∧ positive (MatchedOrders.quantity t)
    ∧ number.le (MatchedOrders.quantity t) (Order.quantity b) = true
    ∧ number.le (MatchedOrders.quantity t) (Order.quantity s) = true.

Definition traced (S : list Order.t) (e : TradingEngine.t) : Prop :=
  Forall (λ ob, Forall (remainder_of S) (resting ob)) (TradingEngine.order_books e)
  ∧ Forall (trade_of S) (TradingEngine.matches e).

(** The ids of the orders resting in the engine. *)
Definition resting_ids (e : TradingEngine.t) : list uuid :=
  Order.order_id <$> resting_orders e.

(** The engine has grown: same size, the ledger extended at its end, and
    every slot with a ticker still with a ticker. *)
Definition grown (e e' : TradingEngine.t) : Prop :=
  TradingEngine.size e' = TradingEngine.size e
  ∧ TradingEngine.matches e `prefix_of` TradingEngine.matches e'
  ∧ ∀ i ob, TradingEngine.order_books e !! i = Some ob →
      OrderBook.ticker_symbol ob ≠ None →
      ∃ ob', TradingEngine.order_books e' !! i = Some ob'
        ∧ OrderBook.ticker_symbol ob' ≠ None.

(** ** The ids that [uuid.uuid4()] draws *)

(** The calls of a run, as the caller makes them: the id of an order is not
    his to choose. *)
Inductive call : Type :=
| AddOrder (now : Z) (order_type : OrderType) (ticker_symbol : string)
    (quantity price : number.t)
| RunPass (now : Z) (index : nat)
| RunSlot (clock : nat → Z) (fuel : nat) (index : nat)
| RunAll (clock : nat → nat → Z) (fuel : nat).

(** The number of ids that a call draws: [addOrder] reaches [Order(...)],
    and with it [uuid.uuid4()], when its test of the quantity and the price
    has failed. *)
Definition draws (c : call) : nat :=
  match c with
  | AddOrder _ _ _ q p => if number.le q 0 || number.le p 0 then 0 else 1
  | _ => 0
  end.

Definition drawn (cs : list call) : nat := sum_list_with draws cs.

(** The events of a run in which [uuid4 k] is the [k]th id that
    [uuid.uuid4()] draws, [k] ids having been drawn before. *)
Definition event_of (uuid4 : nat → uuid) (k : nat) (c : call) : event :=
  match c with
  | AddOrder now ty ticker q p => Submit now (uuid4 k) ty ticker q p
  | RunPass now index => MatchPass now index
  | RunSlot clock fuel index => MatchSlot clock fuel index
  | RunAll clock fuel => MatchAll clock fuel
  end.

Fixpoint events (uuid4 : nat → uuid) (k : nat) (cs : list call) : list event :=
  match cs with
  | [] => []
  | c :: cs => event_of uuid4 k c :: events uuid4 (k + draws c) cs
  end.

(** A run of one call: a bid for "X". *)
Definition demo_calls : list call := [AddOrder 1 BUY "X" 100 50].

(** * Properties *)

Ltac Zify.zify_post_hook ::= Z.to_euclidean_division_equations.

(** ** Arrays *)

Section pylist_facts.
Context {A : Type}.
Implicit Types (l : list A) (x : A).

Lemma getitem_Ok l i x : l !! i = Some x → getitem l i = Ok x.
Proof. unfold getitem. by intros ->. Qed.

Lemma getitem_inv l i x : getitem l i = Ok x → l !! i = Some x.
Proof. unfold getitem. destruct (l !! i); naive_solver. Qed.

Lemma setitem_Ok l i x : i < length l → setitem l i x = Ok (<[i:=x]> l).
Proof. unfold setitem. intros. by rewrite decide_True. Qed.

Lemma setitem_inv l i x l' :
  setitem l i x = Ok l' → i < length l ∧ l' = <[i:=x]> l.
Proof. unfold setitem. case_decide; naive_solver. Qed.

Lemma pop_snoc l x : pop (l ++ [x]) = Ok (x, l).
Proof.
  unfold pop. rewrite last_snoc, length_app. simpl.
  replace (length l + 1 - 1) with (length l) by lia.
  by rewrite take_app_length.
Qed.

Lemma pop_cons x l : ∃ y l', x :: l = l' ++ [y] ∧ pop (x :: l) = Ok (y, l').
Proof.
  destruct (last (x :: l)) as [y|] eqn:E.
  - apply last_Some in E as [l' E]. exists y, l'. split; [done|].
    rewrite E. apply pop_snoc.
  - by apply last_None in E.
Qed.
End pylist_facts.

(** ** [heapq]: the calls return, and keep the elements *)

Lemma shiftr_1 n : Nat.shiftr n 1 = Nat.div2 n.
Proof. reflexivity. Qed.

Section heapq_facts.
Context {A : Type} (lt : A → A → bool).
Implicit Types (heap : list A) (x newitem : A).

Local Abbreviation parent_of pos := (Nat.div2 (pos - 1)).

(** The two ways out of the loop of [_siftdown], and the way round it. *)
Lemma _siftdown_loop_stop fuel heap newitem startpos pos :
  ¬ startpos < pos → pos < length heap →
  heapq._siftdown_loop lt fuel heap newitem startpos pos
  = Ok (<[pos:=newitem]> heap).
Proof.
  intros. destruct fuel; simpl; rewrite decide_False by done;
    by apply setitem_Ok.
Qed.

Lemma _siftdown_loop_step fuel heap newitem startpos pos p :
  startpos < pos → pos < length heap → heap !! parent_of pos = Some p →
  heapq._siftdown_loop lt (S fuel) heap newitem startpos pos
  = if lt newitem p
    then heapq._siftdown_loop lt fuel (<[pos:=p]> heap) newitem startpos
           (parent_of pos)
    else Ok (<[pos:=newitem]> heap).
Proof.
  intros Hlt Hlen Hp. cbn [heapq._siftdown_loop].
  rewrite decide_True by done. rewrite shiftr_1.
  rewrite (getitem_Ok _ _ _ Hp). cbn [mbind result_bind].
  destruct (lt newitem p); [|by apply setitem_Ok].
  by rewrite setitem_Ok.
Qed.

Lemma _siftdown_loop_perm fuel heap newitem startpos pos :
  pos ≤ fuel → pos < length heap →
  ∃ heap', heapq._siftdown_loop lt fuel heap newitem startpos pos = Ok heap'
           ∧ heap' ≡ₚ <[pos:=newitem]> heap.
Proof.
  revert heap pos. induction fuel as [|fuel IH]; intros heap pos Hfuel Hlen.
  - exists (<[pos:=newitem]> heap). split; [|done].
    apply _siftdown_loop_stop; [lia|done].
  - destruct (decide (startpos < pos)) as [Hlt|Hge].
    + destruct (lookup_lt_is_Some_2 heap (parent_of pos)) as [p Hp]; [lia|].
      rewrite (_siftdown_loop_step _ _ _ _ _ p) by done.
      destruct (lt newitem p); [|by eexists].
      destruct (IH (<[pos:=p]> heap) (parent_of pos)) as (heap' & -> & Hperm).
      { lia. } { rewrite length_insert. lia. }
      exists heap'. split; [done|]. rewrite Hperm.
      rewrite <-(list_insert_insert_eq heap pos p newitem).
      apply Permutation_insert_swap.
      * by apply list_lookup_insert_eq.
      * rewrite list_lookup_insert_ne by lia. done.
    + exists (<[pos:=newitem]> heap). split; [|done].
      by apply _siftdown_loop_stop.
Qed.

Lemma _siftdown_perm heap startpos pos :
  pos < length heap →
  ∃ heap', heapq._siftdown lt heap startpos pos = Ok heap' ∧ heap' ≡ₚ heap.
Proof.
  intros Hlen. unfold heapq._siftdown.
  destruct (lookup_lt_is_Some_2 heap pos) as [x Hx]; [done|].
  rewrite (getitem_Ok _ _ _ Hx). cbn [mbind result_bind].
  destruct (_siftdown_loop_perm pos heap x startpos pos) as (heap' & -> & Hp);
    [done..|].
  exists heap'. split; [done|]. by rewrite Hp, list_insert_id.
Qed.

Lemma heappush_perm heap x :
  ∃ heap', heapq.heappush lt heap x = Ok heap' ∧ heap' ≡ₚ x :: heap.
Proof.
  unfold heapq.heappush.
  destruct (_siftdown_perm (heap ++ [x]) 0 (length (heap ++ [x]) - 1))
    as (heap' & -> & Hp).
  { rewrite length_app. simpl. lia. }
  exists heap'. split; [done|]. rewrite Hp.
  by rewrite <-Permutation_cons_append.
Qed.

(** One round of the loop of [_siftup]: the child [c] that moves up is one
    of the two children of [pos], and the other child, if there is one, is
    not smaller. *)
Lemma _siftup_loop_step fuel heap pos :
  2 * pos + 1 < length heap →
  ∃ c child,
    (c = 2 * pos + 1 ∨ c = 2 * pos + 2)
    ∧ heap !! c = Some child
    ∧ (∀ i x, i = 2 * pos + 1 ∨ i = 2 * pos + 2 → i ≠ c →
         heap !! i = Some x → lt x child = false ∨ lt child x = true)
    ∧ heapq._siftup_loop lt (S fuel) heap (length heap) pos
      = heapq._siftup_loop lt fuel (<[pos:=child]> heap) (length heap) c.
Proof.
  intros Hchild. cbn [heapq._siftup_loop].
  rewrite decide_True by done.
  destruct (lookup_lt_is_Some_2 heap (2 * pos + 1)) as [c0 Hc0]; [done|].
  case_decide as Hright.
  - destruct (lookup_lt_is_Some_2 heap (2 * pos + 1 + 1)) as [r Hr]; [done|].
    rewrite (getitem_Ok _ _ _ Hc0), (getitem_Ok _ _ _ Hr).
    cbn [mbind result_bind].
    destruct (lt c0 r) eqn:Hcmp; cbn [negb mbind result_bind].
    + exists (2 * pos + 1), c0. split; [by left|]. split; [done|]. split.
      * intros i x [->| ->] Hne Hx; [done|].
        replace (2 * pos + 2) with (2 * pos + 1 + 1) in Hx by lia.
        right. congruence.
      * rewrite (getitem_Ok _ _ _ Hc0). cbn [mbind result_bind].
        by rewrite setitem_Ok by lia.
    + exists (2 * pos + 1 + 1), r. split; [right; lia|]. split; [done|]. split.
      * intros i x [->| ->] Hne Hx; [|lia]. left. congruence.
      * rewrite (getitem_Ok _ _ _ Hr). cbn [mbind result_bind].
        by rewrite setitem_Ok by lia.
  - cbn [mbind result_bind].
    exists (2 * pos + 1), c0. split; [by left|]. split; [done|]. split.
    + intros i x [->| ->] Hne Hx; [done|].
      apply lookup_lt_Some in Hx. lia.
    + rewrite (getitem_Ok _ _ _ Hc0). cbn [mbind result_bind].
      by rewrite setitem_Ok by lia.
Qed.

Lemma _siftup_loop_stop fuel heap pos :
  ¬ 2 * pos + 1 < length heap →
  heapq._siftup_loop lt fuel heap (length heap) pos = Ok (heap, pos).
Proof. intros. destruct fuel; simpl; by rewrite decide_False by done. Qed.

(** The loop of [_siftup] ends on a leaf of the heap, and what it did is a
    rotation along the path: putting any [x] at the end of the path gives
    the elements of the heap with [x] at the start of the path. *)
Lemma _siftup_loop_perm fuel heap pos :
  length heap - pos ≤ fuel → pos < length heap →
  ∃ heap' pos',
    heapq._siftup_loop lt fuel heap (length heap) pos = Ok (heap', pos')
    ∧ pos' < length heap'
    ∧ length heap' = length heap
    ∧ ∀ x, <[pos':=x]> heap' ≡ₚ <[pos:=x]> heap.
Proof.
  revert heap pos. induction fuel as [|fuel IH]; intros heap pos Hfuel Hlen;
    [lia|].
  destruct (decide (2 * pos + 1 < length heap)) as [Hchild|Hleaf]; cycle 1.
  { rewrite _siftup_loop_stop by done. by exists heap, pos. }
  destruct (_siftup_loop_step fuel heap pos Hchild)
    as (c & child & Hc & Hcv & _ & ->).
  destruct (IH (<[pos:=child]> heap) c) as (heap' & pos' & Hrun & ? & Hl & Hp).
  { rewrite length_insert. lia. }
  { rewrite length_insert. by apply lookup_lt_Some in Hcv. }
  rewrite length_insert in Hrun, Hl.
  exists heap', pos'. split; [done|]. split; [done|]. split; [done|].
  intros x. rewrite Hp.
  rewrite <-(list_insert_insert_eq heap pos child x).
  apply Permutation_insert_swap.
  - by apply list_lookup_insert_eq.
  - rewrite list_lookup_insert_ne by lia. done.
Qed.

Lemma _siftup_perm heap pos :
  pos < length heap →
  ∃ heap', heapq._siftup lt heap pos = Ok heap' ∧ heap' ≡ₚ heap.
Proof.
  intros Hlen. unfold heapq._siftup.
  destruct (lookup_lt_is_Some_2 heap pos) as [x Hx]; [done|].
  rewrite (getitem_Ok _ _ _ Hx). cbn [mbind result_bind].
  destruct (_siftup_loop_perm (length heap) heap pos)
    as (heap1 & pos1 & -> & Hpos1 & Hl & Hp); [lia|done|].
  cbn [mbind result_bind]. rewrite setitem_Ok by done.
  cbn [mbind result_bind].
  destruct (_siftdown_perm (<[pos1:=x]> heap1) pos pos1) as (heap' & -> & Hq).
  { by rewrite length_insert. }
  exists heap'. split; [done|].
  by rewrite Hq, Hp, list_insert_id.
Qed.

Lemma heappop_one y : heapq.heappop lt [y] = Ok (y, []).
Proof. reflexivity. Qed.

Lemma heappop_snoc r pre y :
  heapq.heappop lt (r :: pre ++ [y])
  = heap' ← heapq._siftup lt (y :: pre) 0; Ok (r, heap').
Proof.
  unfold heapq.heappop. change (r :: pre ++ [y]) with ((r :: pre) ++ [y]).
  rewrite pop_snoc. reflexivity.
Qed.

(** [heappop] returns the first element and keeps the others. *)
Lemma heappop_perm x heap :
  ∃ heap', heapq.heappop lt (x :: heap) = Ok (x, heap') ∧ heap' ≡ₚ heap.
Proof.
  destruct (pop_cons x heap) as (y & l' & El & _).
  destruct l' as [|z l']; simplify_eq/=.
  - by exists [].
  - rewrite heappop_snoc.
    destruct (_siftup_perm (y :: l') 0) as (heap' & -> & Hp); [simpl; lia|].
    exists heap'. split; [done|]. rewrite Hp.
    apply Permutation_cons_append.
Qed.

Lemma heappop_nil : heapq.heappop lt [] = Raise IndexError.
Proof. reflexivity. Qed.
End heapq_facts.

(** ** [heapq]: heap order *)

Section heap_order_facts.
Context {A : Type} (lt : A → A → bool) (dom : A → Prop).
Implicit Types (heap : list A) (x newitem : A).

(** [lt] is a strict weak order on [dom]. *)
Hypothesis lt_asym : ∀ a b, dom a → dom b → lt a b = true → lt b a = false.
Hypothesis ge_trans : ∀ a b c, dom a → dom b → dom c →
  lt b a = false → lt c b = false → lt c a = false.

Local Abbreviation parent_of pos := (Nat.div2 (pos - 1)).

Lemma heap_except_root heap : heap_except lt heap 0 → is_heap lt heap.
Proof. intros [H1 _] i c p Hi. apply H1; [done|lia]. Qed.

Lemma is_heap_snoc heap x :
  is_heap lt heap → heap_except lt (heap ++ [x]) (length heap).
Proof.
  intros Hheap. split.
  - intros i c p Hi Hne Hc Hp.
    assert (i < length heap) as Hlt.
    { apply lookup_lt_Some in Hc. rewrite length_app in Hc. simpl in Hc. lia. }
    rewrite lookup_app_l in Hc by done.
    rewrite lookup_app_l in Hp by lia.
    by eapply Hheap.
  - intros i c g _ Hi Hpar Hc _.
    apply lookup_lt_Some in Hc. rewrite length_app in Hc. simpl in Hc. lia.
Qed.

Lemma _siftdown_loop_heap fuel heap newitem pos :
  pos ≤ fuel → pos < length heap → dom newitem → Forall dom heap →
  heap_except lt (<[pos:=newitem]> heap) pos →
  ∃ heap', heapq._siftdown_loop lt fuel heap newitem 0 pos = Ok heap'
           ∧ is_heap lt heap'.
Proof.
  revert heap pos.
  induction fuel as [|fuel IH]; intros heap pos Hfuel Hlen Hnew Hdom Hex.
  { assert (pos = 0) as -> by lia.
    rewrite _siftdown_loop_stop by (lia || done).
    eexists. split; [done|]. by apply heap_except_root. }
  destruct (decide (0 < pos)) as [Hpos|Hpos]; cycle 1.
  { assert (pos = 0) as -> by lia.
    rewrite _siftdown_loop_stop by (lia || done).
    eexists. split; [done|]. by apply heap_except_root. }
  destruct (lookup_lt_is_Some_2 heap (parent_of pos)) as [p Hp]; [lia|].
  assert (dom p) as Hdp by (by eapply Forall_lookup_1).
  rewrite (_siftdown_loop_step _ _ _ _ _ _ p) by done.
  destruct Hex as [Hex1 Hex2].
  assert (<[pos:=newitem]> heap !! parent_of pos = Some p) as HLp.
  { rewrite list_lookup_insert_ne by lia. done. }
  assert (<[pos:=newitem]> heap !! pos = Some newitem) as HLpos.
  { by apply list_lookup_insert_eq. }
  destruct (lt newitem p) eqn:Hcmp.
  - (* the parent moves down, the hole moves up *)
    apply IH; [lia|rewrite length_insert; lia|done|by apply Forall_insert|].
    assert (lt p newitem = false) as Hpn by (by apply lt_asym).
    assert (∀ i, i ≠ pos → i ≠ parent_of pos →
      <[parent_of pos:=newitem]> (<[pos:=p]> heap) !! i
      = <[pos:=newitem]> heap !! i) as Hother.
    { intros i ??. by rewrite !list_lookup_insert_ne by done. }
    assert (<[parent_of pos:=newitem]> (<[pos:=p]> heap) !! pos = Some p) as H2pos.
    { rewrite list_lookup_insert_ne by lia. by apply list_lookup_insert_eq. }
    assert (<[parent_of pos:=newitem]> (<[pos:=p]> heap) !! parent_of pos
            = Some newitem) as H2par.
    { apply list_lookup_insert_eq. rewrite length_insert. lia. }
    assert (∀ i c, <[parent_of pos:=newitem]> (<[pos:=p]> heap) !! i = Some c →
      dom c) as Hdom2.
    { intros i c. apply Forall_lookup_1.
      apply Forall_insert; [by apply Forall_insert|done]. }
    assert (∀ i c, <[pos:=newitem]> heap !! i = Some c → dom c) as Hdom1.
    { intros i c. apply Forall_lookup_1. by apply Forall_insert. }
    split.
    + intros i c q Hi Hne Hc Hq.
      destruct (decide (i = pos)) as [->|Hnpos].
      { rewrite H2pos in Hc. rewrite H2par in Hq. by simplify_eq. }
      rewrite Hother in Hc by done.
      destruct (decide (parent_of i = parent_of pos)) as [Hsib|Hnsib].
      { rewrite Hsib, H2par in Hq. simplify_eq.
        apply (ge_trans _ p); eauto.
        apply (Hex1 i); [done..|]. by rewrite Hsib. }
      destruct (decide (parent_of i = pos)) as [Hch|Hnch].
      { rewrite Hch, H2pos in Hq. simplify_eq. by apply (Hex2 i). }
      rewrite Hother in Hq by done. by apply (Hex1 i).
    + intros i c g Hpp Hi Hpar Hc Hg.
      rewrite Hother in Hg by lia.
      assert (lt p g = false) as Hpg by (apply (Hex1 (parent_of pos)); [lia..|done|done]).
      destruct (decide (i = pos)) as [->|Hnpos].
      { rewrite H2pos in Hc. by simplify_eq. }
      rewrite Hother in Hc by lia.
      apply (ge_trans _ p); eauto.
      apply (Hex1 i); [done..|]. by rewrite Hpar.
  - (* the new item stays at [pos] *)
    eexists. split; [done|].
    intros i c q Hi Hc Hq.
    destruct (decide (i = pos)) as [->|Hne].
    + rewrite HLpos in Hc. rewrite HLp in Hq. by simplify_eq.
    + by apply (Hex1 i).
Qed.

(** [heappush] keeps heap order. *)
Lemma heappush_is_heap heap x :
  dom x → Forall dom heap → is_heap lt heap →
  ∃ heap', heapq.heappush lt heap x = Ok heap' ∧ is_heap lt heap'.
Proof.
  intros Hx Hdom Hheap. unfold heapq.heappush, heapq._siftdown.
  rewrite length_app. simpl.
  replace (length heap + 1 - 1) with (length heap) by lia.
  rewrite (getitem_Ok _ _ x) by (by rewrite lookup_app_r, Nat.sub_diag).
  cbn [mbind result_bind].
  apply _siftdown_loop_heap; [done| |done| |].
  - rewrite length_app. simpl. lia.
  - apply Forall_app. split; [done|]. by constructor.
  - rewrite list_insert_id by (by rewrite lookup_app_r, Nat.sub_diag).
    by apply is_heap_snoc.
Qed.

(** The first element of a heap is smaller than no other. *)
Lemma is_heap_root heap r :
  Forall dom heap → is_heap lt heap → heap !! 0 = Some r →
  ∀ i x, heap !! i = Some x → lt x r = false.
Proof.
  intros Hdom Hheap Hr i. induction (lt_wf i) as [i _ IH]. intros x Hx.
  assert (dom r) as Hdr by (by eapply Forall_lookup_1).
  assert (dom x) as Hdx by (by eapply Forall_lookup_1).
  destruct (decide (i = 0)) as [->|Hi].
  - rewrite Hr in Hx. injection Hx as <-.
    destruct (lt r r) eqn:E; [|done].
    by rewrite (lt_asym r r) in E.
  - destruct (lookup_lt_is_Some_2 heap (parent_of i)) as [p Hp].
    { apply lookup_lt_Some in Hx. lia. }
    assert (dom p) as Hdp by (by eapply Forall_lookup_1).
    apply (ge_trans _ p); [done..| |].
    + apply (IH (parent_of i)); [lia|done].
    + apply (Hheap i); [lia|done..].
Qed.

(** Taking the last element off a heap leaves a heap. *)
Lemma is_heap_prefix heap x : is_heap lt (heap ++ [x]) → is_heap lt heap.
Proof.
  intros Hheap i c p Hi Hc Hp. apply (Hheap i); [done|..].
  - rewrite lookup_app_l; [done|]. by apply lookup_lt_Some in Hc.
  - rewrite lookup_app_l; [done|]. by apply lookup_lt_Some in Hp.
Qed.

(** Overwriting the root of a heap leaves a heap with a hole at the root. *)
Lemma is_heap_hole_root heap x : is_heap lt heap → hole_down lt (<[0:=x]> heap) 0.
Proof.
  intros Hheap. split; [|lia].
  intros i c p Hi _ Hpar Hc Hp.
  rewrite list_lookup_insert_ne in Hc, Hp by lia. by apply (Hheap i).
Qed.

(** The loop of [_siftup] moves the hole to a leaf. *)
Lemma _siftup_loop_heap fuel heap pos :
  length heap - pos ≤ fuel → pos < length heap → Forall dom heap →
  hole_down lt heap pos →
  ∃ heap' pos',
    heapq._siftup_loop lt fuel heap (length heap) pos = Ok (heap', pos')
    ∧ Forall dom heap'
    ∧ length heap' ≤ 2 * pos' + 1
    ∧ hole_down lt heap' pos'.
Proof.
  revert heap pos.
  induction fuel as [|fuel IH]; intros heap pos Hfuel Hlen Hdom Hhole; [lia|].
  destruct (decide (2 * pos + 1 < length heap)) as [Hchild|Hleaf]; cycle 1.
  { rewrite _siftup_loop_stop by done. exists heap, pos.
    split; [done|]. split; [done|]. split; [lia|done]. }
  destruct (_siftup_loop_step lt fuel heap pos Hchild)
    as (c & child & Hc & Hcv & Hsib & ->).
  assert (dom child) as Hdc by (by eapply Forall_lookup_1).
  assert (parent_of c = pos) as Hpc by lia.
  destruct (IH (<[pos:=child]> heap) c) as (heap' & pos' & Hrun & ?).
  { rewrite length_insert. lia. }
  { rewrite length_insert. by apply lookup_lt_Some in Hcv. }
  { by apply Forall_insert. }
  { destruct Hhole as [Ha Hb].
    assert (<[pos:=child]> heap !! pos = Some child) as H2pos
      by (by apply list_lookup_insert_eq).
    split.
    - intros i x p Hi Hne Hpar Hx Hp.
      destruct (decide (i = pos)) as [->|Hnpos].
      { rewrite H2pos in Hx. rewrite list_lookup_insert_ne in Hp by lia.
        simplify_eq. apply (Hb c); [lia|lia|done..]. }
      rewrite list_lookup_insert_ne in Hx by done.
      destruct (decide (parent_of i = pos)) as [Hch|Hnch].
      { rewrite Hch, H2pos in Hp. simplify_eq.
        assert (dom x) by (by eapply Forall_lookup_1).
        destruct (Hsib i x) as [?|?]; [lia|lia|done|done|by apply lt_asym]. }
      rewrite list_lookup_insert_ne in Hp by done. by apply (Ha i).
    - intros i x g _ Hi Hpar Hx Hg.
      rewrite Hpc, H2pos in Hg. injection Hg as <-.
      rewrite list_lookup_insert_ne in Hx by lia.
      apply (Ha i); [done|lia|lia|done|]. by rewrite Hpar. }
  rewrite length_insert in Hrun. by exists heap', pos'.
Qed.

Lemma _siftup_heap heap :
  0 < length heap → Forall dom heap → hole_down lt heap 0 →
  ∃ heap', heapq._siftup lt heap 0 = Ok heap' ∧ is_heap lt heap'.
Proof.
  intros Hlen Hdom Hhole. unfold heapq._siftup.
  destruct (lookup_lt_is_Some_2 heap 0) as [x Hx]; [done|].
  assert (dom x) as Hdx by (by eapply Forall_lookup_1).
  rewrite (getitem_Ok _ _ _ Hx). cbn [mbind result_bind].
  destruct (_siftup_loop_perm lt (length heap) heap 0)
    as (heap1 & pos1 & Hrun & Hpos1 & Hl & _); [lia|done|].
  destruct (_siftup_loop_heap (length heap) heap 0)
    as (heap2 & pos2 & Hrun' & Hdom1 & Hleaf & [Ha Hb]); [lia|done..|].
  rewrite Hrun in Hrun'. injection Hrun' as <- <-. rewrite Hrun.
  cbn [mbind result_bind]. rewrite setitem_Ok by done.
  cbn [mbind result_bind]. unfold heapq._siftdown.
  rewrite (getitem_Ok _ _ x) by (by apply list_lookup_insert_eq).
  cbn [mbind result_bind].
  apply _siftdown_loop_heap;
    [done|by rewrite length_insert|done|by apply Forall_insert|].
  rewrite list_insert_insert_eq. split.
  - intros i c p Hi Hne Hc Hp.
    assert (i < length heap1) as Hilt.
    { apply lookup_lt_Some in Hc. by rewrite length_insert in Hc. }
    rewrite list_lookup_insert_ne in Hc by done.
    rewrite list_lookup_insert_ne in Hp by lia.
    apply (Ha i); [done|done|lia|done..].
  - intros i c g _ Hi Hpar Hc _.
    apply lookup_lt_Some in Hc. rewrite length_insert in Hc. lia.
Qed.

(** [heappop] keeps heap order. *)
Lemma heappop_is_heap x heap :
  Forall dom (x :: heap) → is_heap lt (x :: heap) →
  ∃ heap', heapq.heappop lt (x :: heap) = Ok (x, heap') ∧ is_heap lt heap'.
Proof.
  intros Hdom Hheap.
  destruct (pop_cons x heap) as (y & l' & El & _).
  destruct l' as [|z l']; simplify_eq/=.
  { exists []. split; [done|]. intros i c p _ Hc. by destruct i. }
  rewrite heappop_snoc.
  change (z :: l' ++ [y]) with ((z :: l') ++ [y]) in Hdom, Hheap.
  apply Forall_app in Hdom as [Hdom Hy]. apply Forall_cons in Hdom as [Hz Hdom].
  apply Forall_cons in Hy as [Hy _].
  destruct (_siftup_heap (y :: l')) as (heap' & -> & ?).
  { simpl. lia. } { by constructor. }
  { apply (is_heap_hole_root (z :: l') y). by eapply is_heap_prefix. }
  by exists heap'.
Qed.
End heap_order_facts.

(** ** Numbers *)

Ltac num_solve :=
  unfold positive, number.lt, number.le, number.gt, number.ge, number.ne,
    number.sub, number.min in *;
  repeat case_match; simplify_eq/=; try done; try lia.

Lemma is_num_Num z : is_num (number.Num z).
Proof. by exists z. Qed.

Lemma is_num_NaN : ¬ is_num number.NaN.
Proof. by intros [z ?]. Qed.

Lemma positive_is_num a : positive a → is_num a.
Proof. destruct a; [intros _; apply is_num_Num|done]. Qed.


(** [addOrder] lets a number through when it is positive or NaN. *)
Lemma le_0_false a : number.le a 0 = false ↔ positive a ∨ a = number.NaN.
Proof.
  destruct a as [z|]; unfold positive; simpl; [|by split; auto].
  split; [left; lia|intros [?|?]; [lia|done]].
Qed.

(** ** The order of orders *)

Lemma buy_lt_asym a b :
  priced_buy a → priced_buy b → Order.__lt__ a b = true → Order.__lt__ b a = false.
Proof.
  unfold priced_buy, is_buy, priced, Order.__lt__.
  intros [Ha [x Hx]] [Hb [y Hy]]. rewrite Ha, Hb, Hx, Hy. num_solve.
Qed.

Lemma buy_ge_trans a b c :
  priced_buy a → priced_buy b → priced_buy c →
  Order.__lt__ b a = false → Order.__lt__ c b = false → Order.__lt__ c a = false.
Proof.
  unfold priced_buy, is_buy, priced, Order.__lt__.
  intros [_ [x Hx]] [Hb [y Hy]] [Hc [z Hz]]. rewrite Hb, Hc, Hx, Hy, Hz.
  num_solve.
Qed.

Lemma sell_lt_asym a b :
  priced_sell a → priced_sell b → Order.__lt__ a b = true → Order.__lt__ b a = false.
Proof.
  unfold priced_sell, is_sell, priced, Order.__lt__.
  intros [Ha [x Hx]] [Hb [y Hy]]. rewrite Ha, Hb, Hx, Hy. num_solve.
Qed.

Lemma sell_ge_trans a b c :
  priced_sell a → priced_sell b → priced_sell c →
  Order.__lt__ b a = false → Order.__lt__ c b = false → Order.__lt__ c a = false.
Proof.
  unfold priced_sell, is_sell, priced, Order.__lt__.
  intros [_ [x Hx]] [Hb [y Hy]] [Hc [z Hz]]. rewrite Hb, Hc, Hx, Hy, Hz.
  num_solve.
Qed.

Lemma buy_not_lt_priority top o :
  priced_buy o → priced top → Order.__lt__ o top = false → buy_priority top o.
Proof.
  unfold priced_buy, is_buy, priced, Order.__lt__, buy_priority.
  intros [Ha [x Hx]] [y Hy]. rewrite Ha, Hx, Hy. simpl.
  destruct (decide (x = y)) as [->|Hne].
  - rewrite Z.eqb_refl. simpl. intros H. right. split; [done|lia].
  - rewrite (proj2 (Z.eqb_neq x y) Hne). simpl. intros H. left. lia.
Qed.

Lemma sell_not_lt_priority top o :
  priced_sell o → priced top → Order.__lt__ o top = false → sell_priority top o.
Proof.
  unfold priced_sell, is_sell, priced, Order.__lt__, sell_priority.
  intros [Ha [x Hx]] [y Hy]. rewrite Ha, Hx, Hy. simpl.
  destruct (decide (x = y)) as [->|Hne].
  - rewrite Z.eqb_refl. simpl. intros H. right. split; [done|lia].
  - rewrite (proj2 (Z.eqb_neq x y) Hne). simpl. intros H. left. lia.
Qed.

(** ** Order books *)

Lemma is_heap_nil {A} (lt : A → A → bool) : is_heap lt [].
Proof. intros i c p _ Hc. by destruct i. Qed.

Lemma heap_book_init : heap_book OrderBook.__init__.
Proof.
  split; [by split; constructor|]. split; [constructor|].
  split; apply is_heap_nil.
Qed.

(** The orders of a book of heaps, side by side. *)
Lemma heap_book_sides ob :
  heap_book ob →
  Forall priced_buy (OrderBook.buy_orders ob)
  ∧ Forall priced_sell (OrderBook.sell_orders ob).
Proof.
  intros ([Hb Hs] & Hp & _). unfold resting in Hp.
  apply Forall_app in Hp as [Hpb Hps]. split.
  - apply Forall_forall. intros o Ho. split.
    + exact (proj1 (Forall_forall _ _) Hb o Ho).
    + exact (proj1 (Forall_forall _ _) Hpb o Ho).
  - apply Forall_forall. intros o Ho. split.
    + exact (proj1 (Forall_forall _ _) Hs o Ho).
    + exact (proj1 (Forall_forall _ _) Hps o Ho).
Qed.

Lemma add_order_spec ob o :
  ∃ ob', OrderBook.add_order ob o = Ok ob'
    ∧ OrderBook.ticker_symbol ob' = OrderBook.ticker_symbol ob
    ∧ holds_with o (OrderBook.buy_orders ob) (OrderBook.sell_orders ob) ob'
    ∧ (sided ob → sided ob')
    ∧ (heap_book ob → priced o → heap_book ob').
Proof.
  unfold OrderBook.add_order, holds_with.
  destruct (Order.order_type o) eqn:Ho.
  - destruct (heappush_perm Order.__lt__ (OrderBook.buy_orders ob) o)
      as (h & Hpush & Hp).
    rewrite Hpush. cbn [mbind result_bind]. eexists. split; [done|].
    split; [done|]. split; [done|].
    assert (sided ob → sided (OrderBook.set_buy_orders ob h)) as Hsided.
    { intros [Hb Hs]. split; [|done]. simpl. rewrite Hp. by constructor. }
    split; [done|].
    intros Hh Hpo. destruct (heap_book_sides ob Hh) as [Hdb _].
    destruct Hh as (Hsd & Hpr & Hhb & Hhs). split; [auto|].
    split; [unfold resting; simpl; rewrite Hp; by constructor|].
    split; [|done]. simpl.
    destruct (heappush_is_heap Order.__lt__ priced_buy buy_lt_asym buy_ge_trans
      (OrderBook.buy_orders ob) o) as (h' & Hpush' & ?); [done..|].
    rewrite Hpush in Hpush'. by injection Hpush' as <-.
  - destruct (heappush_perm Order.__lt__ (OrderBook.sell_orders ob) o)
      as (h & Hpush & Hp).
    rewrite Hpush. cbn [mbind result_bind]. eexists. split; [done|].
    split; [done|]. split; [done|].
    assert (sided ob → sided (OrderBook.set_sell_orders ob h)) as Hsided.
    { intros [Hb Hs]. split; [done|]. simpl. rewrite Hp. by constructor. }
    split; [done|].
    intros Hh Hpo. destruct (heap_book_sides ob Hh) as [_ Hds].
    destruct Hh as (Hsd & Hpr & Hhb & Hhs). split; [auto|].
    split.
    { unfold resting in *. simpl. rewrite Hp.
      apply Forall_app in Hpr as [? ?]. apply Forall_app. split; [done|].
      by constructor. }
    split; [done|]. simpl.
    destruct (heappush_is_heap Order.__lt__ priced_sell sell_lt_asym sell_ge_trans
      (OrderBook.sell_orders ob) o) as (h' & Hpush' & ?); [done..|].
    rewrite Hpush in Hpush'. by injection Hpush' as <-.
Qed.

Lemma get_best_buy_head ob : OrderBook.get_best_buy ob = head (OrderBook.buy_orders ob).
Proof. unfold OrderBook.get_best_buy. by destruct (OrderBook.buy_orders ob). Qed.

Lemma get_best_sell_head ob :
  OrderBook.get_best_sell ob = head (OrderBook.sell_orders ob).
Proof. unfold OrderBook.get_best_sell. by destruct (OrderBook.sell_orders ob). Qed.

Lemma pop_best_buy_spec ob :
  ∃ ob', OrderBook.pop_best_buy ob = Ok (OrderBook.get_best_buy ob, ob')
    ∧ OrderBook.ticker_symbol ob' = OrderBook.ticker_symbol ob
    ∧ OrderBook.buy_orders ob' ≡ₚ tail (OrderBook.buy_orders ob)
    ∧ OrderBook.sell_orders ob' = OrderBook.sell_orders ob
    ∧ (sided ob → sided ob')
    ∧ (heap_book ob → heap_book ob').
Proof.
  rewrite get_best_buy_head. unfold OrderBook.pop_best_buy.
  destruct (OrderBook.buy_orders ob) as [|b B] eqn:E.
  { exists ob. rewrite E. by split_and!. }
  destruct (heappop_perm Order.__lt__ b B) as (h & Hpop & Hp).
  rewrite Hpop. cbn [mbind result_bind]. eexists. split; [done|].
  split; [done|]. split; [done|]. split; [done|].
  assert (sided ob → sided (OrderBook.set_buy_orders ob h)) as Hsided.
  { intros [Hb Hs]. split; [|done]. simpl. rewrite Hp.
    rewrite E in Hb. by apply Forall_cons in Hb as [_ ?]. }
  split; [done|].
  intros Hh. destruct (heap_book_sides ob Hh) as [Hdb _].
  destruct Hh as (Hsd & Hpr & Hhb & Hhs). split; [auto|].
  split.
  { unfold resting in *. simpl. rewrite Hp. rewrite E in Hpr.
    by apply Forall_cons in Hpr as [_ ?]. }
  split; [|done]. simpl. rewrite E in Hhb, Hdb.
  destruct (heappop_is_heap Order.__lt__ priced_buy buy_lt_asym buy_ge_trans b B)
    as (h' & Hpop' & ?); [done..|].
  rewrite Hpop in Hpop'. by injection Hpop' as <-.
Qed.

Lemma pop_best_sell_spec ob :
  ∃ ob', OrderBook.pop_best_sell ob = Ok (OrderBook.get_best_sell ob, ob')
    ∧ OrderBook.ticker_symbol ob' = OrderBook.ticker_symbol ob
    ∧ OrderBook.buy_orders ob' = OrderBook.buy_orders ob
    ∧ OrderBook.sell_orders ob' ≡ₚ tail (OrderBook.sell_orders ob)
    ∧ (sided ob → sided ob')
    ∧ (heap_book ob → heap_book ob').
Proof.
  rewrite get_best_sell_head. unfold OrderBook.pop_best_sell.
  destruct (OrderBook.sell_orders ob) as [|b B] eqn:E.
  { exists ob. rewrite E. by split_and!. }
  destruct (heappop_perm Order.__lt__ b B) as (h & Hpop & Hp).
  rewrite Hpop. cbn [mbind result_bind]. eexists. split; [done|].
  split; [done|]. split; [done|]. split; [done|].
  assert (sided ob → sided (OrderBook.set_sell_orders ob h)) as Hsided.
  { intros [Hb Hs]. split; [done|]. simpl. rewrite Hp.
    rewrite E in Hs. by apply Forall_cons in Hs as [_ ?]. }
  split; [done|].
  intros Hh. destruct (heap_book_sides ob Hh) as [_ Hds].
  destruct Hh as (Hsd & Hpr & Hhb & Hhs). split; [auto|].
  split.
  { unfold resting in *. simpl. rewrite Hp. rewrite E in Hpr.
    apply Forall_app in Hpr as [? [_ ?]%Forall_cons]. by apply Forall_app. }
  split; [done|]. simpl. rewrite E in Hhs, Hds.
  destruct (heappop_is_heap Order.__lt__ priced_sell sell_lt_asym sell_ge_trans b B)
    as (h' & Hpop' & ?); [done..|].
  rewrite Hpop in Hpop'. by injection Hpop' as <-.
Qed.

(** The best bid of a book with heaps ranks first among the bids, and the
    best ask among the asks. *)
Lemma heap_book_best_buy ob top :
  heap_book ob → OrderBook.get_best_buy ob = Some top →
  top ∈ OrderBook.buy_orders ob
  ∧ ∀ o, o ∈ OrderBook.buy_orders ob → buy_priority top o.
Proof.
  intros Hhb Htop. destruct (heap_book_sides ob Hhb) as [Hsd _].
  destruct Hhb as (_ & _ & Hh & _). rewrite get_best_buy_head in Htop.
  assert (OrderBook.buy_orders ob !! 0 = Some top) as H0.
  { by destruct (OrderBook.buy_orders ob); simplify_eq/=. }
  split; [by eapply list_elem_of_lookup_2|].
  intros o [i Hi]%list_elem_of_lookup.
  apply buy_not_lt_priority;
    [by eapply Forall_lookup_1|exact (proj2 (Forall_lookup_1 _ _ _ _ Hsd H0))|].
  by eapply (is_heap_root Order.__lt__ priced_buy buy_lt_asym buy_ge_trans).
Qed.

Lemma heap_book_best_sell ob top :
  heap_book ob → OrderBook.get_best_sell ob = Some top →
  top ∈ OrderBook.sell_orders ob
  ∧ ∀ o, o ∈ OrderBook.sell_orders ob → sell_priority top o.
Proof.
  intros Hhb Htop. destruct (heap_book_sides ob Hhb) as [_ Hsd].
  destruct Hhb as (_ & _ & _ & Hh). rewrite get_best_sell_head in Htop.
  assert (OrderBook.sell_orders ob !! 0 = Some top) as H0.
  { by destruct (OrderBook.sell_orders ob); simplify_eq/=. }
  split; [by eapply list_elem_of_lookup_2|].
  intros o [i Hi]%list_elem_of_lookup.
  apply sell_not_lt_priority;
    [by eapply Forall_lookup_1|exact (proj2 (Forall_lookup_1 _ _ _ _ Hsd H0))|].
  by eapply (is_heap_root Order.__lt__ priced_sell sell_lt_asym sell_ge_trans).
Qed.

(** ** The engine monad *)

Section monad_facts.
Context {A B : Type}.
Implicit Types (m : TradingEngine.M A) (k : A → TradingEngine.M B).

Lemma bind_Ok m k e a e1 : m e = (Ok a, e1) → (m ≫= k) e = k a e1.
Proof. intros H. unfold mbind, TradingEngine.M_bind, TradingEngine.bind. by rewrite H. Qed.

Lemma bind_Raise m k e x e1 : m e = (Raise x, e1) → (m ≫= k) e = (Raise x, e1).
Proof. intros H. unfold mbind, TradingEngine.M_bind, TradingEngine.bind. by rewrite H. Qed.

Lemma bind_OutOfFuel m k e e1 : m e = (OutOfFuel, e1) → (m ≫= k) e = (OutOfFuel, e1).
Proof. intros H. unfold mbind, TradingEngine.M_bind, TradingEngine.bind. by rewrite H. Qed.
End monad_facts.

Lemma on_order_book_Ok {B} index (f : OrderBook.t → result (B * OrderBook.t))
    e ob b ob' :
  TradingEngine.order_books e !! index = Some ob → f ob = Ok (b, ob') →
  TradingEngine.on_order_book index f e
  = (Ok b, TradingEngine.put_order_book index ob' e).
Proof.
  intros Hob Hf. unfold TradingEngine.on_order_book.
  by rewrite (getitem_Ok _ _ _ Hob), Hf.
Qed.

Lemma on_order_book_IndexError {B} index
    (f : OrderBook.t → result (B * OrderBook.t)) e :
  TradingEngine.order_books e !! index = None →
  TradingEngine.on_order_book index f e = (Raise IndexError, e).
Proof.
  intros Hob. unfold TradingEngine.on_order_book, getitem. by rewrite Hob.
Qed.

Lemma put_order_book_id index ob e :
  TradingEngine.order_books e !! index = Some ob →
  TradingEngine.put_order_book index ob e = e.
Proof.
  intros Hob. destruct e. unfold TradingEngine.put_order_book. simpl in *.
  unfold TradingEngine.set_order_books. simpl. by rewrite list_insert_id.
Qed.

Lemma put_order_book_lookup index ob e :
  index < length (TradingEngine.order_books e) →
  TradingEngine.order_books (TradingEngine.put_order_book index ob e) !! index
  = Some ob.
Proof. intros. simpl. by apply list_lookup_insert_eq. Qed.

Lemma put_order_book_twice index ob1 ob2 e :
  TradingEngine.put_order_book index ob2 (TradingEngine.put_order_book index ob1 e)
  = TradingEngine.put_order_book index ob2 e.
Proof.
  unfold TradingEngine.put_order_book, TradingEngine.set_order_books. simpl.
  by rewrite list_insert_insert_eq.
Qed.

Lemma add_order_at index e ob o :
  TradingEngine.order_books e !! index = Some ob →
  ∃ ob', TradingEngine.add_order index o e
         = (Ok tt, TradingEngine.put_order_book index ob' e)
    ∧ OrderBook.add_order ob o = Ok ob'.
Proof.
  intros Hob. destruct (add_order_spec ob o) as (ob' & Hadd & _).
  exists ob'. split; [|done]. unfold TradingEngine.add_order.
  apply on_order_book_Ok with ob; [done|]. by rewrite Hadd.
Qed.

(** ** What adding to a book does to the two sides *)

Lemma holds_with_perm o B S B' S' ob :
  B ≡ₚ B' → S ≡ₚ S' → holds_with o B S ob → holds_with o B' S' ob.
Proof.
  unfold holds_with. intros HB HS. destruct (Order.order_type o);
    by rewrite HB, HS.
Qed.

Lemma holds_with_resting o B S ob : holds_with o B S ob → resting ob ≡ₚ o :: B ++ S.
Proof.
  unfold holds_with, resting. destruct (Order.order_type o); intros [-> ->].
  - done.
  - by rewrite Permutation_middle.
Qed.

Lemma holds_with_buy o B S ob :
  is_buy o → holds_with o B S ob →
  OrderBook.buy_orders ob ≡ₚ o :: B ∧ OrderBook.sell_orders ob ≡ₚ S.
Proof. unfold holds_with, is_buy. by intros ->. Qed.

Lemma holds_with_sell o B S ob :
  is_sell o → holds_with o B S ob →
  OrderBook.buy_orders ob ≡ₚ B ∧ OrderBook.sell_orders ob ≡ₚ o :: S.
Proof. unfold holds_with, is_sell. by intros ->. Qed.

Lemma head_tail {A} (l : list A) : option_list (head l) ++ tail l = l.
Proof. by destruct l. Qed.

(** ** Putting back the orders of a pass that found no cross *)

Lemma put_back_spec index e ob bb bs :
  TradingEngine.order_books e !! index = Some ob →
  ∃ ob',
    TradingEngine.put_back index bb bs e
    = (Ok false, TradingEngine.put_order_book index ob' e)
    ∧ OrderBook.ticker_symbol ob' = OrderBook.ticker_symbol ob
    ∧ resting ob' ≡ₚ option_list bb ++ option_list bs ++ resting ob
    ∧ (sided ob → sided ob')
    ∧ (heap_book ob → (∀ b, bb = Some b → priced b) →
       (∀ s, bs = Some s → priced s) → heap_book ob')
    ∧ ((∀ b, bb = Some b → is_buy b) → (∀ s, bs = Some s → is_sell s) →
       OrderBook.buy_orders ob' ≡ₚ option_list bb ++ OrderBook.buy_orders ob
       ∧ OrderBook.sell_orders ob' ≡ₚ option_list bs ++ OrderBook.sell_orders ob).
Proof.
  intros Hob. unfold TradingEngine.put_back.
  assert (index < length (TradingEngine.order_books e)) as Hlen
    by (by eapply lookup_lt_Some).
  (* the bid *)
  assert (∃ ob1,
    (match bb with
     | Some o => TradingEngine.add_order index o
     | None => mret ()
     end) e = (Ok tt, TradingEngine.put_order_book index ob1 e)
    ∧ OrderBook.ticker_symbol ob1 = OrderBook.ticker_symbol ob
    ∧ resting ob1 ≡ₚ option_list bb ++ resting ob
    ∧ (sided ob → sided ob1)
    ∧ (heap_book ob → (∀ b, bb = Some b → priced b) → heap_book ob1)
    ∧ ((∀ b, bb = Some b → is_buy b) →
       OrderBook.buy_orders ob1 ≡ₚ option_list bb ++ OrderBook.buy_orders ob
       ∧ OrderBook.sell_orders ob1 ≡ₚ OrderBook.sell_orders ob))
    as (ob1 & Hrun1 & Ht1 & Hr1 & Hsd1 & Hh1 & Hside1).
  { destruct bb as [b|].
    - destruct (add_order_at index e ob b Hob) as (ob1 & Hrun & Hadd).
      destruct (add_order_spec ob b) as (? & Hadd' & ? & Hw & ? & ?).
      rewrite Hadd in Hadd'. injection Hadd' as <-.
      exists ob1. split_and!; [done|done| |done|auto|].
      + exact (holds_with_resting _ _ _ _ Hw).
      + intros Hb. apply holds_with_buy; [by apply Hb|done].
    - exists ob. rewrite put_order_book_id by done. by split_and!. }
  rewrite (bind_Ok _ _ _ _ _ Hrun1).
  (* the ask *)
  set (e1 := TradingEngine.put_order_book index ob1 e).
  assert (TradingEngine.order_books e1 !! index = Some ob1) as Hob1
    by (by apply put_order_book_lookup).
  assert (∃ ob2,
    (match bs with
     | Some o => TradingEngine.add_order index o
     | None => mret ()
     end) e1 = (Ok tt, TradingEngine.put_order_book index ob2 e)
    ∧ OrderBook.ticker_symbol ob2 = OrderBook.ticker_symbol ob1
    ∧ resting ob2 ≡ₚ option_list bs ++ resting ob1
    ∧ (sided ob1 → sided ob2)
    ∧ (heap_book ob1 → (∀ s, bs = Some s → priced s) → heap_book ob2)
    ∧ ((∀ s, bs = Some s → is_sell s) →
       OrderBook.buy_orders ob2 ≡ₚ OrderBook.buy_orders ob1
       ∧ OrderBook.sell_orders ob2 ≡ₚ option_list bs ++ OrderBook.sell_orders ob1))
    as (ob2 & Hrun2 & Ht2 & Hr2 & Hsd2 & Hh2 & Hside2).
  { destruct bs as [s|].
    - destruct (add_order_at index e1 ob1 s Hob1) as (ob2 & Hrun & Hadd).
      destruct (add_order_spec ob1 s) as (? & Hadd' & ? & Hw & ? & ?).
      rewrite Hadd in Hadd'. injection Hadd' as <-.
      exists ob2. unfold e1 in Hrun. rewrite put_order_book_twice in Hrun.
      split_and!; [done|done| |done|auto|].
      + exact (holds_with_resting _ _ _ _ Hw).
      + intros Hs. apply holds_with_sell; [by apply Hs|done].
    - exists ob1. by split_and!. }
  rewrite (bind_Ok _ _ _ _ _ Hrun2).
  exists ob2. split_and!; [done|congruence| |auto|auto|].
  - rewrite Hr2, Hr1. apply Permutation_app_swap_app.
  - intros Hb Hs. destruct (Hside1 Hb) as [Hb1 Hs1].
    destruct (Hside2 Hs) as [Hb2 Hs2]. by rewrite Hb2, Hs2, Hb1, Hs1.
Qed.

(** The orders that a book of heaps shows have prices that are numbers. *)
Lemma heap_book_best_priced ob :
  heap_book ob →
  (∀ b, OrderBook.get_best_buy ob = Some b → priced b)
  ∧ (∀ s, OrderBook.get_best_sell ob = Some s → priced s).
Proof.
  intros (_ & Hp & _). unfold resting in Hp. apply Forall_app in Hp as [Hb Hs].
  split.
  - intros b Hbest. rewrite get_best_buy_head in Hbest.
    destruct (OrderBook.buy_orders ob); simplify_eq/=.
    by apply Forall_cons in Hb as [? _].
  - intros s Hbest. rewrite get_best_sell_head in Hbest.
    destruct (OrderBook.sell_orders ob); simplify_eq/=.
    by apply Forall_cons in Hs as [? _].
Qed.

(** ** One pass of the matching loop *)

Lemma match_pass_spec now index e ob lk :
  TradingEngine.order_books e !! index = Some ob →
  TradingEngine.trade_locks e !! index = Some (Some lk) →
  ∃ ob',
    OrderBook.ticker_symbol ob' = OrderBook.ticker_symbol ob
    ∧ (sided ob → sided ob')
    ∧ (heap_book ob → heap_book ob')
    ∧ ((∃ b s, crosses ob b s
          ∧ TradingEngine.match_pass now index e
            = (Ok true,
               TradingEngine.mk (TradingEngine.size e)
                 (<[index:=ob']> (TradingEngine.order_books e))
                 (TradingEngine.trade_locks e)
                 (TradingEngine.matches e ++ [MatchedOrders.__init__ now b s]))
          ∧ settled b s (tail (OrderBook.buy_orders ob))
              (tail (OrderBook.sell_orders ob)) ob')
       ∨ ((∀ b s, ¬ crosses ob b s)
          ∧ TradingEngine.match_pass now index e
            = (Ok false, TradingEngine.put_order_book index ob' e)
          ∧ resting ob' ≡ₚ resting ob
          ∧ (sided ob →
             OrderBook.buy_orders ob' ≡ₚ OrderBook.buy_orders ob
             ∧ OrderBook.sell_orders ob' ≡ₚ OrderBook.sell_orders ob))).
Proof.
  intros Hob Hlk.
  assert (index < length (TradingEngine.order_books e)) as Hlen
    by (by eapply lookup_lt_Some).
  unfold TradingEngine.match_pass.
  rewrite (bind_Ok _ _ e (Some lk) e)
    by (unfold TradingEngine.get_trade_lock; by rewrite (getitem_Ok _ _ _ Hlk)).
  (* the two pops *)
  destruct (pop_best_buy_spec ob) as (ob1 & Hpop1 & Ht1 & Hb1 & Hs1 & Hsd1 & Hh1).
  rewrite (bind_Ok _ _ e (OrderBook.get_best_buy ob)
             (TradingEngine.put_order_book index ob1 e))
    by (by apply on_order_book_Ok with ob).
  destruct (pop_best_sell_spec ob1) as (ob2 & Hpop2 & Ht2 & Hb2 & Hs2 & Hsd2 & Hh2).
  assert (OrderBook.get_best_sell ob1 = OrderBook.get_best_sell ob) as Hsame
    by (by rewrite !get_best_sell_head, Hs1).
  rewrite Hsame in Hpop2.
  rewrite (bind_Ok _ _ _ (OrderBook.get_best_sell ob)
             (TradingEngine.put_order_book index ob2 e)); cycle 1.
  { rewrite <-(put_order_book_twice index ob1 ob2 e).
    apply on_order_book_Ok with ob1; [|done]. by apply put_order_book_lookup. }
  set (e2 := TradingEngine.put_order_book index ob2 e).
  assert (TradingEngine.order_books e2 !! index = Some ob2) as Hob2
    by (by apply put_order_book_lookup).
  assert (OrderBook.buy_orders ob2 ≡ₚ tail (OrderBook.buy_orders ob)) as HB
    by (by rewrite Hb2).
  assert (OrderBook.sell_orders ob2 ≡ₚ tail (OrderBook.sell_orders ob)) as HS
    by (by rewrite Hs2, Hs1).
  (* the way out when nothing crosses *)
  assert ((∀ b s, ¬ crosses ob b s) →
    ∃ ob',
      OrderBook.ticker_symbol ob' = OrderBook.ticker_symbol ob
      ∧ (sided ob → sided ob')
      ∧ (heap_book ob → heap_book ob')
      ∧ TradingEngine.put_back index (OrderBook.get_best_buy ob)
          (OrderBook.get_best_sell ob) e2
        = (Ok false, TradingEngine.put_order_book index ob' e)
      ∧ resting ob' ≡ₚ resting ob
      ∧ (sided ob →
         OrderBook.buy_orders ob' ≡ₚ OrderBook.buy_orders ob
         ∧ OrderBook.sell_orders ob' ≡ₚ OrderBook.sell_orders ob)) as Hback.
  { intros _.
    destruct (put_back_spec index e2 ob2 (OrderBook.get_best_buy ob)
      (OrderBook.get_best_sell ob) Hob2)
      as (ob' & Hrun & Ht & Hr & Hsd & Hh & Hside).
    unfold e2 in Hrun at 2. rewrite put_order_book_twice in Hrun.
    exists ob'. split_and!; [congruence|auto| |done|..].
    - intros Hheap. destruct (heap_book_best_priced ob Hheap) as [Hpb Hps].
      apply Hh; auto.
    - rewrite Hr. unfold resting. rewrite HB, HS.
      rewrite get_best_buy_head, get_best_sell_head.
      rewrite <-(head_tail (OrderBook.buy_orders ob)) at 3.
      rewrite <-(head_tail (OrderBook.sell_orders ob)) at 3.
      rewrite <-!(assoc_L (++)). apply Permutation_app_head.
      rewrite !(assoc_L (++)). apply Permutation_app_tail.
      apply Permutation_app_comm.
    - intros [Hsb Hss]. destruct Hside as [Hb' Hs'].
      + intros b Hb. rewrite get_best_buy_head in Hb.
        destruct (OrderBook.buy_orders ob); simplify_eq/=.
        by apply Forall_cons in Hsb as [? _].
      + intros s Hs. rewrite get_best_sell_head in Hs.
        destruct (OrderBook.sell_orders ob); simplify_eq/=.
        by apply Forall_cons in Hss as [? _].
      + rewrite Hb', Hs', HB, HS, get_best_buy_head, get_best_sell_head.
        by rewrite !head_tail. }
  destruct (OrderBook.get_best_buy ob) as [b|] eqn:Hbb; cycle 1.
  { destruct Hback as (ob' & ? & ? & ? & Hrun & ? & ?).
    { intros b s (? & _). congruence. }
    exists ob'. split_and!; [done..|]. right.
    split_and!; [intros b s (? & _); congruence| |done..].
    by destruct (OrderBook.get_best_sell ob). }
  destruct (OrderBook.get_best_sell ob) as [s|] eqn:Hbs; cycle 1.
  { destruct Hback as (ob' & ? & ? & ? & Hrun & ? & ?).
    { intros b' s (_ & ? & _). congruence. }
    exists ob'. split_and!; [done..|]. right.
    split_and!; [intros b' s (_ & ? & _); congruence|done..]. }
  destruct (number.ge (Order.price b) (Order.price s)) eqn:Hprice; cycle 1.
  { destruct Hback as (ob' & ? & ? & ? & Hrun & ? & ?).
    { intros b' s' (? & ? & ?). simplify_eq. congruence. }
    exists ob'. split_and!; [done..|]. right.
    split_and!; [intros b' s' (? & ? & ?); simplify_eq; congruence|done..]. }
  clear Hback.
  (* the best bid and the best ask cross *)
  set (m := MatchedOrders.__init__ now b s).
  rewrite (bind_Ok _ _ e2 tt (TradingEngine.set_matches e2
             (TradingEngine.matches e ++ [m]))) by done.
  set (e3 := TradingEngine.set_matches e2 (TradingEngine.matches e ++ [m])).
  assert (TradingEngine.order_books e3 !! index = Some ob2) as Hob3 by done.
  assert (∀ ob', TradingEngine.put_order_book index ob' e3
    = TradingEngine.mk (TradingEngine.size e)
        (<[index:=ob']> (TradingEngine.order_books e))
        (TradingEngine.trade_locks e) (TradingEngine.matches e ++ [m])) as Hput.
  { intros ob'. unfold e3, e2, TradingEngine.put_order_book,
      TradingEngine.set_order_books, TradingEngine.set_matches. simpl.
    by rewrite list_insert_insert_eq. }
  assert (crosses ob b s) as Hcross by (by split_and!).
  assert (heap_book ob → priced b ∧ priced s) as Hpriced.
  { intros Hheap. destruct (heap_book_best_priced ob Hheap) as [Hpb Hps].
    split; auto. }
  destruct (number.gt (Order.quantity b) (Order.quantity s)) eqn:Hgt.
  { set (o := Order.set_quantity b
                (number.sub (Order.quantity b) (Order.quantity s))).
    destruct (add_order_at index e3 ob2 o Hob3) as (ob' & Hrun & Hadd).
    destruct (add_order_spec ob2 o) as (? & Hadd' & Ht & Hw & Hsd & Hh).
    rewrite Hadd in Hadd'. injection Hadd' as <-.
    rewrite (bind_Ok _ _ _ _ _ Hrun), Hput.
    exists ob'. split_and!; [congruence|auto| |].
    { intros Hheap. apply Hh; [auto|]. by destruct (Hpriced Hheap). }
    left.
    exists b, s. split_and!; [done|done|]. unfold settled. rewrite Hgt.
    exact (holds_with_perm _ _ _ _ _ _ HB HS Hw). }
  destruct (number.lt (Order.quantity b) (Order.quantity s)) eqn:Hlt.
  { set (o := Order.set_quantity s
                (number.sub (Order.quantity s) (Order.quantity b))).
    destruct (add_order_at index e3 ob2 o Hob3) as (ob' & Hrun & Hadd).
    destruct (add_order_spec ob2 o) as (? & Hadd' & Ht & Hw & Hsd & Hh).
    rewrite Hadd in Hadd'. injection Hadd' as <-.
    rewrite (bind_Ok _ _ _ _ _ Hrun), Hput.
    exists ob'. split_and!; [congruence|auto| |].
    { intros Hheap. apply Hh; [auto|]. by destruct (Hpriced Hheap). }
    left.
    exists b, s. split_and!; [done|done|]. unfold settled. rewrite Hgt, Hlt.
    exact (holds_with_perm _ _ _ _ _ _ HB HS Hw). }
  rewrite (bind_Ok _ _ e3 tt e3) by done.
  exists ob2. split_and!; [congruence|auto|auto|]. left.
  exists b, s. split_and!; [done| |by unfold settled; rewrite Hgt, Hlt].
  reflexivity.
Qed.

(** ** Slot resolution *)

Lemma claim_spec index ticker e ob lk :
  TradingEngine.order_books e !! index = Some ob →
  TradingEngine.trade_locks e !! index = Some lk →
  TradingEngine.claim index ticker e = (Ok (Some index), claimed index ticker ob e).
Proof.
  intros Hob Hlk. unfold TradingEngine.claim.
  rewrite (bind_Ok _ _ e tt
    (TradingEngine.put_order_book index (OrderBook.set_ticker_symbol ob ticker) e)).
  2:{ unfold TradingEngine.set_ticker_symbol. by apply on_order_book_Ok with ob. }
  set (e1 := TradingEngine.put_order_book index _ e).
  rewrite (bind_Ok _ _ e1 lk e1).
  2:{ unfold TradingEngine.get_trade_lock.
      change (TradingEngine.trade_locks e1) with (TradingEngine.trade_locks e).
      by rewrite (getitem_Ok _ _ _ Hlk). }
  assert (index < length (TradingEngine.trade_locks e)) as Hlen
    by (by eapply lookup_lt_Some).
  destruct lk as [[]|].
  - rewrite (bind_Ok _ _ e1 tt e1) by done.
    unfold mret, TradingEngine.M_ret, TradingEngine.ret, claimed. f_equal.
    unfold e1, TradingEngine.put_order_book, TradingEngine.set_order_books.
    simpl. by rewrite (list_insert_id _ _ _ Hlk).
  - rewrite (bind_Ok _ _ e1 tt
      (TradingEngine.set_trade_locks e1
         (<[index:=Some RLock_new]> (TradingEngine.trade_locks e)))).
    2:{ unfold TradingEngine.set_trade_lock. simpl. by rewrite setitem_Ok. }
    reflexivity.
Qed.

(** The [for] loop of [ticker_to_index] on engines whose arrays have [sz]
    entries: either no probed slot is free or of the ticker, and nothing
    changes, or the first such slot is claimed. *)
Lemma probe_spec sz range index ticker e :
  0 < sz →
  length (TradingEngine.order_books e) = sz →
  length (TradingEngine.trade_locks e) = sz →
  (TradingEngine.probe sz range index ticker e = (Ok None, e)
   ∧ ∀ i ob, i ∈ range →
       TradingEngine.order_books e !! ((index + i) `mod` sz) = Some ob →
       TradingEngine.free_or_same ob ticker = false)
  ∨ (∃ i ob, i ∈ range
       ∧ TradingEngine.order_books e !! ((index + i) `mod` sz) = Some ob
       ∧ TradingEngine.free_or_same ob ticker = true
       ∧ TradingEngine.probe sz range index ticker e
         = (Ok (Some ((index + i) `mod` sz)),
            claimed ((index + i) `mod` sz) ticker ob e)).
Proof.
  intros Hsz Hbooks Hlocks. induction range as [|i range IH].
  { left. split; [done|]. intros i ob Hi. by apply elem_of_nil in Hi. }
  cbn [TradingEngine.probe].
  assert ((index + i) `mod` sz < sz) as Hj by (apply Nat.mod_upper_bound; lia).
  destruct (lookup_lt_is_Some_2 (TradingEngine.order_books e)
    ((index + i) `mod` sz)) as [ob Hob]; [lia|].
  destruct (lookup_lt_is_Some_2 (TradingEngine.trade_locks e)
    ((index + i) `mod` sz)) as [lk Hlk]; [lia|].
  rewrite (bind_Ok _ _ e ob e)
    by (unfold TradingEngine.get_order_book; by rewrite (getitem_Ok _ _ _ Hob)).
  destruct (TradingEngine.free_or_same ob ticker) eqn:Htest.
  - right. exists i, ob. split_and!; [by left|done|done|].
    by apply claim_spec with lk.
  - destruct IH as [[Hrun Hall]|(i' & ob' & Hi' & ? & ? & Hrun)].
    + left. split; [done|]. intros i' ob' [->|Hi']%elem_of_cons Hob'.
      * congruence.
      * by apply (Hall i').
    + right. exists i', ob'. split_and!; [by right|done..].
Qed.

Section ticker_to_index_facts.
Variable hash : string → Z.

Lemma home_lt ticker e : 0 < TradingEngine.size e → home hash ticker e < TradingEngine.size e.
Proof. unfold home. lia. Qed.

(** The slot at which the probe starts is taken if it is free or of the
    ticker. *)
Lemma ticker_to_index_home ticker e ob lk :
  0 < TradingEngine.size e →
  TradingEngine.order_books e !! home hash ticker e = Some ob →
  TradingEngine.trade_locks e !! home hash ticker e = Some lk →
  TradingEngine.free_or_same ob ticker = true →
  TradingEngine.ticker_to_index hash ticker e
  = (Ok (Some (home hash ticker e)), claimed (home hash ticker e) ticker ob e).
Proof.
  intros Hsz Hob Hlk Htest. unfold TradingEngine.ticker_to_index.
  destruct (TradingEngine.size e) as [|n] eqn:Esz; [lia|].
  unfold home in Hob, Hlk. rewrite Esz in Hob, Hlk.
  rewrite (bind_Ok _ _ e ob e)
    by (unfold TradingEngine.get_order_book; by rewrite (getitem_Ok _ _ _ Hob)).
  rewrite Htest. unfold home. rewrite Esz. by apply claim_spec with lk.
Qed.

(** Every slot is probed. *)
Lemma probe_covers sz index j :
  index < sz → j < sz → ∃ i, i ∈ seq 0 sz ∧ (index + i) `mod` sz = j.
Proof.
  intros Hi Hj. destruct (decide (index ≤ j)).
  - exists (j - index). split; [apply elem_of_seq; lia|].
    replace (index + (j - index)) with j by lia. by apply Nat.mod_small.
  - exists (j + sz - index). split; [apply elem_of_seq; lia|].
    replace (index + (j + sz - index)) with (j + 1 * sz) by lia.
    rewrite Nat.Div0.mod_add. by apply Nat.mod_small.
Qed.

(** Slot resolution on an engine with arrays of the right size: either no slot is free or of
    the ticker, the answer is [None] and nothing changes, or a slot that is
    free or of the ticker is claimed. *)
Lemma ticker_to_index_spec ticker e :
  sized e →
  (TradingEngine.ticker_to_index hash ticker e = (Ok None, e)
   ∧ ∀ j ob, TradingEngine.order_books e !! j = Some ob →
       TradingEngine.free_or_same ob ticker = false)
  ∨ (∃ j ob, TradingEngine.order_books e !! j = Some ob
       ∧ TradingEngine.free_or_same ob ticker = true
       ∧ TradingEngine.ticker_to_index hash ticker e
         = (Ok (Some j), claimed j ticker ob e)).
Proof.
  intros (Hsz & Hbooks & Hlocks).
  pose proof (home_lt ticker e Hsz) as Hhome.
  destruct (lookup_lt_is_Some_2 (TradingEngine.order_books e) (home hash ticker e))
    as [ob Hob]; [lia|].
  destruct (lookup_lt_is_Some_2 (TradingEngine.trade_locks e) (home hash ticker e))
    as [lk Hlk]; [lia|].
  destruct (TradingEngine.free_or_same ob ticker) eqn:Htest.
  { right. exists (home hash ticker e), ob. split_and!; [done..|].
    by apply ticker_to_index_home with lk. }
  unfold TradingEngine.ticker_to_index.
  destruct (TradingEngine.size e) as [|n] eqn:Esz; [lia|].
  unfold home in Hob, Hhome. rewrite Esz in Hob, Hhome.
  rewrite (bind_Ok _ _ e ob e)
    by (unfold TradingEngine.get_order_book; by rewrite (getitem_Ok _ _ _ Hob)).
  rewrite Htest.
  destruct (probe_spec (S n) (seq 0 (S n))
    (Z.to_nat (hash ticker `mod` Z.of_nat (S n))%Z) ticker e)
    as [[Hrun Hall]|(i & ob' & _ & ? & ? & Hrun)]; [lia|done..| |].
  - left. split; [done|]. intros j ob' Hj.
    destruct (probe_covers (S n)
      (Z.to_nat (hash ticker `mod` Z.of_nat (S n))%Z) j) as (i & Hi & Hij);
      [done|apply lookup_lt_Some in Hj; lia|].
    apply (Hall i); [done|]. by rewrite Hij.
  - right. eauto 10.
Qed.
End ticker_to_index_facts.

(** ** The claims on one matching pass *)

Lemma no_cross_iff ob : no_cross ob ↔ ∀ b s, ¬ crosses ob b s.
Proof.
  unfold no_cross, crosses. split.
  - intros [H|[H|(b & s & Hb & Hs & Hlt)]] b' s' (Hb' & Hs' & Hle);
      [congruence..|]. simplify_eq. congruence.
  - intros H. destruct (OrderBook.get_best_buy ob) as [b|]; [|by left].
    destruct (OrderBook.get_best_sell ob) as [s|]; [|by right; left].
    right; right. exists b, s. split_and!; [done..|].
    destruct (number.ge (Order.price b) (Order.price s)) eqn:Hge; [|done].
    by destruct (H b s).
Qed.

Lemma crosses_inj ob b s b' s' : crosses ob b s → crosses ob b' s' → b' = b ∧ s' = s.
Proof. intros (? & ? & _) (? & ? & _). split; congruence. Qed.

(** C1: in one pass of the matching loop on a slot, whatever the book of
    the slot holds, a trade is appended to the ledger if and only if there
    are a best bid and a best ask and the price of the best bid is at least
    the price of the best ask ([>=], which no NaN satisfies); a trade that is
    appended carries the price of that ask. *)
Theorem C1_crossing_correctness now index e ob lk :
  TradingEngine.order_books e !! index = Some ob →
  TradingEngine.trade_locks e !! index = Some (Some lk) →
  ∃ matched e',
    TradingEngine.match_pass now index e = (Ok matched, e')
    ∧ ((∃ t, TradingEngine.matches e' = TradingEngine.matches e ++ [t])
       ↔ ∃ b s, OrderBook.get_best_buy ob = Some b
           ∧ OrderBook.get_best_sell ob = Some s
           ∧ number.ge (Order.price b) (Order.price s) = true)
    ∧ (TradingEngine.matches e' = TradingEngine.matches e
       ∨ ∃ t, TradingEngine.matches e' = TradingEngine.matches e ++ [t])
    ∧ ∀ t, TradingEngine.matches e' = TradingEngine.matches e ++ [t] →
        ∃ b s, OrderBook.get_best_buy ob = Some b
          ∧ OrderBook.get_best_sell ob = Some s
          ∧ MatchedOrders.price t = Order.price s
          ∧ MatchedOrders.buy_order_id t = Order.order_id b
          ∧ MatchedOrders.sell_order_id t = Order.order_id s.
Proof.
  intros Hob Hlk.
  destruct (match_pass_spec now index e ob lk Hob Hlk)
    as (ob' & _ & _ & _ & [(b & s & Hcross & Hrun & _)|(Hno & Hrun & _)]).
  - eexists _, _. split; [exact Hrun|]. simpl. split_and!.
    + split; [intros _; by exists b, s|eauto].
    + eauto.
    + intros t Ht%(inj (app _)). injection Ht as <-.
      destruct Hcross as (? & ? & _). by exists b, s.
  - eexists _, _. split; [exact Hrun|]. simpl. split_and!.
    + split.
      * intros [t Ht]. apply (f_equal length) in Ht.
        rewrite length_app in Ht. simpl in Ht. lia.
      * intros (b & s & Hc). by destruct (Hno b s).
    + by left.
    + intros t Ht. apply (f_equal length) in Ht.
      rewrite length_app in Ht. simpl in Ht. lia.
Qed.

Lemma C1_crossing_correctness_witness :
  TradingEngine.order_books demo_bid_ask !! 1
  = Some (OrderBook.mk (Some "X") [demo_buy] [demo_sell])
  ∧ TradingEngine.trade_locks demo_bid_ask !! 1 = Some (Some RLock_new)
  ∧ ∃ matched e',
      TradingEngine.match_pass 3 1 demo_bid_ask = (Ok matched, e')
      ∧ ((∃ t, TradingEngine.matches e' = TradingEngine.matches demo_bid_ask ++ [t])
         ↔ ∃ b s, Some demo_buy = Some b ∧ Some demo_sell = Some s
             ∧ number.ge (Order.price b) (Order.price s) = true)
      ∧ (TradingEngine.matches e' = TradingEngine.matches demo_bid_ask
         ∨ ∃ t, TradingEngine.matches e' = TradingEngine.matches demo_bid_ask ++ [t])
      ∧ ∀ t, TradingEngine.matches e' = TradingEngine.matches demo_bid_ask ++ [t] →
          ∃ b s, Some demo_buy = Some b ∧ Some demo_sell = Some s
            ∧ MatchedOrders.price t = Order.price s
            ∧ MatchedOrders.buy_order_id t = Order.order_id b
            ∧ MatchedOrders.sell_order_id t = Order.order_id s.
Proof.
  split; [vm_compute; reflexivity|]. split; [vm_compute; reflexivity|].
  apply (C1_crossing_correctness 3 1 demo_bid_ask
           (OrderBook.mk (Some "X") [demo_buy] [demo_sell]) RLock_new);
    vm_compute; reflexivity.
Defined.



(** C7: when a pass on a slot finds no cross (a side is empty, or the best
    bid is below the best ask, or one of the two prices is NaN, so that [>=]
    does not hold), what was popped goes back as it was: the
    book holds the same orders as before, on each side if bids are buy orders
    and asks are sell orders, nothing else in the engine changes, and the
    loop stops after this pass. *)
Theorem C7_no_cross_restores now index e ob lk :
  TradingEngine.order_books e !! index = Some ob →
  TradingEngine.trade_locks e !! index = Some (Some lk) →
  no_cross ob →
  ∃ ob',
    TradingEngine.match_pass now index e
    = (Ok false, TradingEngine.put_order_book index ob' e)
    ∧ OrderBook.ticker_symbol ob' = OrderBook.ticker_symbol ob
    ∧ resting ob' ≡ₚ resting ob
    ∧ (sided ob →
       OrderBook.buy_orders ob' ≡ₚ OrderBook.buy_orders ob
       ∧ OrderBook.sell_orders ob' ≡ₚ OrderBook.sell_orders ob)
    ∧ ∀ clock fuel k, clock k = now →
        TradingEngine.match_loop clock (S fuel) k index e
        = (Ok tt, TradingEngine.put_order_book index ob' e).
Proof.
  intros Hob Hlk Hno. pose proof (proj1 (no_cross_iff ob) Hno) as Hnone.
  destruct (match_pass_spec now index e ob lk Hob Hlk)
    as (ob' & Ht & _ & _ & [(b & s & Hcross & _)|(_ & Hrun & Hr & Hside)]).
  { by destruct (Hnone b s). }
  exists ob'. split_and!; [done..|].
  intros clock fuel k <-. cbn [TradingEngine.match_loop].
  by rewrite (bind_Ok _ _ _ _ _ Hrun).
Qed.

Lemma C7_no_cross_restores_witness :
  no_cross (OrderBook.mk (Some "X") [demo_buy] [])
  ∧ ∃ ob',
      TradingEngine.match_pass 3 1 demo_bid_only
      = (Ok false, TradingEngine.put_order_book 1 ob' demo_bid_only)
      ∧ OrderBook.ticker_symbol ob' = Some "X"
      ∧ resting ob' ≡ₚ [demo_buy]
      ∧ (sided (OrderBook.mk (Some "X") [demo_buy] []) →
         OrderBook.buy_orders ob' ≡ₚ [demo_buy]
         ∧ OrderBook.sell_orders ob' ≡ₚ [])
      ∧ ∀ clock fuel k, clock k = 3%Z →
          TradingEngine.match_loop clock (S fuel) k 1 demo_bid_only
          = (Ok tt, TradingEngine.put_order_book 1 ob' demo_bid_only).
Proof.
  assert (no_cross (OrderBook.mk (Some "X") [demo_buy] [])) as Hno
    by (right; left; reflexivity).
  split; [exact Hno|].
  apply (C7_no_cross_restores 3 1 demo_bid_only
           (OrderBook.mk (Some "X") [demo_buy] []) RLock_new);
    [vm_compute; reflexivity..|exact Hno].
Defined.

(** A bid at 10 and an ask at 20 for one ticker: no trade. *)
Example no_spurious_match :
  let e1 := (TradingEngine.addOrder demo_hash 1 11%N BUY "X" 5 10
               TradingEngine.__init__).2 in
  let e2 := (TradingEngine.addOrder demo_hash 2 12%N SELL "X" 5 20 e1).2 in
  let r := TradingEngine.match_orders_by_index (λ k, Z.of_nat k) 1 1 e2 in
  r.1 = Ok tt ∧ TradingEngine.matches r.2 = []
  ∧ TradingEngine.order_books r.2 = TradingEngine.order_books e2.
Proof. vm_compute. by split_and!. Qed.

(** ** Termination of the matching loop *)

Lemma resting_count_lookup e index ob :
  TradingEngine.order_books e !! index = Some ob →
  resting_count e index = length (resting ob).
Proof. unfold resting_count. by intros ->. Qed.

(** A pass that matches finds an order on each side and leaves fewer orders
    in the slot; the slot keeps its book and its lock. *)
Lemma match_pass_matched now index e ob lk e1 :
  TradingEngine.order_books e !! index = Some ob →
  TradingEngine.trade_locks e !! index = Some (Some lk) →
  TradingEngine.match_pass now index e = (Ok true, e1) →
  ∃ ob1,
    TradingEngine.order_books e1 !! index = Some ob1
    ∧ TradingEngine.trade_locks e1 !! index = Some (Some lk)
    ∧ 2 ≤ length (resting ob)
    ∧ length (resting ob1) < length (resting ob).
Proof.
  intros Hob Hlk Hrun.
  destruct (match_pass_spec now index e ob lk Hob Hlk)
    as (ob' & _ & _ & _ & [(b & s & Hcross & Hrun' & Hset)|(_ & Hrun' & _)]);
    rewrite Hrun in Hrun'; [|done].
  injection Hrun' as ->. exists ob'. simpl.
  split; [apply list_lookup_insert_eq; by eapply lookup_lt_Some|].
  split; [done|].
  destruct Hcross as (Hb & Hs & _).
  rewrite get_best_buy_head in Hb. rewrite get_best_sell_head in Hs.
  assert (length (resting ob)
          = 2 + length (tail (OrderBook.buy_orders ob)
                        ++ tail (OrderBook.sell_orders ob))) as ->.
  { unfold resting. rewrite !length_app.
    destruct (OrderBook.buy_orders ob), (OrderBook.sell_orders ob);
      simplify_eq/=. lia. }
  split; [lia|]. unfold settled in Hset.
  destruct (number.gt (Order.quantity b) (Order.quantity s)).
  { apply holds_with_resting in Hset. rewrite Hset. simpl. lia. }
  destruct (number.lt (Order.quantity b) (Order.quantity s)).
  { apply holds_with_resting in Hset. rewrite Hset. simpl. lia. }
  destruct Hset as [HB HS]. unfold resting at 1.
  rewrite !length_app, HB, HS. lia.
Qed.

Lemma match_pass_unmatched now index e ob lk :
  TradingEngine.order_books e !! index = Some ob →
  TradingEngine.trade_locks e !! index = Some (Some lk) →
  ∃ matched e', TradingEngine.match_pass now index e = (Ok matched, e').
Proof.
  intros Hob Hlk.
  destruct (match_pass_spec now index e ob lk Hob Hlk)
    as (ob' & _ & _ & _ & [(b & s & _ & Hrun & _)|(_ & Hrun & _)]); eauto.
Qed.

Lemma match_loop_terminates clock index lk n :
  ∀ k e ob,
    TradingEngine.order_books e !! index = Some ob →
    TradingEngine.trade_locks e !! index = Some (Some lk) →
    length (resting ob) ≤ n →
    ∃ m e',
      loop_run clock index k m e e'
      ∧ m + 1 ≤ Nat.max 1 n
      ∧ ∀ fuel, m < fuel →
          TradingEngine.match_loop clock fuel k index e = (Ok tt, e').
Proof.
  induction n as [|n IH]; intros k e ob Hob Hlk Hn.
  - destruct (match_pass_unmatched (clock k) index e ob lk Hob Hlk)
      as ([] & e' & Hrun).
    { destruct (match_pass_matched _ _ _ _ _ _ Hob Hlk Hrun) as (? & _ & _ & ? & _).
      lia. }
    exists 0, e'. split; [by constructor|]. split; [simpl; lia|].
    intros [|fuel] ?; [lia|]. cbn [TradingEngine.match_loop].
    by rewrite (bind_Ok _ _ _ _ _ Hrun).
  - destruct (match_pass_unmatched (clock k) index e ob lk Hob Hlk)
      as ([] & e1 & Hrun).
    + destruct (match_pass_matched _ _ _ _ _ _ Hob Hlk Hrun)
        as (ob1 & Hob1 & Hlk1 & Htwo & Hless).
      destruct (IH (S k) e1 ob1 Hob1 Hlk1) as (m & e' & Hloop & Hm & Hfuel);
        [lia|].
      exists (S m), e'. split; [by econstructor|]. split; [lia|].
      intros [|fuel] ?; [lia|]. cbn [TradingEngine.match_loop].
      rewrite (bind_Ok _ _ _ _ _ Hrun). apply Hfuel. lia.
    + exists 0, e1. split; [by constructor|]. split; [lia|].
      intros [|fuel] ?; [lia|]. cbn [TradingEngine.match_loop].
      by rewrite (bind_Ok _ _ _ _ _ Hrun).
Qed.

(** C9, as amended: the matching loop of a slot terminates.  Every pass
    that records a trade leaves strictly fewer orders resting in the slot;
    the loop makes [n] matching passes and a last one that does not match,
    and these [n + 1] passes are at most as many as the orders resting at
    the start, or one when the book is empty: the last pass is always made.
    With more than [n] units of fuel the model of the loop returns. *)
Theorem C9_matching_terminates clock index e ob lk :
  TradingEngine.order_books e !! index = Some ob →
  TradingEngine.trade_locks e !! index = Some (Some lk) →
  (∀ now e1, TradingEngine.match_pass now index e = (Ok true, e1) →
     resting_count e1 index < resting_count e index)
  ∧ ∃ n e',
      loop_run clock index 0 n e e'
      ∧ n + 1 ≤ Nat.max 1 (resting_count e index)
      ∧ ∀ fuel, n < fuel →
          TradingEngine.match_loop clock fuel 0 index e = (Ok tt, e')
          ∧ TradingEngine.match_orders_by_index clock fuel index e
            = (Ok tt, match OrderBook.ticker_symbol ob with
                      | Some _ => e'
                      | None => e
                      end).
Proof.
  intros Hob Hlk. rewrite (resting_count_lookup e index ob Hob). split.
  - intros now e1 Hrun.
    destruct (match_pass_matched _ _ _ _ _ _ Hob Hlk Hrun) as (ob1 & Hob1 & _ & _ & ?).
    by rewrite (resting_count_lookup e1 index ob1 Hob1).
  - destruct (match_loop_terminates clock index lk (length (resting ob)) 0 e ob)
      as (n & e' & Hloop & Hn & Hfuel); [done..|].
    exists n, e'. split_and!; [done|lia|].
    intros fuel Hlt. split; [by apply Hfuel|].
    unfold TradingEngine.match_orders_by_index.
    rewrite (bind_Ok _ _ e ob e)
      by (unfold TradingEngine.get_order_book; by rewrite (getitem_Ok _ _ _ Hob)).
    destruct (OrderBook.ticker_symbol ob); [by apply Hfuel|done].
Qed.

Lemma C9_matching_terminates_witness :
  (∀ now e1, TradingEngine.match_pass now 1 demo_bid_ask = (Ok true, e1) →
     resting_count e1 1 < resting_count demo_bid_ask 1)
  ∧ ∃ n e',
      loop_run (λ k, Z.of_nat k) 1 0 n demo_bid_ask e'
      ∧ n + 1 ≤ Nat.max 1 (resting_count demo_bid_ask 1)
      ∧ ∀ fuel, n < fuel →
          TradingEngine.match_loop (λ k, Z.of_nat k) fuel 0 1 demo_bid_ask
          = (Ok tt, e')
          ∧ TradingEngine.match_orders_by_index (λ k, Z.of_nat k) fuel 1 demo_bid_ask
            = (Ok tt, match Some "X" with
                        | Some _ => e'
                        | None => demo_bid_ask
                        end).
Proof.
  apply (C9_matching_terminates (λ k, Z.of_nat k) 1 demo_bid_ask
           (OrderBook.mk (Some "X") [demo_buy] [demo_sell]) RLock_new);
    vm_compute; reflexivity.
Defined.

(** C9, as stated, fails on a slot that has a ticker and an empty book
    (here: a bid and an ask of equal quantity have been matched).  No order
    rests, and the loop makes one pass all the same: with as many passes as
    there are resting orders it has not ended, and no run of the loop has
    as few passes as there are resting orders. *)
Lemma C9_empty_book_counterexample :
  resting_count demo_drained 1 = 0
  ∧ (∃ ob, TradingEngine.order_books demo_drained !! 1 = Some ob
       ∧ OrderBook.ticker_symbol ob = Some "X")
  ∧ loop_run (λ k, Z.of_nat k) 1 0 0 demo_drained demo_drained
  ∧ TradingEngine.match_loop (λ k, Z.of_nat k) (resting_count demo_drained 1) 0 1
      demo_drained = (OutOfFuel, demo_drained)
  ∧ TradingEngine.match_loop (λ k, Z.of_nat k) 1 0 1 demo_drained
    = (Ok tt, demo_drained)
  ∧ ¬ ∃ n e', loop_run (λ k, Z.of_nat k) 1 0 n demo_drained e'
        ∧ n + 1 ≤ resting_count demo_drained 1.
Proof.
  split_and!.
  - reflexivity.
  - eexists. split; reflexivity.
  - constructor. vm_compute. reflexivity.
  - reflexivity.
  - vm_compute. reflexivity.
  - intros (n & e' & _ & Hn). change (resting_count demo_drained 1) with 0 in Hn.
    lia.
Qed.

(** ** Price-time priority *)

Lemma add_orders_spec ob orders :
  heap_book ob → Forall priced orders →
  ∃ ob', add_orders ob orders = Ok ob'
    ∧ heap_book ob'
    ∧ (Forall is_buy orders →
       OrderBook.buy_orders ob' ≡ₚ orders ++ OrderBook.buy_orders ob
       ∧ OrderBook.sell_orders ob' ≡ₚ OrderBook.sell_orders ob)
    ∧ (Forall is_sell orders →
       OrderBook.buy_orders ob' ≡ₚ OrderBook.buy_orders ob
       ∧ OrderBook.sell_orders ob' ≡ₚ orders ++ OrderBook.sell_orders ob).
Proof.
  revert ob. induction orders as [|o orders IH]; intros ob Hheap Hpriced.
  { exists ob. by split_and!. }
  apply Forall_cons in Hpriced as [Hpo Hpriced].
  destruct (add_order_spec ob o) as (ob1 & Hadd & _ & Hw & _ & Hh1).
  destruct (IH ob1 (Hh1 Hheap Hpo) Hpriced) as (ob' & Hrun & Hh' & Hbuy & Hsell).
  exists ob'. cbn [add_orders]. rewrite Hadd. cbn [mbind result_bind].
  split_and!; [done|done|..].
  - intros [Ho Hos]%Forall_cons. destruct (Hbuy Hos) as [-> ->].
    apply holds_with_buy in Hw as [-> ->]; [|done].
    split; [|done]. by rewrite <-Permutation_middle.
  - intros [Ho Hos]%Forall_cons. destruct (Hsell Hos) as [-> ->].
    apply holds_with_sell in Hw as [-> ->]; [|done].
    split; [done|]. by rewrite <-Permutation_middle.
Qed.

(** Price-time priority, for prices that are numbers: after any sequence of
    buy orders has been pushed into a book, the best bid that [get_best_buy]
    returns is a resting bid of the highest price and, among the bids of
    that price, of the earliest timestamp; it is [None] only if no bid
    rests.  After any sequence of sell orders, [get_best_sell] returns a
    resting ask of the lowest price and, among the asks of that price, of
    the earliest timestamp. *)
Lemma price_time_priority_priced ob bids asks :
  heap_book ob →
  Forall priced_buy bids → Forall priced_sell asks →
  (∃ ob', add_orders ob bids = Ok ob'
     ∧ OrderBook.buy_orders ob' ≡ₚ bids ++ OrderBook.buy_orders ob
     ∧ match OrderBook.get_best_buy ob' with
       | Some top =>
           top ∈ OrderBook.buy_orders ob'
           ∧ ∀ o, o ∈ OrderBook.buy_orders ob' → buy_priority top o
       | None => OrderBook.buy_orders ob' = []
       end)
  ∧ (∃ ob', add_orders ob asks = Ok ob'
       ∧ OrderBook.sell_orders ob' ≡ₚ asks ++ OrderBook.sell_orders ob
       ∧ match OrderBook.get_best_sell ob' with
         | Some top =>
             top ∈ OrderBook.sell_orders ob'
             ∧ ∀ o, o ∈ OrderBook.sell_orders ob' → sell_priority top o
         | None => OrderBook.sell_orders ob' = []
         end).
Proof.
  intros Hheap Hbids Hasks.
  assert (Forall is_buy bids ∧ Forall priced bids) as [Hib Hpb].
  { split; (eapply Forall_impl; [exact Hbids|]); by intros o [? ?]. }
  assert (Forall is_sell asks ∧ Forall priced asks) as [His Hps].
  { split; (eapply Forall_impl; [exact Hasks|]); by intros o [? ?]. }
  split.
  - destruct (add_orders_spec ob bids Hheap Hpb) as (ob' & Hrun & Hh' & Hbuy & _).
    exists ob'. split; [done|]. split; [by apply Hbuy|].
    destruct (OrderBook.get_best_buy ob') as [top|] eqn:Htop.
    + by apply heap_book_best_buy.
    + rewrite get_best_buy_head in Htop. by destruct (OrderBook.buy_orders ob').
  - destruct (add_orders_spec ob asks Hheap Hps) as (ob' & Hrun & Hh' & _ & Hsell).
    exists ob'. split; [done|]. split; [by apply Hsell|].
    destruct (OrderBook.get_best_sell ob') as [top|] eqn:Htop.
    + by apply heap_book_best_sell.
    + rewrite get_best_sell_head in Htop. by destruct (OrderBook.sell_orders ob').
Qed.

Example demo_bids_best :
  (ob ← add_orders OrderBook.__init__ demo_bids; Ok (OrderBook.get_best_buy ob))
  = Ok (Some (Order.mk BUY "X" 52 10 2 3%N)).
Proof. reflexivity. Qed.

Example demo_asks_best :
  (ob ← add_orders OrderBook.__init__ demo_asks; Ok (OrderBook.get_best_sell ob))
  = Ok (Some (Order.mk SELL "X" 48 10 2 6%N)).
Proof. reflexivity. Qed.

(** ** Submission *)

Lemma claim_inv index ticker e r e1 :
  TradingEngine.claim index ticker e = (Ok r, e1) →
  ∃ ob lk,
    TradingEngine.order_books e !! index = Some ob
    ∧ TradingEngine.trade_locks e !! index = Some lk
    ∧ r = Some index
    ∧ e1 = claimed index ticker ob e.
Proof.
  intros Hrun.
  destruct (TradingEngine.order_books e !! index) as [ob|] eqn:Hob; cycle 1.
  { unfold TradingEngine.claim in Hrun.
    rewrite (bind_Raise _ _ e IndexError e) in Hrun; [done|].
    by apply on_order_book_IndexError. }
  destruct (TradingEngine.trade_locks e !! index) as [lk|] eqn:Hlk; cycle 1.
  { unfold TradingEngine.claim in Hrun.
    rewrite (bind_Ok _ _ e tt (TradingEngine.put_order_book index
      (OrderBook.set_ticker_symbol ob ticker) e)) in Hrun
      by (by apply on_order_book_Ok with ob).
    rewrite (bind_Raise _ _ _ IndexError
      (TradingEngine.put_order_book index
         (OrderBook.set_ticker_symbol ob ticker) e)) in Hrun; [done|].
    unfold TradingEngine.get_trade_lock, getitem. simpl. by rewrite Hlk. }
  rewrite (claim_spec index ticker e ob lk Hob Hlk) in Hrun.
  injection Hrun as <- <-. by exists ob, lk.
Qed.

Lemma probe_inv sz range index ticker e i e1 :
  TradingEngine.probe sz range index ticker e = (Ok (Some i), e1) →
  ∃ ob lk,
    TradingEngine.order_books e !! i = Some ob
    ∧ TradingEngine.trade_locks e !! i = Some lk
    ∧ TradingEngine.free_or_same ob ticker = true
    ∧ e1 = claimed i ticker ob e.
Proof.
  induction range as [|j range IH]; [done|].
  cbn [TradingEngine.probe].
  destruct (TradingEngine.order_books e !! ((index + j) `mod` sz))
    as [ob|] eqn:Hob; cycle 1.
  { rewrite (bind_Raise _ _ e IndexError e); [done|].
    unfold TradingEngine.get_order_book, getitem. by rewrite Hob. }
  rewrite (bind_Ok _ _ e ob e)
    by (unfold TradingEngine.get_order_book; by rewrite (getitem_Ok _ _ _ Hob)).
  destruct (TradingEngine.free_or_same ob ticker) eqn:Htest; [|done].
  clear IH. intros Hrun.
  apply claim_inv in Hrun as (ob' & lk & Hob' & Hlk & Hr & ->).
  injection Hr as ->. rewrite Hob in Hob'. injection Hob' as <-.
  by exists ob, lk.
Qed.

Section submission.
Variable hash : string → Z.

(** An answer of [ticker_to_index] that is a slot tells what happened. *)
Lemma ticker_to_index_inv ticker e i e1 :
  TradingEngine.ticker_to_index hash ticker e = (Ok (Some i), e1) →
  ∃ ob lk,
    TradingEngine.order_books e !! i = Some ob
    ∧ TradingEngine.trade_locks e !! i = Some lk
    ∧ TradingEngine.free_or_same ob ticker = true
    ∧ e1 = claimed i ticker ob e.
Proof.
  unfold TradingEngine.ticker_to_index.
  destruct (TradingEngine.size e) as [|n]; [done|].
  set (index := Z.to_nat _).
  destruct (TradingEngine.order_books e !! index) as [ob|] eqn:Hob; cycle 1.
  { rewrite (bind_Raise _ _ e IndexError e); [done|].
    unfold TradingEngine.get_order_book, getitem. by rewrite Hob. }
  rewrite (bind_Ok _ _ e ob e)
    by (unfold TradingEngine.get_order_book; by rewrite (getitem_Ok _ _ _ Hob)).
  destruct (TradingEngine.free_or_same ob ticker) eqn:Htest.
  - intros Hrun.
    apply claim_inv in Hrun as (ob' & lk & Hob' & Hlk & Hr & ->).
    injection Hr as ->. rewrite Hob in Hob'. injection Hob' as <-.
    by exists ob, lk.
  - apply probe_inv.
Qed.

Lemma positive_validated q p : positive q → positive p → validated q p.
Proof. unfold validated. destruct q, p; num_solve. Qed.

Lemma validated_not q p :
  validated q p → ¬ (number.le q 0 = true ∨ number.le p 0 = true).
Proof.
  unfold validated. intros [Hq Hp]%orb_false_iff [H|H]; congruence.
Qed.

Lemma validated_Num (q p : Z) :
  (0 < q)%Z → (0 < p)%Z → validated (number.Num q) (number.Num p).
Proof. intros. apply positive_validated; unfold positive; simpl; lia. Qed.

(** An order that passes the validation and whose ticker resolves to slot
    [i] is pushed into the book of slot [i]. *)
Lemma addOrder_resolved now uid ty ticker q p e i e1 :
  validated q p →
  TradingEngine.ticker_to_index hash ticker e = (Ok (Some i), e1) →
  ∃ ob lk ob',
    TradingEngine.order_books e !! i = Some ob
    ∧ TradingEngine.trade_locks e !! i = Some lk
    ∧ TradingEngine.free_or_same ob ticker = true
    ∧ e1 = claimed i ticker ob e
    ∧ OrderBook.add_order (OrderBook.set_ticker_symbol ob ticker)
        (Order.mk ty ticker p q now uid) = Ok ob'
    ∧ TradingEngine.addOrder hash now uid ty ticker q p e
      = (Ok uid,
         TradingEngine.mk (TradingEngine.size e)
           (<[i:=ob']> (TradingEngine.order_books e))
           (<[i:=Some RLock_new]> (TradingEngine.trade_locks e))
           (TradingEngine.matches e)).
Proof.
  intros Hq Hres.
  destruct (ticker_to_index_inv ticker e i e1 Hres) as (ob & lk & Hob & Hlk & Htest & ->).
  assert (i < length (TradingEngine.order_books e)) as Hlen
    by (by eapply lookup_lt_Some).
  set (order := Order.mk ty ticker p q now uid).
  assert (TradingEngine.order_books (claimed i ticker ob e) !! i
          = Some (OrderBook.set_ticker_symbol ob ticker)) as Hob1.
  { simpl. by apply list_lookup_insert_eq. }
  destruct (add_order_at i _ _ order Hob1) as (ob' & Hrun & Hadd).
  exists ob, lk, ob'. split_and!; [done..|].
  unfold TradingEngine.addOrder. rewrite Hq.
  rewrite (bind_Ok _ _ _ _ _ Hres).
  change (Order.__init__ now uid ty ticker p q) with order.
  rewrite (bind_Ok _ _ _ _ _ Hrun).
  unfold mret, TradingEngine.M_ret, TradingEngine.ret. f_equal.
  unfold TradingEngine.put_order_book, TradingEngine.set_order_books, claimed.
  simpl. by rewrite list_insert_insert_eq.
Qed.

Lemma addOrder_invalid now uid ty ticker q p e :
  number.le q 0 = true ∨ number.le p 0 = true →
  TradingEngine.addOrder hash now uid ty ticker q p e = (Raise ValueError, e).
Proof.
  intros H. unfold TradingEngine.addOrder.
  by replace (number.le q 0 || number.le p 0) with true
    by (destruct H as [-> | ->]; by rewrite ?orb_true_r).
Qed.

Lemma addOrder_full now uid ty ticker q p e :
  validated q p →
  TradingEngine.ticker_to_index hash ticker e = (Ok None, e) →
  TradingEngine.addOrder hash now uid ty ticker q p e = (Raise TypeError, e).
Proof.
  intros Hq Hres. unfold TradingEngine.addOrder. rewrite Hq.
  by rewrite (bind_Ok _ _ _ _ _ Hres).
Qed.
End submission.

(** The orders of the engine when one book changes. *)
Lemma resting_orders_insert (books : list OrderBook.t) i ob ob' extra :
  books !! i = Some ob → resting ob' ≡ₚ extra ++ resting ob →
  concat (resting <$> <[i:=ob']> books) ≡ₚ extra ++ concat (resting <$> books).
Proof.
  revert i. induction books as [|x books IH]; intros [|i] Hob Hr; simplify_eq/=.
  - by rewrite Hr, (assoc_L (++)).
  - rewrite (IH i) by done. apply Permutation_app_swap_app.
Qed.

(** ** The end-to-end scenario *)

Lemma resting_orders_empty n : concat (resting <$> replicate n OrderBook.__init__) = [].
Proof. induction n as [|n IH]; [done|]. simpl. exact IH. Qed.

Section scenario.
Variable hash : string → Z.

(** The scenario on any engine in which the slot where the probe for "X"
    starts is still free. *)
Lemma end_to_end_from e0 lk t1 u1 t2 u2 clock fuel :
  0 < TradingEngine.size e0 →
  TradingEngine.order_books e0 !! home hash "X" e0 = Some OrderBook.__init__ →
  TradingEngine.trade_locks e0 !! home hash "X" e0 = Some lk →
  ∃ e1 e2 e3,
    TradingEngine.addOrder hash t1 u1 BUY "X" 100 50 e0 = (Ok u1, e1)
    ∧ TradingEngine.addOrder hash t2 u2 SELL "X" 40 45 e1 = (Ok u2, e2)
    ∧ TradingEngine.match_orders_by_index clock (S (S fuel)) (home hash "X" e0) e2
      = (Ok tt, e3)
    ∧ TradingEngine.matches e3
      = TradingEngine.matches e0 ++ [MatchedOrders.mk u1 u2 40 45 (clock 0)]
    ∧ TradingEngine.order_books e3
      = <[home hash "X" e0:=
            OrderBook.mk (Some "X") [Order.mk BUY "X" 50 60 t1 u1] []]>
          (TradingEngine.order_books e0).
Proof.
  intros Hsz Hob0 Hlk0. set (i := home hash "X" e0) in *.
  assert (i < length (TradingEngine.order_books e0)) as Hlen
    by (by eapply lookup_lt_Some).
  assert (i < length (TradingEngine.trade_locks e0)) as Hlenl
    by (by eapply lookup_lt_Some).
  set (o1 := Order.mk BUY "X" 50 100 t1 u1).
  set (o2 := Order.mk SELL "X" 45 40 t2 u2).
  (* the bid *)
  destruct (addOrder_resolved hash t1 u1 BUY "X" 100 50 e0 i
    (claimed i "X" OrderBook.__init__ e0))
    as (? & ? & ob1 & Hob & _ & _ & _ & Hadd1 & Hrun1); [done| |].
  { by apply ticker_to_index_home with lk. }
  rewrite Hob0 in Hob. injection Hob as <-.
  vm_compute in Hadd1. injection Hadd1 as <-.
  set (e1 := TradingEngine.mk _ _ _ _) in Hrun1.
  (* the ask *)
  set (B1 := OrderBook.mk (Some "X") [o1] []).
  assert (TradingEngine.order_books e1 !! i = Some B1) as Hob1
    by (by apply list_lookup_insert_eq).
  assert (TradingEngine.trade_locks e1 !! i = Some (Some RLock_new)) as Hlk1
    by (by apply list_lookup_insert_eq).
  destruct (addOrder_resolved hash t2 u2 SELL "X" 40 45 e1 i (claimed i "X" B1 e1))
    as (? & ? & ob2 & Hob & _ & _ & _ & Hadd2 & Hrun2); [done| |].
  { by apply (ticker_to_index_home hash "X" e1 B1 (Some RLock_new)). }
  rewrite Hob1 in Hob. injection Hob as <-.
  vm_compute in Hadd2. injection Hadd2 as <-.
  set (e2 := TradingEngine.mk _ _ _ _) in Hrun2.
  set (B2 := OrderBook.mk (Some "X") [o1] [o2]).
  assert (TradingEngine.order_books e2 !! i = Some B2) as Hob2.
  { apply list_lookup_insert_eq. exact (lookup_lt_Some _ _ _ Hob1). }
  assert (TradingEngine.trade_locks e2 !! i = Some (Some RLock_new)) as Hlk2.
  { apply list_lookup_insert_eq. exact (lookup_lt_Some _ _ _ Hlk1). }
  (* the first pass matches *)
  destruct (match_pass_spec (clock 0) i e2 B2 RLock_new Hob2 Hlk2)
    as (ob3 & Ht3 & _ & _ & [(b & s & Hcross & Hpass1 & Hset)|(Hno & _)]);
    cycle 1.
  { destruct (Hno o1 o2). by split_and!. }
  destruct (crosses_inj B2 b s o1 o2) as [<- <-]; [done|by split_and!|].
  unfold settled, holds_with in Hset. simpl in Hset.
  destruct Hset as [HB3%Permutation_singleton_r HS3%Permutation_nil_r].
  set (o3 := Order.mk BUY "X" 50 60 t1 u1) in *.
  assert (ob3 = OrderBook.mk (Some "X") [o3] []) as ->
    by (destruct ob3; simpl in *; by subst).
  set (e3 := TradingEngine.mk _ _ _ _) in Hpass1.
  set (B3 := OrderBook.mk (Some "X") [o3] []) in *.
  assert (TradingEngine.order_books e3 !! i = Some B3) as Hob3.
  { apply list_lookup_insert_eq. exact (lookup_lt_Some _ _ _ Hob2). }
  (* the second pass finds no ask *)
  destruct (match_pass_spec (clock 1) i e3 B3 RLock_new Hob3 Hlk2)
    as (ob4 & Ht4 & _ & _ & [(b & s & Hcross2 & _)|(_ & Hpass2 & _ & Hside)]).
  { by destruct Hcross2 as (_ & ? & _). }
  destruct Hside as [HB4%Permutation_singleton_r HS4%Permutation_nil_r].
  { split; [by repeat constructor|constructor]. }
  assert (ob4 = B3) as -> by (destruct ob4; simpl in *; by subst).
  exists e1, e2, (TradingEngine.put_order_book i B3 e3).
  split_and!; [done|done| | |].
  - unfold TradingEngine.match_orders_by_index.
    rewrite (bind_Ok _ _ e2 B2 e2)
      by (unfold TradingEngine.get_order_book; by rewrite (getitem_Ok _ _ _ Hob2)).
    cbn [OrderBook.ticker_symbol B2 TradingEngine.match_loop].
    rewrite (bind_Ok _ _ _ _ _ Hpass1). cbn [TradingEngine.match_loop].
    rewrite (bind_Ok _ _ _ _ _ Hpass2). reflexivity.
  - reflexivity.
  - simpl. by rewrite !list_insert_insert_eq.
Qed.
End scenario.

(** C8: on a new engine, a bid of 100 at 50 for "X", then an ask of 40 at 45
    for "X", then the matching of the slot of "X": one trade, of quantity 40
    at price 45, and one resting order in the whole engine, the bid with 60
    left. *)
Theorem C8_end_to_end hash t1 u1 t2 u2 clock fuel :
  let index := Z.to_nat (hash "X" `mod` 1600)%Z in
  let r1 := TradingEngine.addOrder hash t1 u1 BUY "X" 100 50 TradingEngine.__init__ in
  let r2 := TradingEngine.addOrder hash t2 u2 SELL "X" 40 45 r1.2 in
  let r3 := TradingEngine.match_orders_by_index clock (S (S fuel)) index r2.2 in
  r1.1 = Ok u1 ∧ r2.1 = Ok u2 ∧ r3.1 = Ok tt
  ∧ TradingEngine.matches r3.2 = [MatchedOrders.mk u1 u2 40 45 (clock 0)]
  ∧ TradingEngine.order_books r3.2
    = <[index:=OrderBook.mk (Some "X") [Order.mk BUY "X" 50 60 t1 u1] []]>
        (replicate 1600 OrderBook.__init__)
  ∧ resting_orders r3.2 = [Order.mk BUY "X" 50 60 t1 u1].
Proof.
  intros index r1 r2 r3.
  assert (index < 1600) as Hindex by (unfold index; lia).
  destruct (end_to_end_from hash TradingEngine.__init__ None t1 u1 t2 u2 clock fuel)
    as (e1 & e2 & e3 & H1 & H2 & H3 & Hm & Hb).
  { simpl. lia. }
  { by apply lookup_replicate_2. }
  { by apply lookup_replicate_2. }
  change (home hash "X" TradingEngine.__init__) with index in H3, Hb.
  unfold r3, r2, r1. rewrite H1. cbn [fst snd]. rewrite H2. cbn [fst snd].
  rewrite H3. cbn [fst snd]. split_and!; [done..|].
  unfold resting_orders. rewrite Hb.
  change (TradingEngine.order_books TradingEngine.__init__)
    with (replicate 1600 OrderBook.__init__).
  apply Permutation_singleton_r.
  rewrite (resting_orders_insert _ index OrderBook.__init__ _
             [Order.mk BUY "X" 50 60 t1 u1]);
    [|by apply lookup_replicate_2|done].
  by rewrite resting_orders_empty.
Qed.

(** ** What NaN does *)

Section nan.
Variable hash : string → Z.

(** An order that passes the validation, for a ticker whose home slot is
    free or its own, is pushed into the book of that slot. *)
Lemma addOrder_home now uid ty ticker q p e ob lk :
  0 < TradingEngine.size e →
  TradingEngine.order_books e !! home hash ticker e = Some ob →
  TradingEngine.trade_locks e !! home hash ticker e = Some lk →
  TradingEngine.free_or_same ob ticker = true →
  validated q p →
  ∃ ob',
    OrderBook.add_order (OrderBook.set_ticker_symbol ob ticker)
      (Order.mk ty ticker p q now uid) = Ok ob'
    ∧ TradingEngine.addOrder hash now uid ty ticker q p e
      = (Ok uid,
         TradingEngine.mk (TradingEngine.size e)
           (<[home hash ticker e:=ob']> (TradingEngine.order_books e))
           (<[home hash ticker e:=Some RLock_new]> (TradingEngine.trade_locks e))
           (TradingEngine.matches e)).
Proof.
  intros Hsz Hob Hlk Htest Hvalid.
  destruct (addOrder_resolved hash now uid ty ticker q p e (home hash ticker e)
              (claimed (home hash ticker e) ticker ob e) Hvalid)
    as (ob0 & _ & ob' & Hob0 & _ & _ & _ & Hadd & Hrun).
  { by apply ticker_to_index_home with lk. }
  rewrite Hob in Hob0. injection Hob0 as <-. by exists ob'.
Qed.

(** Four bids for "X", the second with the price NaN, on any engine in
    which the slot where the probe for "X" starts is still free. *)
Lemma nan_price_from e0 lk t1 u1 t2 u2 t3 u3 t4 u4 :
  0 < TradingEngine.size e0 →
  TradingEngine.order_books e0 !! home hash "X" e0 = Some OrderBook.__init__ →
  TradingEngine.trade_locks e0 !! home hash "X" e0 = Some lk →
  ∃ e1 e2 e3 e4,
    TradingEngine.addOrder hash t1 u1 BUY "X" 1 50 e0 = (Ok u1, e1)
    ∧ TradingEngine.addOrder hash t2 u2 BUY "X" 1 number.NaN e1 = (Ok u2, e2)
    ∧ TradingEngine.addOrder hash t3 u3 BUY "X" 1 40 e2 = (Ok u3, e3)
    ∧ TradingEngine.addOrder hash t4 u4 BUY "X" 1 60 e3 = (Ok u4, e4)
    ∧ TradingEngine.order_books e4 !! home hash "X" e0
      = Some (OrderBook.mk (Some "X")
                [Order.mk BUY "X" 50 1 t1 u1; Order.mk BUY "X" number.NaN 1 t2 u2;
                 Order.mk BUY "X" 40 1 t3 u3; Order.mk BUY "X" 60 1 t4 u4] []).
Proof.
  intros Hsz Hob0 Hlk0. set (i := home hash "X" e0) in *.
  assert (i < length (TradingEngine.order_books e0)) as Hlen
    by (by eapply lookup_lt_Some).
  assert (i < length (TradingEngine.trade_locks e0)) as Hlenl
    by (by eapply lookup_lt_Some).
  destruct (addOrder_home t1 u1 BUY "X" 1 50 e0 _ lk Hsz Hob0 Hlk0)
    as (ob1 & Hadd1 & Hrun1); [done..|].
  vm_compute in Hadd1. injection Hadd1 as <-.
  set (e1 := TradingEngine.mk _ _ _ _) in Hrun1.
  assert (home hash "X" e1 = i) as Hi1 by done.
  destruct (addOrder_home t2 u2 BUY "X" 1 number.NaN e1
              (OrderBook.mk (Some "X") [Order.mk BUY "X" 50 1 t1 u1] [])
              (Some RLock_new))
    as (ob2 & Hadd2 & Hrun2);
    [done|rewrite Hi1; by apply list_lookup_insert_eq
    |rewrite Hi1; by apply list_lookup_insert_eq|done..|].
  vm_compute in Hadd2. injection Hadd2 as <-.
  rewrite Hi1 in Hrun2. unfold e1 in Hrun2 at 2 3 4 5. simpl in Hrun2.
  rewrite !list_insert_insert_eq in Hrun2.
  set (e2 := TradingEngine.mk _ _ _ _) in Hrun2.
  assert (home hash "X" e2 = i) as Hi2 by done.
  destruct (addOrder_home t3 u3 BUY "X" 1 40 e2
              (OrderBook.mk (Some "X")
                 [Order.mk BUY "X" 50 1 t1 u1; Order.mk BUY "X" number.NaN 1 t2 u2] [])
              (Some RLock_new))
    as (ob3 & Hadd3 & Hrun3);
    [done|rewrite Hi2; by apply list_lookup_insert_eq
    |rewrite Hi2; by apply list_lookup_insert_eq|done..|].
  vm_compute in Hadd3. injection Hadd3 as <-.
  rewrite Hi2 in Hrun3. unfold e2 in Hrun3 at 2 3 4 5. simpl in Hrun3.
  rewrite !list_insert_insert_eq in Hrun3.
  set (e3 := TradingEngine.mk _ _ _ _) in Hrun3.
  assert (home hash "X" e3 = i) as Hi3 by done.
  destruct (addOrder_home t4 u4 BUY "X" 1 60 e3
              (OrderBook.mk (Some "X")
                 [Order.mk BUY "X" 50 1 t1 u1; Order.mk BUY "X" number.NaN 1 t2 u2;
                  Order.mk BUY "X" 40 1 t3 u3] [])
              (Some RLock_new))
    as (ob4 & Hadd4 & Hrun4);
    [done|rewrite Hi3; by apply list_lookup_insert_eq
    |rewrite Hi3; by apply list_lookup_insert_eq|done..|].
  vm_compute in Hadd4. injection Hadd4 as <-.
  rewrite Hi3 in Hrun4. unfold e3 in Hrun4 at 2 3 4 5. simpl in Hrun4.
  rewrite !list_insert_insert_eq in Hrun4.
  set (e4 := TradingEngine.mk _ _ _ _) in Hrun4.
  exists e1, e2, e3, e4. split_and!; [done..|].
  by apply list_lookup_insert_eq.
Qed.

(** A bid for "X" with the quantity NaN, an ask of 40 at 45, and the
    matching of the slot, on any engine in which the slot where the probe
    for "X" starts is still free. *)
Lemma nan_quantity_from e0 lk t1 u1 t2 u2 clock fuel :
  0 < TradingEngine.size e0 →
  TradingEngine.order_books e0 !! home hash "X" e0 = Some OrderBook.__init__ →
  TradingEngine.trade_locks e0 !! home hash "X" e0 = Some lk →
  ∃ e1 e2 e3,
    TradingEngine.addOrder hash t1 u1 BUY "X" number.NaN 50 e0 = (Ok u1, e1)
    ∧ TradingEngine.order_books e1
      = <[home hash "X" e0:=
            OrderBook.mk (Some "X") [Order.mk BUY "X" 50 number.NaN t1 u1] []]>
          (TradingEngine.order_books e0)
    ∧ TradingEngine.addOrder hash t2 u2 SELL "X" 40 45 e1 = (Ok u2, e2)
    ∧ TradingEngine.match_orders_by_index clock (S (S fuel)) (home hash "X" e0) e2
      = (Ok tt, e3)
    ∧ TradingEngine.matches e3
      = TradingEngine.matches e0
        ++ [MatchedOrders.mk u1 u2 number.NaN 45 (clock 0)]
    ∧ TradingEngine.order_books e3
      = <[home hash "X" e0:=OrderBook.mk (Some "X") [] []]>
          (TradingEngine.order_books e0).
Proof.
  intros Hsz Hob0 Hlk0. set (i := home hash "X" e0) in *.
  assert (i < length (TradingEngine.order_books e0)) as Hlen
    by (by eapply lookup_lt_Some).
  assert (i < length (TradingEngine.trade_locks e0)) as Hlenl
    by (by eapply lookup_lt_Some).
  set (o1 := Order.mk BUY "X" 50 number.NaN t1 u1).
  set (o2 := Order.mk SELL "X" 45 40 t2 u2).
  destruct (addOrder_home t1 u1 BUY "X" number.NaN 50 e0 _ lk Hsz Hob0 Hlk0)
    as (ob1 & Hadd1 & Hrun1); [done..|].
  vm_compute in Hadd1. injection Hadd1 as <-.
  set (e1 := TradingEngine.mk _ _ _ _) in Hrun1.
  assert (home hash "X" e1 = i) as Hi1 by done.
  set (B1 := OrderBook.mk (Some "X") [o1] []).
  destruct (addOrder_home t2 u2 SELL "X" 40 45 e1 B1 (Some RLock_new))
    as (ob2 & Hadd2 & Hrun2);
    [done|rewrite Hi1; by apply list_lookup_insert_eq
    |rewrite Hi1; by apply list_lookup_insert_eq|done..|].
  vm_compute in Hadd2. injection Hadd2 as <-.
  rewrite Hi1 in Hrun2. unfold e1 in Hrun2 at 2 3 4 5. simpl in Hrun2.
  rewrite !list_insert_insert_eq in Hrun2.
  set (e2 := TradingEngine.mk _ _ _ _) in Hrun2.
  set (B2 := OrderBook.mk (Some "X") [o1] [o2]).
  assert (TradingEngine.order_books e2 !! i = Some B2) as Hob2
    by (by apply list_lookup_insert_eq).
  assert (TradingEngine.trade_locks e2 !! i = Some (Some RLock_new)) as Hlk2
    by (by apply list_lookup_insert_eq).
  (* the first pass matches *)
  destruct (match_pass_spec (clock 0) i e2 B2 RLock_new Hob2 Hlk2)
    as (ob3 & Ht3 & _ & _ & [(b & s & Hcross & Hpass1 & Hset)|(Hno & _)]);
    cycle 1.
  { destruct (Hno o1 o2). by split_and!. }
  destruct (crosses_inj B2 b s o1 o2) as [<- <-]; [done|by split_and!|].
  unfold settled in Hset. simpl in Hset.
  destruct Hset as [HB3%Permutation_nil_r HS3%Permutation_nil_r].
  assert (ob3 = OrderBook.mk (Some "X") [] []) as ->
    by (destruct ob3; simpl in *; by subst).
  set (e3 := TradingEngine.mk _ _ _ _) in Hpass1.
  set (B3 := OrderBook.mk (Some "X") [] []) in *.
  assert (TradingEngine.order_books e3 !! i = Some B3) as Hob3.
  { apply list_lookup_insert_eq. exact (lookup_lt_Some _ _ _ Hob2). }
  (* the second pass finds nothing *)
  destruct (match_pass_spec (clock 1) i e3 B3 RLock_new Hob3 Hlk2)
    as (ob4 & Ht4 & _ & _ & [(b & s & Hcross2 & _)|(_ & Hpass2 & _ & Hside)]).
  { by destruct Hcross2 as (? & _). }
  destruct Hside as [HB4%Permutation_nil_r HS4%Permutation_nil_r].
  { split; constructor. }
  assert (ob4 = B3) as -> by (destruct ob4; simpl in *; by subst).
  exists e1, e2, (TradingEngine.put_order_book i B3 e3).
  split_and!; [done|done|done| | |].
  - unfold TradingEngine.match_orders_by_index.
    rewrite (bind_Ok _ _ e2 B2 e2)
      by (unfold TradingEngine.get_order_book; by rewrite (getitem_Ok _ _ _ Hob2)).
    cbn [OrderBook.ticker_symbol B2 TradingEngine.match_loop].
    rewrite (bind_Ok _ _ _ _ _ Hpass1). cbn [TradingEngine.match_loop].
    rewrite (bind_Ok _ _ _ _ _ Hpass2). reflexivity.
  - reflexivity.
  - simpl. by rewrite !list_insert_insert_eq.
Qed.
End nan.

(** C3, at an input on which the code departs from the claim: [addOrder]
    lets the price NaN through, and with a bid at NaN in the heap the best
    bid need not be the highest one.  On a new engine, bids for "X" at 50,
    NaN, 40 and 60 are all accepted, and [get_best_buy] then shows the bid
    at 50 while the bid at 60 rests. *)
Theorem C3_nan_price_breaks_priority hash t1 u1 t2 u2 t3 u3 t4 u4 :
  let index := Z.to_nat (hash "X" `mod` 1600)%Z in
  let r1 := TradingEngine.addOrder hash t1 u1 BUY "X" 1 50 TradingEngine.__init__ in
  let r2 := TradingEngine.addOrder hash t2 u2 BUY "X" 1 number.NaN r1.2 in
  let r3 := TradingEngine.addOrder hash t3 u3 BUY "X" 1 40 r2.2 in
  let r4 := TradingEngine.addOrder hash t4 u4 BUY "X" 1 60 r3.2 in
  r1.1 = Ok u1 ∧ r2.1 = Ok u2 ∧ r3.1 = Ok u3 ∧ r4.1 = Ok u4
  ∧ ∃ ob,
      TradingEngine.order_books r4.2 !! index = Some ob
      ∧ OrderBook.get_best_buy ob = Some (Order.mk BUY "X" 50 1 t1 u1)
      ∧ Order.mk BUY "X" 60 1 t4 u4 ∈ OrderBook.buy_orders ob
      ∧ ¬ buy_priority (Order.mk BUY "X" 50 1 t1 u1) (Order.mk BUY "X" 60 1 t4 u4).
Proof.
  intros index r1 r2 r3 r4.
  assert (index < 1600) as Hindex by (unfold index; lia).
  destruct (nan_price_from hash TradingEngine.__init__ None
              t1 u1 t2 u2 t3 u3 t4 u4)
    as (e1 & e2 & e3 & e4 & H1 & H2 & H3 & H4 & Hb).
  { simpl. lia. }
  { by apply lookup_replicate_2. }
  { by apply lookup_replicate_2. }
  change (home hash "X" TradingEngine.__init__) with index in Hb.
  unfold r4, r3, r2, r1. rewrite H1. cbn [fst snd]. rewrite H2. cbn [fst snd].
  rewrite H3. cbn [fst snd]. rewrite H4. cbn [fst snd].
  split_and!; [done..|]. eexists. split; [exact Hb|].
  split_and!; [done|simpl; rewrite !elem_of_cons; auto 10|].
  unfold buy_priority. simpl. intros [?|[? _]]; done.
Qed.

(** C10, at an input on which the code departs from the claim: the test
    [quantity <= 0 or price <= 0] of [addOrder] is false of NaN, so an order
    whose quantity is NaN is accepted and rests; matched with an ask of 40
    at 45 it gives a trade whose quantity is the NaN that [min] returns,
    which is not above 0. *)
Theorem C10_nan_quantity_traded hash t1 u1 t2 u2 clock fuel :
  let index := Z.to_nat (hash "X" `mod` 1600)%Z in
  let r1 := TradingEngine.addOrder hash t1 u1 BUY "X" number.NaN 50
              TradingEngine.__init__ in
  let r2 := TradingEngine.addOrder hash t2 u2 SELL "X" 40 45 r1.2 in
  let r3 := TradingEngine.match_orders_by_index clock (S (S fuel)) index r2.2 in
  r1.1 = Ok u1 ∧ r2.1 = Ok u2 ∧ r3.1 = Ok tt
  ∧ resting_orders r1.2 = [Order.mk BUY "X" 50 number.NaN t1 u1]
  ∧ ¬ positive_order (Order.mk BUY "X" 50 number.NaN t1 u1)
  ∧ TradingEngine.matches r3.2 = [MatchedOrders.mk u1 u2 number.NaN 45 (clock 0)]
  ∧ ¬ positive_trade (MatchedOrders.mk u1 u2 number.NaN 45 (clock 0)).
Proof.
  intros index r1 r2 r3.
  assert (index < 1600) as Hindex by (unfold index; lia).
  destruct (nan_quantity_from hash TradingEngine.__init__ None t1 u1 t2 u2
              clock fuel)
    as (e1 & e2 & e3 & H1 & Hb1 & H2 & H3 & Hm & Hb).
  { simpl. lia. }
  { by apply lookup_replicate_2. }
  { by apply lookup_replicate_2. }
  change (home hash "X" TradingEngine.__init__) with index in H3, Hb, Hb1.
  unfold r3, r2, r1. rewrite H1. cbn [fst snd]. rewrite H2. cbn [fst snd].
  rewrite H3. cbn [fst snd]. split_and!; [done..| | |done|].
  - unfold resting_orders. rewrite Hb1.
    change (TradingEngine.order_books TradingEngine.__init__)
      with (replicate 1600 OrderBook.__init__).
    apply Permutation_singleton_r.
    rewrite (resting_orders_insert _ index OrderBook.__init__ _
               [Order.mk BUY "X" 50 number.NaN t1 u1]);
      [|by apply lookup_replicate_2|done].
    by rewrite resting_orders_empty.
  - by intros [? _].
  - by intros [? _].
Qed.

(** ** The directory and the empty ticker *)

Lemma free_or_same_true ob ticker :
  TradingEngine.free_or_same ob ticker = true ↔
  OrderBook.ticker_symbol ob = Some ticker
  ∨ OrderBook.ticker_symbol ob = None
  ∨ OrderBook.ticker_symbol ob = Some "".
Proof.
  unfold TradingEngine.free_or_same, TradingEngine.truthy.
  destruct (OrderBook.ticker_symbol ob) as [t|]; simpl; [|by intuition].
  rewrite orb_true_iff, bool_decide_eq_true, negb_involutive, String.eqb_eq.
  intuition congruence.
Qed.

Section directory.
Variable hash : string → Z.

(** What the code does by design: with every slot taken by a ticker that is
    neither the submitted one nor empty, the probe visits every slot, the
    answer is [None], and [addOrder] raises without changing the engine. *)
Lemma full_directory_rejects now uid ty ticker q p e :
  sized e → (0 < q)%Z → (0 < p)%Z →
  Forall (λ ob, occupied_by_other ticker ob
                ∧ OrderBook.ticker_symbol ob ≠ Some "")
    (TradingEngine.order_books e) →
  TradingEngine.ticker_to_index hash ticker e = (Ok None, e)
  ∧ TradingEngine.addOrder hash now uid ty ticker q p e = (Raise TypeError, e).
Proof.
  intros Hsized Hq Hp Hfull.
  assert (TradingEngine.ticker_to_index hash ticker e = (Ok None, e)) as Hres.
  { destruct (ticker_to_index_spec hash ticker e Hsized)
      as [[Hrun _]|(j & ob & Hob & Htest & _)]; [done|].
    apply free_or_same_true in Htest.
    destruct (Forall_lookup_1 _ _ _ _ Hfull Hob) as [[? ?] ?].
    intuition congruence. }
  split; [done|]. apply addOrder_full; [by apply validated_Num|done].
Qed.

(** C5, at the input on which the code departs from the claim: every slot is
    taken by a ticker other than the submitted one, and one of them is the
    empty ticker.  The call does not fail: it returns the new identifier, and
    a slot of the empty ticker now carries the submitted ticker. *)
Theorem C5_full_directory_empty_ticker now uid ty ticker q p e j ob :
  sized e → (0 < q)%Z → (0 < p)%Z →
  Forall (occupied_by_other ticker) (TradingEngine.order_books e) →
  TradingEngine.order_books e !! j = Some ob →
  OrderBook.ticker_symbol ob = Some "" →
  ∃ i ob0 ob',
    TradingEngine.order_books e !! i = Some ob0
    ∧ OrderBook.ticker_symbol ob0 = Some ""
    ∧ OrderBook.ticker_symbol ob' = Some ticker
    ∧ TradingEngine.addOrder hash now uid ty ticker q p e
      = (Ok uid,
         TradingEngine.mk (TradingEngine.size e)
           (<[i:=ob']> (TradingEngine.order_books e))
           (<[i:=Some RLock_new]> (TradingEngine.trade_locks e))
           (TradingEngine.matches e)).
Proof.
  intros Hsized Hq Hp Hfull Hj Hempty.
  destruct (ticker_to_index_spec hash ticker e Hsized)
    as [[_ Hall]|(i & ob0 & Hob0 & Htest & Hres)].
  { specialize (Hall j ob Hj). apply not_true_iff_false in Hall.
    destruct Hall. apply free_or_same_true. auto. }
  destruct (addOrder_resolved hash now uid ty ticker q p e i _ (validated_Num _ _ Hq Hp) Hres)
    as (ob1 & lk & ob' & Hob1 & _ & _ & _ & Hadd & Hrun).
  rewrite Hob0 in Hob1. injection Hob1 as <-.
  destruct (add_order_spec (OrderBook.set_ticker_symbol ob0 ticker)
    (Order.mk ty ticker p q now uid)) as (? & Hadd' & Ht & _).
  rewrite Hadd in Hadd'. injection Hadd' as <-.
  exists i, ob0, ob'. split_and!; [done| |done|done].
  apply free_or_same_true in Htest.
  destruct (Forall_lookup_1 _ _ _ _ Hfull Hob0) as [? ?].
  intuition congruence.
Qed.
End directory.

Lemma C5_full_directory_empty_ticker_witness :
  ∃ i ob0 ob',
    TradingEngine.order_books demo_full !! i = Some ob0
    ∧ OrderBook.ticker_symbol ob0 = Some ""
    ∧ OrderBook.ticker_symbol ob' = Some "B"
    ∧ TradingEngine.addOrder demo_hash 2000 2000%N SELL "B" 1 1 demo_full
      = (Ok 2000%N,
         TradingEngine.mk (TradingEngine.size demo_full)
           (<[i:=ob']> (TradingEngine.order_books demo_full))
           (<[i:=Some RLock_new]> (TradingEngine.trade_locks demo_full))
           (TradingEngine.matches demo_full)).
Proof.
  apply (C5_full_directory_empty_ticker demo_hash 2000 2000%N SELL "B" 1 1
           demo_full 0
           (OrderBook.mk (Some "") [Order.mk BUY "" 1 1 0 0%N] [])).
  - split_and!; vm_compute; (reflexivity || lia).
  - lia.
  - lia.
  - change (Forall (λ ob, OrderBook.ticker_symbol ob ≠ None
                          ∧ OrderBook.ticker_symbol ob ≠ Some "B")
              (TradingEngine.order_books demo_full)).
    apply (bool_decide_unpack _). vm_compute. exact I.
  - vm_compute. reflexivity.
  - reflexivity.
Defined.

Section isolation.
Variable hash : string → Z.

(** The empty ticker takes a free slot; a second ticker whose probe starts
    at that slot then takes the same slot, book and orders included. *)
Lemma shares_slot_from e0 lk B now1 uid1 ty1 q1 p1 now2 uid2 ty2 q2 p2 :
  0 < TradingEngine.size e0 →
  TradingEngine.order_books e0 !! home hash "" e0 = Some OrderBook.__init__ →
  TradingEngine.trade_locks e0 !! home hash "" e0 = Some lk →
  home hash B e0 = home hash "" e0 →
  (0 < q1)%Z → (0 < p1)%Z → (0 < q2)%Z → (0 < p2)%Z →
  ∃ e1 e1' e2 e2' ob,
    TradingEngine.ticker_to_index hash "" e0 = (Ok (Some (home hash "" e0)), e1')
    ∧ TradingEngine.addOrder hash now1 uid1 ty1 "" q1 p1 e0 = (Ok uid1, e1)
    ∧ TradingEngine.ticker_to_index hash B e1 = (Ok (Some (home hash "" e0)), e2')
    ∧ TradingEngine.addOrder hash now2 uid2 ty2 B q2 p2 e1 = (Ok uid2, e2)
    ∧ TradingEngine.order_books e2 !! home hash "" e0 = Some ob
    ∧ OrderBook.ticker_symbol ob = Some B
    ∧ Order.mk ty1 "" p1 q1 now1 uid1 ∈ resting ob
    ∧ Order.mk ty2 B p2 q2 now2 uid2 ∈ resting ob.
Proof.
  intros Hsz Hob0 Hlk0 Hhome Hq1 Hp1 Hq2 Hp2. set (i := home hash "" e0) in *.
  set (o1 := Order.mk ty1 "" p1 q1 now1 uid1).
  set (o2 := Order.mk ty2 B p2 q2 now2 uid2).
  (* the empty ticker *)
  assert (TradingEngine.ticker_to_index hash "" e0
          = (Ok (Some i), claimed i "" OrderBook.__init__ e0)) as Hres1
    by (by apply ticker_to_index_home with lk).
  destruct (addOrder_resolved hash now1 uid1 ty1 "" q1 p1 e0 i _ (validated_Num _ _ Hq1 Hp1) Hres1)
    as (? & ? & ob1 & Hob & _ & _ & _ & Hadd1 & Hrun1).
  rewrite Hob0 in Hob. injection Hob as <-.
  destruct (add_order_spec (OrderBook.set_ticker_symbol OrderBook.__init__ "") o1)
    as (? & Hadd' & Ht1 & Hw1 & _).
  fold o1 in Hadd1. rewrite Hadd1 in Hadd'. injection Hadd' as <-.
  apply holds_with_resting in Hw1.
  set (e1 := TradingEngine.mk _ _ _ _) in Hrun1.
  assert (TradingEngine.order_books e1 !! i = Some ob1) as Hob1.
  { apply list_lookup_insert_eq. exact (lookup_lt_Some _ _ _ Hob0). }
  assert (TradingEngine.trade_locks e1 !! i = Some (Some RLock_new)) as Hlk1.
  { apply list_lookup_insert_eq. exact (lookup_lt_Some _ _ _ Hlk0). }
  (* the second ticker *)
  assert (TradingEngine.ticker_to_index hash B e1
          = (Ok (Some i), claimed i B ob1 e1)) as Hres2.
  { rewrite <-Hhome.
    change (home hash B e0) with (home hash B e1).
    apply ticker_to_index_home with (Some RLock_new); [done|..].
    - change (home hash B e1) with (home hash B e0). by rewrite Hhome.
    - change (home hash B e1) with (home hash B e0). by rewrite Hhome.
    - apply free_or_same_true. auto. }
  destruct (addOrder_resolved hash now2 uid2 ty2 B q2 p2 e1 i _ (validated_Num _ _ Hq2 Hp2) Hres2)
    as (? & ? & ob2 & Hob & _ & _ & _ & Hadd2 & Hrun2).
  rewrite Hob1 in Hob. injection Hob as <-.
  destruct (add_order_spec (OrderBook.set_ticker_symbol ob1 B) o2)
    as (? & Hadd' & Ht2 & Hw2 & _).
  fold o2 in Hadd2. rewrite Hadd2 in Hadd'. injection Hadd' as <-.
  apply holds_with_resting in Hw2.
  eexists e1, _, _, _, ob2. split_and!; [done|done|done|done|..].
  - apply list_lookup_insert_eq. exact (lookup_lt_Some _ _ _ Hob1).
  - done.
  - rewrite Hw2. right. change (o1 ∈ resting ob1). rewrite Hw1. by left.
  - rewrite Hw2. by left.
Qed.
End isolation.

(** C6, at the input on which the code departs from the claim: on a new
    engine an order is submitted under the empty ticker, then one under a
    ticker [B] whose probe starts at the same slot.  The two tickers resolve
    to the same slot, and the order submitted under the empty ticker rests
    in the book that now carries [B], with the order of [B]. *)
Theorem C6_empty_ticker_shares_slot hash B now1 uid1 ty1 q1 p1 now2 uid2 ty2 q2 p2 :
  B ≠ "" →
  (hash B `mod` 1600 = hash "" `mod` 1600)%Z →
  (0 < q1)%Z → (0 < p1)%Z → (0 < q2)%Z → (0 < p2)%Z →
  let i := Z.to_nat (hash "" `mod` 1600)%Z in
  let r1 := TradingEngine.addOrder hash now1 uid1 ty1 "" q1 p1 TradingEngine.__init__ in
  let r2 := TradingEngine.addOrder hash now2 uid2 ty2 B q2 p2 r1.2 in
  (TradingEngine.ticker_to_index hash "" TradingEngine.__init__).1 = Ok (Some i)
  ∧ (TradingEngine.ticker_to_index hash B r1.2).1 = Ok (Some i)
  ∧ r1.1 = Ok uid1 ∧ r2.1 = Ok uid2
  ∧ ∃ ob,
      TradingEngine.order_books r2.2 !! i = Some ob
      ∧ OrderBook.ticker_symbol ob = Some B
      ∧ Order.mk ty1 "" p1 q1 now1 uid1 ∈ resting ob
      ∧ Order.mk ty2 B p2 q2 now2 uid2 ∈ resting ob.
Proof.
  intros _ Hhash Hq1 Hp1 Hq2 Hp2 i r1 r2.
  assert (i < 1600) as Hi by (unfold i; lia).
  destruct (shares_slot_from hash TradingEngine.__init__ None B
    now1 uid1 ty1 q1 p1 now2 uid2 ty2 q2 p2)
    as (e1 & e1' & e2 & e2' & ob & H1 & H2 & H3 & H4 & Hob & Ht & Ho1 & Ho2);
    [simpl; lia|by apply lookup_replicate_2|by apply lookup_replicate_2
    | |done..|].
  { unfold home.
    change (Z.of_nat (TradingEngine.size TradingEngine.__init__)) with 1600%Z.
    by rewrite Hhash. }
  change (home hash "" TradingEngine.__init__) with i in H1, H3, Hob.
  unfold r2, r1. rewrite H1, H2. cbn [fst snd]. rewrite H3, H4. cbn [fst snd].
  split_and!; [done..|]. by exists ob.
Qed.

Lemma C6_empty_ticker_shares_slot_witness :
  let B := letters 1600 in
  let r1 := TradingEngine.addOrder demo_hash 1 11%N BUY "" 1 1 TradingEngine.__init__ in
  let r2 := TradingEngine.addOrder demo_hash 2 12%N SELL B 1 1 r1.2 in
  (TradingEngine.ticker_to_index demo_hash "" TradingEngine.__init__).1 = Ok (Some 0)
  ∧ (TradingEngine.ticker_to_index demo_hash B r1.2).1 = Ok (Some 0)
  ∧ r1.1 = Ok 11%N ∧ r2.1 = Ok 12%N
  ∧ ∃ ob,
      TradingEngine.order_books r2.2 !! 0 = Some ob
      ∧ OrderBook.ticker_symbol ob = Some B
      ∧ Order.mk BUY "" 1 1 1 11%N ∈ resting ob
      ∧ Order.mk SELL B 1 1 2 12%N ∈ resting ob.
Proof.
  apply (C6_empty_ticker_shares_slot demo_hash (letters 1600)
           1 11%N BUY 1 1 2 12%N SELL 1 1).
  - vm_compute. discriminate.
  - vm_compute. reflexivity.
  - lia.
  - lia.
  - lia.
  - lia.
Defined.

(** ** What holds all along a session *)

Lemma keeps_bind {A B} P (m : TradingEngine.M A) (k : A → TradingEngine.M B) :
  keeps P m → (∀ a, keeps P (k a)) → keeps P (m ≫= k).
Proof.
  intros Hm Hk e He. specialize (Hm e He).
  destruct (m e) as [[a|x|] e1] eqn:Hrun.
  - rewrite (bind_Ok _ _ _ _ _ Hrun). by apply Hk.
  - by rewrite (bind_Raise _ _ _ _ _ Hrun).
  - by rewrite (bind_OutOfFuel _ _ _ _ Hrun).
Qed.

Lemma keeps_ret {A} P (a : A) : keeps P (mret a).
Proof. by intros e He. Qed.

Lemma matchOrder_loop_keeps P clock fuel range :
  (∀ i, keeps P (TradingEngine.match_orders_by_index (clock i) fuel i)) →
  keeps P (TradingEngine.matchOrder_loop clock fuel range).
Proof.
  intros Hslot. induction range as [|i range IH]; [by apply keeps_ret|].
  cbn [TradingEngine.matchOrder_loop]. apply keeps_bind; [apply Hslot|].
  intros _. exact IH.
Qed.

Lemma invariant_init : invariant TradingEngine.__init__.
Proof.
  split_and!.
  - split_and!; [simpl; lia|apply length_replicate..].
  - intros i ob [-> _]%lookup_replicate. done.
  - apply Forall_replicate. by split; constructor.
Qed.

Section session_facts.
Variable hash : string → Z.

(** The three ways out of [addOrder]. *)
Lemma addOrder_cases now uid ty ticker q p e :
  sized e →
  ((number.le q 0 = true ∨ number.le p 0 = true)
   ∧ TradingEngine.addOrder hash now uid ty ticker q p e = (Raise ValueError, e))
  ∨ (validated q p
     ∧ (∀ j ob, TradingEngine.order_books e !! j = Some ob →
          TradingEngine.free_or_same ob ticker = false)
     ∧ TradingEngine.addOrder hash now uid ty ticker q p e = (Raise TypeError, e))
  ∨ (validated q p
     ∧ ∃ j ob lk ob',
         TradingEngine.order_books e !! j = Some ob
         ∧ TradingEngine.trade_locks e !! j = Some lk
         ∧ TradingEngine.free_or_same ob ticker = true
         ∧ TradingEngine.ticker_to_index hash ticker e
           = (Ok (Some j), claimed j ticker ob e)
         ∧ OrderBook.add_order (OrderBook.set_ticker_symbol ob ticker)
             (Order.mk ty ticker p q now uid) = Ok ob'
         ∧ TradingEngine.addOrder hash now uid ty ticker q p e
           = (Ok uid,
              TradingEngine.mk (TradingEngine.size e)
                (<[j:=ob']> (TradingEngine.order_books e))
                (<[j:=Some RLock_new]> (TradingEngine.trade_locks e))
                (TradingEngine.matches e))).
Proof.
  intros Hsized.
  destruct (number.le q 0 || number.le p 0) eqn:Htest.
  { left. apply orb_true_iff in Htest. split; [done|]. by apply addOrder_invalid. }
  right.
  destruct (ticker_to_index_spec hash ticker e Hsized)
    as [[Hres Hall]|(i & ob & Hob & Hfree & Hres)].
  { left. split_and!; [done|done|]. by apply addOrder_full. }
  right. split; [done|].
  destruct (addOrder_resolved hash now uid ty ticker q p e i _ Htest Hres)
    as (ob0 & lk & ob' & Hob0 & Hlk & _ & _ & Hadd & Hrun).
  rewrite Hob in Hob0. injection Hob0 as <-.
  exists i, ob, lk, ob'. by split_and!.
Qed.

Lemma addOrder_invariant now uid ty ticker q p :
  keeps invariant (TradingEngine.addOrder hash now uid ty ticker q p).
Proof.
  intros e (Hsized & Hlocked & Hsided).
  destruct (addOrder_cases now uid ty ticker q p e Hsized)
    as [[_ ->]|[(_ & _ & ->)
               |(_ & i & ob & lk & ob' & Hob & Hlk & _ & _ & Hadd & ->)]];
    [done..|].
  destruct (add_order_spec (OrderBook.set_ticker_symbol ob ticker)
    (Order.mk ty ticker p q now uid)) as (? & Hadd' & Ht & Hw & Hsd & _).
  rewrite Hadd in Hadd'. injection Hadd' as <-.
  destruct Hsized as (Hsz & Hlb & Hll). cbn [snd]. split_and!.
  - split_and!; simpl; [done|by rewrite length_insert..].
  - intros j obj Hj Hticker. simpl in *.
    destruct (decide (i = j)) as [<-|Hne].
    + exists RLock_new. apply list_lookup_insert_eq. by eapply lookup_lt_Some.
    + rewrite list_lookup_insert_ne in Hj by done.
      rewrite list_lookup_insert_ne by done. by apply (Hlocked j obj).
  - simpl. apply Forall_insert; [done|]. apply Hsd.
    exact (Forall_lookup_1 _ _ _ _ Hsided Hob).
Qed.

(** A pass either finds the book and the lock of the slot, or raises at
    once. *)
Lemma match_pass_raises now index e :
  (∃ ob lk, TradingEngine.order_books e !! index = Some ob
     ∧ TradingEngine.trade_locks e !! index = Some (Some lk))
  ∨ ∃ x, TradingEngine.match_pass now index e = (Raise x, e).
Proof.
  unfold TradingEngine.match_pass.
  destruct (TradingEngine.trade_locks e !! index) as [[lk|]|] eqn:Hlk.
  - destruct (TradingEngine.order_books e !! index) as [ob|] eqn:Hob; [eauto|].
    right. exists IndexError.
    rewrite (bind_Ok _ _ e (Some lk) e)
      by (unfold TradingEngine.get_trade_lock; by rewrite (getitem_Ok _ _ _ Hlk)).
    apply bind_Raise. by apply on_order_book_IndexError.
  - right. exists TypeError.
    by rewrite (bind_Ok _ _ e None e)
      by (unfold TradingEngine.get_trade_lock; by rewrite (getitem_Ok _ _ _ Hlk)).
  - right. exists IndexError. apply bind_Raise.
    unfold TradingEngine.get_trade_lock, getitem. by rewrite Hlk.
Qed.

(** The three ways out of a pass on an engine that satisfies the session
    invariant. *)
Lemma match_pass_cases now index e :
  invariant e →
  (∃ x, TradingEngine.match_pass now index e = (Raise x, e))
  ∨ ∃ ob lk ob',
      TradingEngine.order_books e !! index = Some ob
      ∧ TradingEngine.trade_locks e !! index = Some (Some lk)
      ∧ sided ob
      ∧ OrderBook.ticker_symbol ob' = OrderBook.ticker_symbol ob
      ∧ sided ob'
      ∧ (heap_book ob → heap_book ob')
      ∧ ((∃ b s B S,
            OrderBook.buy_orders ob = b :: B
            ∧ OrderBook.sell_orders ob = s :: S
            ∧ number.ge (Order.price b) (Order.price s) = true
            ∧ is_buy b ∧ is_sell s
            ∧ TradingEngine.match_pass now index e
              = (Ok true,
                 TradingEngine.mk (TradingEngine.size e)
                   (<[index:=ob']> (TradingEngine.order_books e))
                   (TradingEngine.trade_locks e)
                   (TradingEngine.matches e ++ [MatchedOrders.__init__ now b s]))
            ∧ if number.gt (Order.quantity b) (Order.quantity s) then
                OrderBook.buy_orders ob'
                  ≡ₚ Order.set_quantity b
                       (number.sub (Order.quantity b) (Order.quantity s)) :: B
                ∧ OrderBook.sell_orders ob' ≡ₚ S
              else if number.lt (Order.quantity b) (Order.quantity s) then
                OrderBook.buy_orders ob' ≡ₚ B
                ∧ OrderBook.sell_orders ob'
                  ≡ₚ Order.set_quantity s
                       (number.sub (Order.quantity s) (Order.quantity b)) :: S
              else OrderBook.buy_orders ob' ≡ₚ B ∧ OrderBook.sell_orders ob' ≡ₚ S)
         ∨ (no_cross ob
            ∧ TradingEngine.match_pass now index e
              = (Ok false, TradingEngine.put_order_book index ob' e)
            ∧ OrderBook.buy_orders ob' ≡ₚ OrderBook.buy_orders ob
            ∧ OrderBook.sell_orders ob' ≡ₚ OrderBook.sell_orders ob)).
Proof.
  intros (Hsized & Hlocked & Hsided).
  destruct (match_pass_raises now index e) as [(ob & lk & Hob & Hlk)|[x Hx]];
    [right|left; by exists x].
  pose proof (Forall_lookup_1 _ _ _ _ Hsided Hob) as Hsob.
  destruct (match_pass_spec now index e ob lk Hob Hlk)
    as (ob' & Ht & Hsd & Hh
        & [(b & s & Hcross & Hrun & Hset)|(Hno & Hrun & Hr & Hsides)]).
  - exists ob, lk, ob'. split_and!; [done..|by apply Hsd|done|]. left.
    destruct Hcross as (Hb & Hs & Hle).
    rewrite get_best_buy_head in Hb. rewrite get_best_sell_head in Hs.
    destruct (OrderBook.buy_orders ob) as [|b0 B] eqn:EB; [done|].
    destruct (OrderBook.sell_orders ob) as [|s0 S] eqn:ES; [done|].
    simpl in Hb, Hs. injection Hb as ->. injection Hs as ->.
    destruct Hsob as [Hsb Hss]. rewrite EB in Hsb. rewrite ES in Hss.
    apply Forall_cons in Hsb as [Hib _]. apply Forall_cons in Hss as [His _].
    exists b, s, B, S. split_and!; [done..|].
    unfold settled in Hset. simpl in Hset.
    destruct (number.gt (Order.quantity b) (Order.quantity s)).
    { by apply holds_with_buy in Hset. }
    destruct (number.lt (Order.quantity b) (Order.quantity s)); [|done].
    by apply holds_with_sell in Hset.
  - exists ob, lk, ob'. split_and!; [done..|by apply Hsd|done|]. right.
    destruct (Hsides Hsob) as [HB HS].
    split_and!; [by apply no_cross_iff|done..].
Qed.

Lemma match_pass_invariant now index :
  keeps invariant (TradingEngine.match_pass now index).
Proof.
  intros e Hinv.
  destruct (match_pass_cases now index e Hinv)
    as [[x ->]|(ob & lk & ob' & Hob & Hlk & _ & Ht & Hsd' & _ & Hcases)]; [done|].
  destruct Hinv as ((Hsz & Hlb & Hll) & Hlocked & Hsided).
  assert (invariant (TradingEngine.put_order_book index ob' e)) as Hput.
  { split_and!.
    - split_and!; simpl; [done|by rewrite length_insert|done].
    - intros j obj Hj Hticker. simpl in *.
      destruct (decide (index = j)) as [<-|Hne]; [by exists lk|].
      rewrite list_lookup_insert_ne in Hj by done. by apply (Hlocked j obj).
    - simpl. by apply Forall_insert. }
  destruct Hcases as [(b & s & B & S & _ & _ & _ & _ & _ & -> & _)
                     |(_ & -> & _)]; [|done].
  exact Hput.
Qed.

Lemma match_loop_invariant clock fuel k index :
  keeps invariant (TradingEngine.match_loop clock fuel k index).
Proof.
  revert k. induction fuel as [|fuel IH]; intros k; [by intros e He|].
  cbn [TradingEngine.match_loop]. apply keeps_bind.
  - apply match_pass_invariant.
  - intros []; [apply IH|apply keeps_ret].
Qed.

Lemma match_orders_by_index_invariant clock fuel index :
  keeps invariant (TradingEngine.match_orders_by_index clock fuel index).
Proof.
  unfold TradingEngine.match_orders_by_index. apply keeps_bind.
  - by intros e He.
  - intros ob. destruct (OrderBook.ticker_symbol ob);
      [apply match_loop_invariant|apply keeps_ret].
Qed.

Lemma matchOrder_invariant clock fuel :
  keeps invariant (TradingEngine.matchOrder clock fuel).
Proof.
  intros e He. unfold TradingEngine.matchOrder.
  apply matchOrder_loop_keeps; [|done].
  intros i. apply match_orders_by_index_invariant.
Qed.

Lemma after_invariant e ev : invariant e → invariant (after hash e ev).
Proof.
  intros Hinv. destruct ev; simpl.
  - by apply addOrder_invariant.
  - by apply match_pass_invariant.
  - by apply match_orders_by_index_invariant.
  - by apply matchOrder_invariant.
Qed.

Lemma session_invariant evs : invariant (session hash evs).
Proof.
  unfold session. induction evs as [|ev evs IH] using rev_ind.
  { apply invariant_init. }
  rewrite foldl_app. simpl. by apply after_invariant.
Qed.
End session_facts.

(** ** Isolation of the tickers, when no ticker is empty *)

Lemma mod_offset_inj (h k k' n : nat) :
  k < n → k' < n → (h + k) `mod` n = (h + k') `mod` n → k = k'.
Proof.
  intros Hk Hk' Heq.
  pose proof (Nat.div_mod_eq (h + k) n) as H1.
  pose proof (Nat.div_mod_eq (h + k') n) as H2.
  rewrite Heq in H1.
  set (q1 := (h + k) `div` n) in *. set (q2 := (h + k') `div` n) in *.
  set (r := (h + k') `mod` n) in *. clearbody q1 q2 r.
  assert (q1 = q2) by nia. subst. lia.
Qed.

Lemma tickers_lookup e j ob :
  TradingEngine.order_books e !! j = Some ob →
  tickers e !! j = Some (OrderBook.ticker_symbol ob).
Proof. intros Hob. unfold tickers. by rewrite list_lookup_fmap, Hob. Qed.

Lemma tickers_lookup_inv e j x :
  tickers e !! j = Some x →
  ∃ ob, TradingEngine.order_books e !! j = Some ob
        ∧ OrderBook.ticker_symbol ob = x.
Proof.
  unfold tickers. rewrite list_lookup_fmap.
  destruct (TradingEngine.order_books e !! j) as [ob|]; [|done].
  intros [= <-]. by exists ob.
Qed.

(** A slot whose ticker does not change does not change the directory. *)
Lemma tickers_insert_same e j ob ob' :
  TradingEngine.order_books e !! j = Some ob →
  OrderBook.ticker_symbol ob' = OrderBook.ticker_symbol ob →
  OrderBook.ticker_symbol <$> <[j:=ob']> (TradingEngine.order_books e) = tickers e.
Proof.
  intros Hob Ht. rewrite list_fmap_insert, Ht.
  apply list_insert_id. by apply tickers_lookup.
Qed.

(** The probes of the [for] loop fail up to the one that succeeds. *)
Lemma probe_seq_first sz a n index ticker e j e1 :
  TradingEngine.probe sz (seq a n) index ticker e = (Ok (Some j), e1) →
  ∃ i, a ≤ i < a + n
    ∧ j = (index + i) `mod` sz
    ∧ ∀ i' ob, a ≤ i' < i →
        TradingEngine.order_books e !! ((index + i') `mod` sz) = Some ob →
        TradingEngine.free_or_same ob ticker = false.
Proof.
  revert a. induction n as [|n IH]; intros a; [done|].
  cbn [seq TradingEngine.probe].
  destruct (TradingEngine.order_books e !! ((index + a) `mod` sz))
    as [ob|] eqn:Hob; cycle 1.
  { rewrite (bind_Raise _ _ e IndexError e); [done|].
    unfold TradingEngine.get_order_book, getitem. by rewrite Hob. }
  rewrite (bind_Ok _ _ e ob e)
    by (unfold TradingEngine.get_order_book; by rewrite (getitem_Ok _ _ _ Hob)).
  destruct (TradingEngine.free_or_same ob ticker) eqn:Htest.
  - intros Hrun.
    apply claim_inv in Hrun as (_ & _ & _ & _ & Hr & _). injection Hr as ->.
    exists a. split; [lia|]. split; [done|]. intros i' ob' ?. lia.
  - intros Hrun. destruct (IH (S a) Hrun) as (i & Hi & -> & Hfirst).
    exists i. split; [lia|]. split; [done|]. intros i' ob' Hi' Hob'.
    destruct (decide (i' = a)) as [->|Hne]; [congruence|].
    apply (Hfirst i'); [lia|done].
Qed.

Section isolation_facts.
Variable hash : string → Z.

Lemma home_home_in ticker e :
  home hash ticker e = home_in hash (TradingEngine.size e) ticker.
Proof. reflexivity. Qed.

(** The slot that [ticker_to_index] answers is the first on the probe path
    that is free or of the ticker. *)
Lemma ticker_to_index_first ticker e j e1 :
  TradingEngine.ticker_to_index hash ticker e = (Ok (Some j), e1) →
  ∃ k, k < TradingEngine.size e
    ∧ j = (home hash ticker e + k) `mod` TradingEngine.size e
    ∧ ∀ k' ob, k' < k →
        TradingEngine.order_books e
          !! ((home hash ticker e + k') `mod` TradingEngine.size e) = Some ob →
        TradingEngine.free_or_same ob ticker = false.
Proof.
  unfold TradingEngine.ticker_to_index, home.
  destruct (TradingEngine.size e) as [|n]; [done|].
  set (index := Z.to_nat _).
  assert (index < S n) as Hindex by (unfold index; lia).
  destruct (TradingEngine.order_books e !! index) as [ob|] eqn:Hob; cycle 1.
  { rewrite (bind_Raise _ _ e IndexError e); [done|].
    unfold TradingEngine.get_order_book, getitem. by rewrite Hob. }
  rewrite (bind_Ok _ _ e ob e)
    by (unfold TradingEngine.get_order_book; by rewrite (getitem_Ok _ _ _ Hob)).
  destruct (TradingEngine.free_or_same ob ticker) eqn:Htest.
  - intros Hrun.
    apply claim_inv in Hrun as (_ & _ & _ & _ & Hr & _). injection Hr as ->.
    exists 0. split; [lia|]. split.
    + rewrite Nat.add_0_r. symmetry. by apply Nat.mod_small.
    + intros k' ob' ?. lia.
  - intros Hrun. apply probe_seq_first in Hrun as (i & Hi & -> & Hfirst).
    exists i. split; [lia|]. split; [done|]. intros k' ob' Hk'.
    apply Hfirst. lia.
Qed.

(** A ticker has one slot. *)
Lemma on_path_unique n ts j1 j2 t :
  on_path_in hash n ts →
  ts !! j1 = Some (Some t) → ts !! j2 = Some (Some t) → j1 = j2.
Proof.
  intros Hpath H1 H2.
  destruct (Hpath j1 t H1) as (_ & k1 & Hk1 & -> & Hbefore1).
  destruct (Hpath j2 t H2) as (_ & k2 & Hk2 & -> & Hbefore2).
  destruct (Nat.lt_trichotomy k1 k2) as [Hlt|[->|Hlt]]; [|done|].
  - destruct (Hbefore2 k1 Hlt) as (t' & Ht' & Hne). congruence.
  - destruct (Hbefore1 k2 Hlt) as (t' & Ht' & Hne). congruence.
Qed.

(** Claiming the first slot of the probe path that is free or of the ticker
    keeps the directory as it is meant. *)
Lemma on_path_claim n ts t j k :
  on_path_in hash n ts → t ≠ "" → k < n →
  j = (home_in hash n t + k) `mod` n →
  ts !! j = Some (Some t) ∨ ts !! j = Some None →
  (∀ k', k' < k →
     ∃ t', ts !! ((home_in hash n t + k') `mod` n) = Some (Some t') ∧ t' ≠ t) →
  on_path_in hash n (<[j:=Some t]> ts).
Proof.
  intros Hpath Ht Hk Hj Hold Hbefore j2 t2 H2.
  assert (j < length ts) as Hlen by (destruct Hold; by eapply lookup_lt_Some).
  destruct (decide (j2 = j)) as [->|Hne].
  - rewrite list_lookup_insert_eq in H2 by done. injection H2 as <-.
    split; [done|]. exists k. split; [done|]. split; [done|].
    intros k' Hk'. destruct (Hbefore k' Hk') as (t' & Ht' & Hne).
    exists t'. split; [|done]. rewrite list_lookup_insert_ne; [done|].
    rewrite Hj. intros Heq. apply mod_offset_inj in Heq; lia.
  - rewrite list_lookup_insert_ne in H2 by done.
    destruct (Hpath j2 t2 H2) as (Hne2 & k2 & Hk2 & Hj2 & Hbefore2).
    split; [done|]. exists k2. split; [done|]. split; [done|].
    intros k' Hk'. destruct (Hbefore2 k' Hk') as (t' & Ht' & Hne').
    destruct (decide ((home_in hash n t2 + k') `mod` n = j)) as [Heq|Hneq].
    + rewrite Heq in Ht'. destruct Hold as [Hold|Hold]; [|congruence].
      exists t. split; [|congruence]. rewrite Heq.
      by apply list_lookup_insert_eq.
    + exists t'. split; [|done]. by rewrite list_lookup_insert_ne.
Qed.

(** Resolving a non-empty ticker in a directory as it is meant. *)
Lemma ticker_to_index_on_path ticker e j e1 :
  sized e → on_path hash e → ticker ≠ "" →
  TradingEngine.ticker_to_index hash ticker e = (Ok (Some j), e1) →
  (tickers e !! j = Some (Some ticker) ∨ tickers e !! j = Some None)
  ∧ TradingEngine.size e1 = TradingEngine.size e
  ∧ tickers e1 = <[j:=Some ticker]> (tickers e)
  ∧ on_path hash e1
  ∧ ∀ i, tickers e !! i = Some (Some ticker) → i = j.
Proof.
  intros (Hsz & Hlb & Hll) Hpath Hne Hres.
  destruct (ticker_to_index_first ticker e j e1 Hres) as (k & Hk & Hj & Hfirst).
  destruct (ticker_to_index_inv hash ticker e j e1 Hres)
    as (ob & lk & Hob & Hlk & Htest & ->).
  rewrite home_home_in in Hj, Hfirst.
  assert (tickers e !! j = Some (Some ticker) ∨ tickers e !! j = Some None)
    as Hold.
  { rewrite (tickers_lookup e j ob Hob).
    apply free_or_same_true in Htest as [->|[->|Hempty]]; [by left|by right|].
    destruct (Hpath j "") as [? _]; [|done].
    rewrite (tickers_lookup e j ob Hob). by rewrite Hempty. }
  assert (∀ k', k' < k →
    ∃ t', tickers e !! ((home_in hash (TradingEngine.size e) ticker + k')
                        `mod` TradingEngine.size e) = Some (Some t')
          ∧ t' ≠ ticker) as Hbefore.
  { intros k' Hk'.
    set (p := (home_in hash (TradingEngine.size e) ticker + k')
              `mod` TradingEngine.size e).
    destruct (lookup_lt_is_Some_2 (TradingEngine.order_books e) p) as [ob' Hob'].
    { rewrite Hlb. apply Nat.mod_upper_bound. lia. }
    specialize (Hfirst k' ob' Hk' Hob'). apply not_true_iff_false in Hfirst.
    rewrite free_or_same_true in Hfirst.
    rewrite (tickers_lookup e p ob' Hob').
    destruct (OrderBook.ticker_symbol ob') as [t'|]; [|tauto].
    exists t'. split; [done|]. intros ->. tauto. }
  assert (tickers (claimed j ticker ob e) = <[j:=Some ticker]> (tickers e))
    as Hts by (unfold tickers; simpl; by rewrite list_fmap_insert).
  split_and!; [done|done|done| |].
  - unfold on_path. rewrite Hts. by apply on_path_claim with k.
  - intros i Hi. destruct (Hpath i ticker Hi) as (_ & k0 & Hk0 & -> & Hbefore0).
    rewrite Hj. f_equal.
    destruct (Nat.lt_trichotomy k0 k) as [Hlt|[->|Hlt]]; [|done|].
    + destruct (Hbefore k0 Hlt) as (t' & Ht' & Hne'). congruence.
    + destruct (Hbefore0 k Hlt) as (t' & Ht' & Hne'). rewrite <-Hj in Ht'.
      destruct Hold; congruence.
Qed.

(** Resolving a ticker that has a slot answers that slot and changes no
    ticker. *)
Lemma ticker_to_index_assigned ticker e i :
  sized e → on_path hash e → tickers e !! i = Some (Some ticker) →
  ∃ e1, TradingEngine.ticker_to_index hash ticker e = (Ok (Some i), e1)
    ∧ tickers e1 = tickers e.
Proof.
  intros Hsized Hpath Hi. destruct (Hpath i ticker Hi) as [Hne _].
  destruct (ticker_to_index_spec hash ticker e Hsized)
    as [[_ Hall]|(j & ob & Hob & Htest & Hres)].
  { destruct (tickers_lookup_inv e i _ Hi) as (ob & Hob & Ht).
    specialize (Hall i ob Hob). apply not_true_iff_false in Hall.
    destruct Hall. apply free_or_same_true. auto. }
  destruct (ticker_to_index_on_path ticker e j _ Hsized Hpath Hne Hres)
    as (_ & _ & Hts & _ & Huniq).
  rewrite <-(Huniq i Hi) in *. eexists. split; [done|].
  rewrite Hts. by apply list_insert_id.
Qed.
End isolation_facts.

Section isolation_session.
Variable hash : string → Z.

Lemma isolated_init : isolated hash TradingEngine.__init__.
Proof.
  split_and!.
  - apply invariant_init.
  - apply Forall_replicate. constructor.
  - intros j t Hj. unfold tickers in Hj.
    change (TradingEngine.order_books TradingEngine.__init__)
      with (replicate 1600 OrderBook.__init__) in Hj.
    rewrite fmap_replicate in Hj. by apply lookup_replicate in Hj as [? _].
Qed.

(** A directory with the same tickers is as well on path. *)
Lemma on_path_same e e' :
  TradingEngine.size e' = TradingEngine.size e → tickers e' = tickers e →
  on_path hash e → on_path hash e'.
Proof. unfold on_path. by intros -> ->. Qed.

(** Submitting a non-empty ticker keeps the books pure and the directory on
    path, and moves no ticker. *)
Lemma addOrder_isolated now uid ty ticker q p e :
  ticker ≠ "" → isolated hash e →
  isolated hash (TradingEngine.addOrder hash now uid ty ticker q p e).2
  ∧ ∀ i A, tickers e !! i = Some (Some A) →
      tickers (TradingEngine.addOrder hash now uid ty ticker q p e).2 !! i
      = Some (Some A).
Proof.
  intros Hne (Hinv & Hpure & Hpath).
  pose proof (addOrder_invariant hash now uid ty ticker q p e Hinv) as Hinv'.
  pose proof Hinv as (Hsized & _).
  destruct (number.le q 0 || number.le p 0) eqn:Hvalid.
  { apply orb_true_iff in Hvalid.
    rewrite addOrder_invalid in * by done. split; [by split_and!|done]. }
  destruct (ticker_to_index_spec hash ticker e Hsized)
    as [[Hres _]|(j & ob & Hob & Htest & Hres)].
  { rewrite addOrder_full in * by done. split; [by split_and!|done]. }
  destruct (ticker_to_index_on_path hash ticker e j _ Hsized Hpath Hne Hres)
    as (Hold & _ & Hts & Hpath1 & _).
  destruct (addOrder_resolved hash now uid ty ticker q p e j _ Hvalid Hres)
    as (? & lk & ob' & Hob0 & Hlk & _ & _ & Hadd & Hrun).
  rewrite Hob in Hob0. injection Hob0 as <-.
  destruct (add_order_spec (OrderBook.set_ticker_symbol ob ticker)
    (Order.mk ty ticker p q now uid)) as (? & Hadd' & Ht & Hw & _).
  rewrite Hadd in Hadd'. injection Hadd' as <-.
  rewrite Hrun in *. cbn [snd] in *.
  assert (tickers (TradingEngine.mk (TradingEngine.size e)
            (<[j:=ob']> (TradingEngine.order_books e))
            (<[j:=Some RLock_new]> (TradingEngine.trade_locks e))
            (TradingEngine.matches e))
          = <[j:=Some ticker]> (tickers e)) as Hts'.
  { unfold tickers. simpl. by rewrite list_fmap_insert, Ht. }
  split; [split_and!|].
  - done.
  - unfold pure. simpl. apply Forall_insert; [done|].
    unfold pure_book. rewrite (holds_with_resting _ _ _ _ Hw), Ht.
    constructor; [done|].
    pose proof (Forall_lookup_1 _ _ _ _ Hpure Hob) as Hpob.
    unfold pure_book in Hpob.
    rewrite (tickers_lookup e j ob Hob) in Hold.
    eapply Forall_impl; [exact Hpob|]. intros o Ho. simpl in *.
    destruct Hold as [Hold|Hold]; congruence.
  - unfold on_path. rewrite Hts'. simpl. rewrite <-Hts. exact Hpath1.
  - intros i A Hi. rewrite Hts'.
    destruct (decide (j = i)) as [->|Hji].
    + rewrite list_lookup_insert_eq by (by eapply lookup_lt_Some).
      destruct Hold; congruence.
    + by rewrite list_lookup_insert_ne.
Qed.

(** Matching changes no ticker and keeps the books pure. *)
Lemma match_pass_isolated now index n ts :
  keeps (λ e, invariant e ∧ pure e
              ∧ TradingEngine.size e = n ∧ tickers e = ts)
    (TradingEngine.match_pass now index).
Proof.
  intros e (Hinv & Hpure & Hsize & Hts).
  pose proof (match_pass_invariant now index e Hinv) as Hinv'.
  destruct (match_pass_raises now index e) as [(ob & lk & Hob & Hlk)|[x Hrun]];
    [|by rewrite Hrun in *].
  pose proof (Forall_lookup_1 _ _ _ _ Hpure Hob) as Hpob.
  unfold pure_book in Hpob.
  destruct (match_pass_spec now index e ob lk Hob Hlk)
    as (ob' & Ht & _ & _
        & [(b & s & Hcross & Hrun & Hset)|(_ & Hrun & Hr & _)]);
    rewrite Hrun in *; cbn [snd] in *.
  - split_and!; [done| |done|].
    + unfold pure. simpl. apply Forall_insert; [done|].
      destruct Hcross as (Hb & Hs & _).
      rewrite get_best_buy_head in Hb. rewrite get_best_sell_head in Hs.
      assert (OrderBook.ticker_symbol ob = Some (Order.ticker_symbol b)
              ∧ OrderBook.ticker_symbol ob = Some (Order.ticker_symbol s)
              ∧ Forall (λ o, OrderBook.ticker_symbol ob
                             = Some (Order.ticker_symbol o))
                  (tail (OrderBook.buy_orders ob)
                   ++ tail (OrderBook.sell_orders ob))) as (Htb & Hts' & Hrest).
      { unfold resting in Hpob. apply Forall_app in Hpob as [HB HS].
        destruct (OrderBook.buy_orders ob), (OrderBook.sell_orders ob);
          simplify_eq/=.
        apply Forall_cons in HB as [? ?]. apply Forall_cons in HS as [? ?].
        split_and!; [done..|]. by apply Forall_app. }
      unfold pure_book. rewrite Ht. unfold settled in Hset.
      destruct (number.gt (Order.quantity b) (Order.quantity s)).
      { rewrite (holds_with_resting _ _ _ _ Hset). by constructor. }
      destruct (number.lt (Order.quantity b) (Order.quantity s)).
      { rewrite (holds_with_resting _ _ _ _ Hset). by constructor. }
      destruct Hset as [HB HS]. unfold resting. by rewrite HB, HS.
    + unfold tickers. simpl. rewrite <-Hts. by apply tickers_insert_same with ob.
  - split_and!; [done| |done|].
    + unfold pure. simpl. apply Forall_insert; [done|].
      unfold pure_book. by rewrite Hr, Ht.
    + unfold tickers. simpl. rewrite <-Hts. by apply tickers_insert_same with ob.
Qed.

Lemma match_loop_isolated clock fuel k index n ts :
  keeps (λ e, invariant e ∧ pure e
              ∧ TradingEngine.size e = n ∧ tickers e = ts)
    (TradingEngine.match_loop clock fuel k index).
Proof.
  revert k. induction fuel as [|fuel IH]; intros k; [by intros e He|].
  cbn [TradingEngine.match_loop]. apply keeps_bind.
  - apply match_pass_isolated.
  - intros []; [apply IH|apply keeps_ret].
Qed.

Lemma match_orders_by_index_isolated clock fuel index n ts :
  keeps (λ e, invariant e ∧ pure e
              ∧ TradingEngine.size e = n ∧ tickers e = ts)
    (TradingEngine.match_orders_by_index clock fuel index).
Proof.
  unfold TradingEngine.match_orders_by_index. apply keeps_bind.
  - by intros e He.
  - intros ob. destruct (OrderBook.ticker_symbol ob);
      [apply match_loop_isolated|apply keeps_ret].
Qed.

Lemma matchOrder_isolated clock fuel n ts :
  keeps (λ e, invariant e ∧ pure e
              ∧ TradingEngine.size e = n ∧ tickers e = ts)
    (TradingEngine.matchOrder clock fuel).
Proof.
  intros e He. unfold TradingEngine.matchOrder.
  apply (matchOrder_loop_keeps
           (λ e, invariant e ∧ pure e
                 ∧ TradingEngine.size e = n ∧ tickers e = ts)); [|done].
  intros i. apply match_orders_by_index_isolated.
Qed.

(** An event that submits no empty ticker keeps the engine isolated and
    moves no ticker. *)
Lemma after_isolated e ev :
  nonempty_ticker ev → isolated hash e →
  isolated hash (after hash e ev)
  ∧ ∀ i A, tickers e !! i = Some (Some A) →
      tickers (after hash e ev) !! i = Some (Some A).
Proof.
  intros Hev Hiso.
  destruct ev as [now uid ty ticker q p|now index|clock fuel index|clock fuel];
    simpl in *; [by apply addOrder_isolated|..].
  all: destruct Hiso as (Hinv & Hpure & Hpath).
  - destruct (match_pass_isolated now index (TradingEngine.size e) (tickers e) e)
      as (? & ? & Hsz & Hts);
      [done|].
    split; [split_and!; [done..|by apply on_path_same with e]|].
    intros i A. by rewrite Hts.
  - destruct (match_orders_by_index_isolated clock fuel index
                (TradingEngine.size e) (tickers e) e)
      as (? & ? & Hsz & Hts); [done|].
    split; [split_and!; [done..|by apply on_path_same with e]|].
    intros i A. by rewrite Hts.
  - destruct (matchOrder_isolated clock fuel (TradingEngine.size e) (tickers e) e)
      as (? & ? & Hsz & Hts);
      [done|].
    split; [split_and!; [done..|by apply on_path_same with e]|].
    intros i A. by rewrite Hts.
Qed.

Lemma session_isolated evs :
  Forall nonempty_ticker evs → isolated hash (session hash evs).
Proof.
  unfold session. induction evs as [|ev evs IH] using rev_ind.
  { intros _. apply isolated_init. }
  intros [Hevs Hev]%Forall_app. apply Forall_cons in Hev as [Hev _].
  rewrite foldl_app. simpl. by apply after_isolated, IH.
Qed.

Lemma session_ticker_stays evs evs' i A :
  Forall nonempty_ticker evs → Forall nonempty_ticker evs' →
  tickers (session hash evs) !! i = Some (Some A) →
  tickers (session hash (evs ++ evs')) !! i = Some (Some A).
Proof.
  intros Hevs. induction evs' as [|ev evs' IH] using rev_ind.
  { intros _. by rewrite app_nil_r. }
  intros [Hevs' Hev]%Forall_app Hi. apply Forall_cons in Hev as [Hev _].
  rewrite (assoc_L (++)). unfold session. rewrite foldl_app. simpl.
  apply after_isolated; [done| |by apply IH].
  apply session_isolated. by apply Forall_app.
Qed.

(** The directory isolates the tickers along every session that submits no
    empty ticker: resting orders carry the ticker of their book, a ticker has
    one slot, resolving it again answers that slot, and it keeps that slot
    whatever follows. *)
Lemma directory_isolation_nonempty evs :
  Forall nonempty_ticker evs →
  (∀ ob o, ob ∈ TradingEngine.order_books (session hash evs) →
     o ∈ resting ob →
     OrderBook.ticker_symbol ob = Some (Order.ticker_symbol o))
  ∧ (∀ i j A, tickers (session hash evs) !! i = Some (Some A) →
       tickers (session hash evs) !! j = Some (Some A) → i = j)
  ∧ (∀ i A, tickers (session hash evs) !! i = Some (Some A) →
       (TradingEngine.ticker_to_index hash A (session hash evs)).1 = Ok (Some i))
  ∧ (∀ evs' i A, Forall nonempty_ticker evs' →
       tickers (session hash evs) !! i = Some (Some A) →
       tickers (session hash (evs ++ evs')) !! i = Some (Some A)).
Proof.
  intros Hevs.
  destruct (session_isolated evs Hevs) as ((Hsized & _) & Hpure & Hpath).
  split_and!.
  - intros ob o Hob Ho.
    pose proof (proj1 (Forall_forall _ _) Hpure ob Hob) as Hall.
    exact (proj1 (Forall_forall _ _) Hall o Ho).
  - intros i j A. exact (on_path_unique hash _ _ i j A Hpath).
  - intros i A Hi.
    destruct (ticker_to_index_assigned hash A _ i Hsized Hpath Hi) as (e1 & -> & _).
    done.
  - intros evs' i A Hevs'. by apply session_ticker_stays.
Qed.
End isolation_session.

(** * More properties of the code *)

(** ** Comparison of orders and the two heaps of a book *)

(** An order whose price is NaN is before no order and has no order before
    it: [!=] holds of NaN and anything, [>] and [<] never do, and the
    timestamps are not looked at. *)
Lemma lt_nan_price a b :
  Order.price a = number.NaN ∨ Order.price b = number.NaN →
  Order.__lt__ a b = false.
Proof.
  unfold Order.__lt__. intros [Ha|Hb].
  - rewrite Ha. by destruct (Order.order_type a).
  - rewrite Hb. by destruct (Order.order_type a), (Order.price a).
Qed.

(** X1: among orders of one side whose prices are numbers, [__lt__] is a
    strict weak order: no order is before itself, two orders are never each
    before the other, "before" is transitive, and so is "not before"; two
    orders neither of which is before the other have the same price and the
    same timestamp.  (A price that is NaN is before no order and has no order
    before it, whatever the timestamps: see [lt_nan_price].) *)
Theorem X1_lt_strict_weak_order a b c :
  priced a → priced b → priced c →
  Order.order_type a = Order.order_type b →
  Order.order_type b = Order.order_type c →
  Order.__lt__ a a = false
  ∧ (Order.__lt__ a b = true → Order.__lt__ b a = false)
  ∧ (Order.__lt__ a b = true → Order.__lt__ b c = true → Order.__lt__ a c = true)
  ∧ (Order.__lt__ b a = false → Order.__lt__ c b = false →
     Order.__lt__ c a = false)
  ∧ (Order.__lt__ a b = false → Order.__lt__ b a = false →
     Order.price a = Order.price b ∧ Order.timestamp a = Order.timestamp b).
Proof.
  intros [pa Ha] [pb Hb] [pc Hc] Hab Hbc. unfold Order.__lt__.
  rewrite <-Hbc, <-Hab, Ha, Hb, Hc.
  destruct (Order.order_type a); simpl; repeat case_match;
    split_and?; intros; split_and?; try lia; f_equal; lia.
Qed.

Lemma X1_lt_strict_weak_order_witness :
  Order.__lt__ demo_buy demo_buy = false
  ∧ (Order.__lt__ demo_buy (Order.mk BUY "X" 50 10 3 2%N) = true →
     Order.__lt__ (Order.mk BUY "X" 50 10 3 2%N) demo_buy = false)
  ∧ (Order.__lt__ demo_buy (Order.mk BUY "X" 50 10 3 2%N) = true →
     Order.__lt__ (Order.mk BUY "X" 50 10 3 2%N) (Order.mk BUY "X" 48 10 1 3%N)
     = true →
     Order.__lt__ demo_buy (Order.mk BUY "X" 48 10 1 3%N) = true)
  ∧ (Order.__lt__ (Order.mk BUY "X" 50 10 3 2%N) demo_buy = false →
     Order.__lt__ (Order.mk BUY "X" 48 10 1 3%N) (Order.mk BUY "X" 50 10 3 2%N)
     = false →
     Order.__lt__ (Order.mk BUY "X" 48 10 1 3%N) demo_buy = false)
  ∧ (Order.__lt__ demo_buy (Order.mk BUY "X" 50 10 3 2%N) = false →
     Order.__lt__ (Order.mk BUY "X" 50 10 3 2%N) demo_buy = false →
     Order.price demo_buy = Order.price (Order.mk BUY "X" 50 10 3 2%N)
     ∧ Order.timestamp demo_buy
       = Order.timestamp (Order.mk BUY "X" 50 10 3 2%N)).
Proof.
  apply (X1_lt_strict_weak_order demo_buy (Order.mk BUY "X" 50 10 3 2%N)
           (Order.mk BUY "X" 48 10 1 3%N));
    first [reflexivity|by eexists].
Defined.

(** X2: [add_order] always returns; a BUY order joins the bids, any other
    order the asks, and the other side and the ticker of the book are left
    as they were. *)
Theorem X2_add_order_routes ob o :
  ∃ ob', OrderBook.add_order ob o = Ok ob'
    ∧ OrderBook.ticker_symbol ob' = OrderBook.ticker_symbol ob
    ∧ match Order.order_type o with
      | BUY =>
          OrderBook.buy_orders ob' ≡ₚ o :: OrderBook.buy_orders ob
          ∧ OrderBook.sell_orders ob' = OrderBook.sell_orders ob
      | SELL =>
          OrderBook.buy_orders ob' = OrderBook.buy_orders ob
          ∧ OrderBook.sell_orders ob' ≡ₚ o :: OrderBook.sell_orders ob
      end.
Proof.
  unfold OrderBook.add_order. destruct (Order.order_type o).
  - destruct (heappush_perm Order.__lt__ (OrderBook.buy_orders ob) o)
      as (h & -> & Hp).
    by eexists.
  - destruct (heappush_perm Order.__lt__ (OrderBook.sell_orders ob) o)
      as (h & -> & Hp).
    by eexists.
Qed.

(** X3: [pop_best_buy] returns what [get_best_buy] shows and removes that
    order and no other from the bids; on an empty bid side it returns [None]
    and the book is unchanged; the asks and the ticker are never touched.
    The same holds of [pop_best_sell] on the asks. *)
Theorem X3_pop_returns_peek ob :
  (∃ ob', OrderBook.pop_best_buy ob = Ok (OrderBook.get_best_buy ob, ob')
     ∧ OrderBook.buy_orders ob
       ≡ₚ option_list (OrderBook.get_best_buy ob) ++ OrderBook.buy_orders ob'
     ∧ OrderBook.sell_orders ob' = OrderBook.sell_orders ob
     ∧ OrderBook.ticker_symbol ob' = OrderBook.ticker_symbol ob
     ∧ (OrderBook.buy_orders ob = [] →
        OrderBook.get_best_buy ob = None ∧ ob' = ob))
  ∧ (∃ ob', OrderBook.pop_best_sell ob = Ok (OrderBook.get_best_sell ob, ob')
       ∧ OrderBook.sell_orders ob
         ≡ₚ option_list (OrderBook.get_best_sell ob) ++ OrderBook.sell_orders ob'
       ∧ OrderBook.buy_orders ob' = OrderBook.buy_orders ob
       ∧ OrderBook.ticker_symbol ob' = OrderBook.ticker_symbol ob
       ∧ (OrderBook.sell_orders ob = [] →
          OrderBook.get_best_sell ob = None ∧ ob' = ob)).
Proof.
  split.
  - rewrite get_best_buy_head. unfold OrderBook.pop_best_buy.
    destruct (OrderBook.buy_orders ob) as [|b B] eqn:E.
    { exists ob. rewrite E. by split_and!. }
    destruct (heappop_perm Order.__lt__ b B) as (h & -> & Hp).
    eexists. split_and!; [done|simpl; by rewrite Hp|done..].
  - rewrite get_best_sell_head. unfold OrderBook.pop_best_sell.
    destruct (OrderBook.sell_orders ob) as [|b B] eqn:E.
    { exists ob. rewrite E. by split_and!. }
    destruct (heappop_perm Order.__lt__ b B) as (h & -> & Hp).
    eexists. split_and!; [done|simpl; by rewrite Hp|done..].
Qed.

(** X4: on a book whose sides are heaps of orders of their side with prices
    that are numbers, adding an order whose price is a number and popping
    either side leave such a book, and the order popped ranks first by price
    and time before every order left on its side. *)
Theorem X4_heap_discipline ob o :
  heap_book ob → priced o →
  (∃ ob', OrderBook.add_order ob o = Ok ob' ∧ heap_book ob')
  ∧ (∃ ob', OrderBook.pop_best_buy ob = Ok (OrderBook.get_best_buy ob, ob')
       ∧ heap_book ob'
       ∧ ∀ b, OrderBook.get_best_buy ob = Some b →
           ∀ o', o' ∈ OrderBook.buy_orders ob' → buy_priority b o')
  ∧ (∃ ob', OrderBook.pop_best_sell ob = Ok (OrderBook.get_best_sell ob, ob')
       ∧ heap_book ob'
       ∧ ∀ s, OrderBook.get_best_sell ob = Some s →
           ∀ o', o' ∈ OrderBook.sell_orders ob' → sell_priority s o').
Proof.
  intros Hheap Hpo. split_and!.
  - destruct (add_order_spec ob o) as (ob' & Hadd & _ & _ & _ & Hh). eauto.
  - destruct (pop_best_buy_spec ob) as (ob' & Hpop & _ & Hp & _ & _ & Hh).
    exists ob'. split_and!; [done|by apply Hh|].
    intros b Hb o' Ho'.
    destruct (heap_book_best_buy ob b Hheap Hb) as [_ Hbest]. apply Hbest.
    rewrite Hp in Ho'. rewrite get_best_buy_head in Hb.
    destruct (OrderBook.buy_orders ob); simplify_eq/=. by right.
  - destruct (pop_best_sell_spec ob) as (ob' & Hpop & _ & _ & Hp & _ & Hh).
    exists ob'. split_and!; [done|by apply Hh|].
    intros s Hs o' Ho'.
    destruct (heap_book_best_sell ob s Hheap Hs) as [_ Hbest]. apply Hbest.
    rewrite Hp in Ho'. rewrite get_best_sell_head in Hs.
    destruct (OrderBook.sell_orders ob); simplify_eq/=. by right.
Qed.

Lemma X4_heap_discipline_witness :
  (∃ ob', OrderBook.add_order demo_book (Order.mk BUY "X" 52 10 3 2%N) = Ok ob'
     ∧ heap_book ob')
  ∧ (∃ ob', OrderBook.pop_best_buy demo_book
            = Ok (OrderBook.get_best_buy demo_book, ob')
       ∧ heap_book ob'
       ∧ ∀ b, OrderBook.get_best_buy demo_book = Some b →
           ∀ o', o' ∈ OrderBook.buy_orders ob' → buy_priority b o')
  ∧ (∃ ob', OrderBook.pop_best_sell demo_book
            = Ok (OrderBook.get_best_sell demo_book, ob')
       ∧ heap_book ob'
       ∧ ∀ s, OrderBook.get_best_sell demo_book = Some s →
           ∀ o', o' ∈ OrderBook.sell_orders ob' → sell_priority s o').
Proof.
  apply (X4_heap_discipline demo_book (Order.mk BUY "X" 52 10 3 2%N));
    [|by eexists].
  split_and!.
  - split; by repeat constructor.
  - repeat constructor; by eexists.
  - intros [|i] c p Hi Hc; first [lia|done].
  - intros [|i] c p Hi Hc; first [lia|done].
Defined.

(** ** From one pass to the loops *)

Section closure.
Context (I : TradingEngine.t → Prop) (R : TradingEngine.t → TradingEngine.t → Prop).
Hypothesis R_refl : ∀ e, R e e.
Hypothesis R_trans : ∀ e1 e2 e3, R e1 e2 → R e2 e3 → R e1 e3.

Lemma match_loop_closed index clock fuel :
  pass_closed I R index →
  ∀ k e, I e →
    I (TradingEngine.match_loop clock fuel k index e).2
    ∧ R e (TradingEngine.match_loop clock fuel k index e).2.
Proof.
  intros Hpass. induction fuel as [|fuel IH]; intros k e He; [by split|].
  cbn [TradingEngine.match_loop].
  unfold mbind, TradingEngine.M_bind, TradingEngine.bind.
  destruct (Hpass (clock k) e He) as [HI HR].
  destruct (TradingEngine.match_pass (clock k) index e) as [[[]| |] e1];
    simpl in *; [|by split..].
  destruct (IH (S k) e1 HI) as [HI' HR']. split; [done|by eapply R_trans].
Qed.

Lemma match_orders_by_index_closed index clock fuel :
  pass_closed I R index →
  ∀ e, I e →
    I (TradingEngine.match_orders_by_index clock fuel index e).2
    ∧ R e (TradingEngine.match_orders_by_index clock fuel index e).2.
Proof.
  intros Hpass e He. unfold TradingEngine.match_orders_by_index.
  unfold mbind, TradingEngine.M_bind, TradingEngine.bind,
    TradingEngine.get_order_book.
  destruct (getitem (TradingEngine.order_books e) index) as [ob| |];
    [|by split..].
  destruct (OrderBook.ticker_symbol ob); [|by split].
  by apply match_loop_closed.
Qed.

Lemma matchOrder_loop_closed clock fuel range :
  (∀ index, pass_closed I R index) →
  ∀ e, I e →
    I (TradingEngine.matchOrder_loop clock fuel range e).2
    ∧ R e (TradingEngine.matchOrder_loop clock fuel range e).2.
Proof.
  intros Hpass. induction range as [|i range IH]; intros e He; [by split|].
  cbn [TradingEngine.matchOrder_loop].
  unfold mbind, TradingEngine.M_bind, TradingEngine.bind.
  destruct (match_orders_by_index_closed i (clock i) fuel (Hpass i) e He)
    as [HI HR].
  destruct (TradingEngine.match_orders_by_index (clock i) fuel i e)
    as [[[]| |] e1]; simpl in *; [|by split..].
  destruct (IH e1 HI) as [HI' HR']. split; [done|by eapply R_trans].
Qed.

Lemma matchOrder_closed clock fuel :
  (∀ index, pass_closed I R index) →
  ∀ e, I e →
    I (TradingEngine.matchOrder clock fuel e).2
    ∧ R e (TradingEngine.matchOrder clock fuel e).2.
Proof. intros Hpass e He. by apply matchOrder_loop_closed. Qed.
End closure.

(** ** The directory of slots *)

Section directory_more.
Variable hash : string → Z.

(** [ticker_to_index] answers the first slot of the probe path that passes
    its test, or [None] when no slot does. *)
Lemma ticker_to_index_first_fit ticker e :
  sized e →
  ((∀ j ob, TradingEngine.order_books e !! j = Some ob →
      TradingEngine.free_or_same ob ticker = false)
   ∧ TradingEngine.ticker_to_index hash ticker e = (Ok None, e))
  ∨ ∃ k ob,
      k < TradingEngine.size e
      ∧ TradingEngine.order_books e
          !! ((home hash ticker e + k) `mod` TradingEngine.size e) = Some ob
      ∧ TradingEngine.free_or_same ob ticker = true
      ∧ (∀ k' ob', k' < k →
           TradingEngine.order_books e
             !! ((home hash ticker e + k') `mod` TradingEngine.size e) = Some ob' →
           TradingEngine.free_or_same ob' ticker = false)
      ∧ TradingEngine.ticker_to_index hash ticker e
        = (Ok (Some ((home hash ticker e + k) `mod` TradingEngine.size e)),
           claimed ((home hash ticker e + k) `mod` TradingEngine.size e)
             ticker ob e).
Proof.
  intros Hsized.
  destruct (ticker_to_index_spec hash ticker e Hsized)
    as [[Hres Hall]|(j & ob & Hob & Htest & Hres)]; [by left|right].
  destruct (ticker_to_index_first hash ticker e j _ Hres) as (k & Hk & -> & Hmin).
  exists k, ob. by split_and!.
Qed.

Lemma claimed_sized j ticker ob e : sized e → sized (claimed j ticker ob e).
Proof.
  intros (? & ? & ?). split_and!; simpl; [done|by rewrite length_insert..].
Qed.

Lemma claimed_again j ticker ob e :
  claimed j ticker (OrderBook.set_ticker_symbol ob ticker) (claimed j ticker ob e)
  = claimed j ticker ob e.
Proof.
  unfold claimed. simpl. by rewrite !list_insert_insert_eq.
Qed.

Lemma ticker_to_index_again ticker e j e1 :
  sized e →
  TradingEngine.ticker_to_index hash ticker e = (Ok (Some j), e1) →
  TradingEngine.ticker_to_index hash ticker e1 = (Ok (Some j), e1).
Proof.
  intros Hsized Hres.
  destruct (ticker_to_index_first_fit ticker e Hsized)
    as [[_ Hnone]|(k & ob & Hk & Hob & Htest & Hmin & Hrun)]; [congruence|].
  rewrite Hres in Hrun. injection Hrun as -> ->.
  set (n := TradingEngine.size e) in *. set (h := home hash ticker e) in *.
  set (j := (h + k) `mod` n) in *. set (e1 := claimed j ticker ob e).
  assert (j < length (TradingEngine.order_books e)) as Hj
    by (by eapply lookup_lt_Some).
  assert (TradingEngine.order_books e1 !! j
          = Some (OrderBook.set_ticker_symbol ob ticker)) as Hob1
    by (by apply list_lookup_insert_eq).
  destruct (ticker_to_index_first_fit ticker e1 (claimed_sized j ticker ob e Hsized))
    as [[Hall _]|(k1 & ob1 & Hk1 & Hob1' & Htest1 & Hmin1 & Hrun1)].
  { specialize (Hall j _ Hob1). unfold TradingEngine.free_or_same in Hall.
    simpl in Hall. rewrite bool_decide_eq_true_2 in Hall; done. }
  change (TradingEngine.size e1) with n in *.
  change (home hash ticker e1) with h in *.
  assert (k1 = k) as ->.
  { destruct (Nat.lt_trichotomy k1 k) as [Hlt|[->|Hgt]]; [|done|].
    - assert ((h + k1) `mod` n ≠ j) as Hne.
      { intros Heq. apply mod_offset_inj in Heq; lia. }
      unfold e1 in Hob1'. simpl in Hob1'.
      rewrite list_lookup_insert_ne in Hob1' by done.
      rewrite (Hmin k1 ob1 Hlt Hob1') in Htest1. done.
    - specialize (Hmin1 k _ Hgt Hob1). unfold TradingEngine.free_or_same in Hmin1.
      simpl in Hmin1. rewrite bool_decide_eq_true_2 in Hmin1; done. }
  fold j in Hob1', Hrun1. rewrite Hob1 in Hob1'. injection Hob1' as <-.
  rewrite Hrun1. unfold e1. by rewrite claimed_again.
Qed.

(** X5: on an engine whose arrays have [size] entries, [ticker_to_index]
    walks the slots from the home slot of the ticker, modulo [size], and
    answers the first one whose ticker is the requested one, unset or
    empty: that slot gets the ticker and a lock and nothing else changes.
    When no slot at all passes the test it answers [None] and changes
    nothing. *)
Theorem X5_ticker_to_index_first_fit ticker e :
  sized e →
  (Forall (λ ob, TradingEngine.free_or_same ob ticker = false)
     (TradingEngine.order_books e)
   ∧ TradingEngine.ticker_to_index hash ticker e = (Ok None, e))
  ∨ ∃ k ob,
      k < TradingEngine.size e
      ∧ TradingEngine.order_books e
          !! ((home hash ticker e + k) `mod` TradingEngine.size e) = Some ob
      ∧ TradingEngine.free_or_same ob ticker = true
      ∧ (∀ k' ob', k' < k →
           TradingEngine.order_books e
             !! ((home hash ticker e + k') `mod` TradingEngine.size e) = Some ob' →
           TradingEngine.free_or_same ob' ticker = false)
      ∧ TradingEngine.ticker_to_index hash ticker e
        = (Ok (Some ((home hash ticker e + k) `mod` TradingEngine.size e)),
           TradingEngine.mk (TradingEngine.size e)
             (<[(home hash ticker e + k) `mod` TradingEngine.size e :=
                  OrderBook.mk (Some ticker) (OrderBook.buy_orders ob)
                    (OrderBook.sell_orders ob)]> (TradingEngine.order_books e))
             (<[(home hash ticker e + k) `mod` TradingEngine.size e :=
                  Some RLock_new]> (TradingEngine.trade_locks e))
             (TradingEngine.matches e)).
Proof.
  intros Hsized.
  destruct (ticker_to_index_first_fit ticker e Hsized)
    as [[Hall Hnone]|(k & ob & H)]; [left|right; by exists k, ob].
  split; [|done]. apply Forall_lookup. exact Hall.
Qed.

(** X6: resolving a ticker a second time answers the same slot and changes
    nothing more. *)
Theorem X6_ticker_to_index_idempotent ticker e j e1 :
  sized e →
  TradingEngine.ticker_to_index hash ticker e = (Ok (Some j), e1) →
  TradingEngine.ticker_to_index hash ticker e1 = (Ok (Some j), e1)
  ∧ ∃ ob, TradingEngine.order_books e1 !! j = Some ob
      ∧ OrderBook.ticker_symbol ob = Some ticker
      ∧ TradingEngine.trade_locks e1 !! j = Some (Some RLock_new).
Proof.
  intros Hsized Hres. split; [by eapply ticker_to_index_again|].
  destruct (ticker_to_index_inv hash ticker e j e1 Hres)
    as (ob & lk & Hob & Hlk & _ & ->).
  exists (OrderBook.set_ticker_symbol ob ticker). split_and!; [|done|].
  - apply list_lookup_insert_eq. by eapply lookup_lt_Some.
  - apply list_lookup_insert_eq. by eapply lookup_lt_Some.
Qed.

(** X7: the outcomes of [addOrder] on an engine whose arrays have [size]
    entries.  It raises [ValueError] exactly when the test of its first line
    holds, [quantity <= 0 or price <= 0] (which is false of a NaN), and the
    [TypeError] of indexing with [None] exactly when that test fails and
    every slot carries a non-empty ticker other than the one submitted;
    either way the engine is left untouched.  Otherwise it returns the id of
    the order, and the resting orders are those of before and the new order;
    the ledger is not touched. *)
Theorem X7_addOrder_outcomes now uid ty ticker q p e :
  sized e →
  let r := TradingEngine.addOrder hash now uid ty ticker q p e in
  (r = (Raise ValueError, e) ↔ number.le q 0 = true ∨ number.le p 0 = true)
  ∧ (r = (Raise TypeError, e) ↔
     validated q p
     ∧ Forall (λ ob, ∃ t, OrderBook.ticker_symbol ob = Some t ∧ t ≠ "" ∧ t ≠ ticker)
         (TradingEngine.order_books e))
  ∧ (r.1 = Ok uid ↔
     validated q p
     ∧ Exists (λ ob, OrderBook.ticker_symbol ob = Some ticker
                     ∨ OrderBook.ticker_symbol ob = None
                     ∨ OrderBook.ticker_symbol ob = Some "")
         (TradingEngine.order_books e))
  ∧ (r.1 = Ok uid ∨ r.2 = e)
  ∧ (r.1 = Ok uid →
     TradingEngine.size r.2 = TradingEngine.size e
     ∧ TradingEngine.matches r.2 = TradingEngine.matches e
     ∧ resting_orders r.2 ≡ₚ Order.mk ty ticker p q now uid :: resting_orders e).
Proof.
  intros Hsized r.
  assert (∀ ob, TradingEngine.free_or_same ob ticker = false ↔
    ∃ t, OrderBook.ticker_symbol ob = Some t ∧ t ≠ "" ∧ t ≠ ticker) as Hfalse.
  { intros ob. rewrite <-not_true_iff_false, free_or_same_true.
    destruct (OrderBook.ticker_symbol ob) as [t|]; cycle 1.
    { split; [intros Hn; exfalso; apply Hn; auto|intros (t & Ht & _); done]. }
    split.
    - intros Hn. exists t. split_and!; [done|..]; intros Heq; apply Hn;
        rewrite Heq; auto.
    - intros (t' & Ht' & Hne & Hnt) [Hs|[Hs|Hs]]; congruence. }
  destruct (addOrder_cases hash now uid ty ticker q p e Hsized)
    as [[Hbad Hrun]|[(Hv & Hall & Hrun)
                    |(Hv & j & ob & lk & ob' & Hob & Hlk & Htest & _ & Hadd & Hrun)]];
    subst r; rewrite Hrun; cbn [fst snd].
  - split_and!; [done| | |by right|done].
    + split; [done|]. intros [Hv _]. by destruct (validated_not q p Hv).
    + split; [done|]. intros [Hv _]. by destruct (validated_not q p Hv).
  - split_and!; [|split; [intros _|done]| |by right|done].
    + split; [done|]. intros Hbad. by destruct (validated_not q p Hv).
    + split; [done|]. apply Forall_lookup. intros i ob Hob.
      apply Hfalse. by eapply Hall.
    + split; [done|]. intros (_ & (ob & Hin & Hex)%Exists_exists).
      apply list_elem_of_lookup in Hin as [i Hi].
      apply free_or_same_true in Hex. by rewrite (Hall i ob Hi) in Hex.
  - split_and!; [| | |by left|intros _].
    + split; [done|]. intros Hbad. by destruct (validated_not q p Hv).
    + split; [done|]. intros (_ & Hall).
      pose proof (Forall_lookup_1 _ _ _ _ Hall Hob) as Hex.
      apply Hfalse in Hex. congruence.
    + split; [intros _|done]. split; [done|].
      apply Exists_exists. exists ob. split; [by eapply list_elem_of_lookup_2|].
      by apply free_or_same_true.
    + split_and!; [done..|]. unfold resting_orders. simpl.
      apply (resting_orders_insert _ j ob ob' [Order.mk ty ticker p q now uid] Hob).
      destruct (add_order_spec (OrderBook.set_ticker_symbol ob ticker)
        (Order.mk ty ticker p q now uid)) as (? & Hadd' & _ & Hw & _).
      rewrite Hadd in Hadd'. injection Hadd' as <-.
      exact (holds_with_resting _ _ _ _ Hw).
Qed.

End directory_more.

Lemma X5_ticker_to_index_first_fit_witness :
  (Forall (λ ob, TradingEngine.free_or_same ob "X" = false)
     (TradingEngine.order_books demo_bid_only)
   ∧ TradingEngine.ticker_to_index demo_hash "X" demo_bid_only
     = (Ok None, demo_bid_only))
  ∨ ∃ k ob,
      k < TradingEngine.size demo_bid_only
      ∧ TradingEngine.order_books demo_bid_only
          !! ((home demo_hash "X" demo_bid_only + k)
              `mod` TradingEngine.size demo_bid_only) = Some ob
      ∧ TradingEngine.free_or_same ob "X" = true
      ∧ (∀ k' ob', k' < k →
           TradingEngine.order_books demo_bid_only
             !! ((home demo_hash "X" demo_bid_only + k')
                 `mod` TradingEngine.size demo_bid_only) = Some ob' →
           TradingEngine.free_or_same ob' "X" = false)
      ∧ TradingEngine.ticker_to_index demo_hash "X" demo_bid_only
        = (Ok (Some ((home demo_hash "X" demo_bid_only + k)
                     `mod` TradingEngine.size demo_bid_only)),
           TradingEngine.mk (TradingEngine.size demo_bid_only)
             (<[(home demo_hash "X" demo_bid_only + k)
                `mod` TradingEngine.size demo_bid_only :=
                  OrderBook.mk (Some "X") (OrderBook.buy_orders ob)
                    (OrderBook.sell_orders ob)]>
                (TradingEngine.order_books demo_bid_only))
             (<[(home demo_hash "X" demo_bid_only + k)
                `mod` TradingEngine.size demo_bid_only :=
                  Some RLock_new]> (TradingEngine.trade_locks demo_bid_only))
             (TradingEngine.matches demo_bid_only)).
Proof.
  apply (X5_ticker_to_index_first_fit demo_hash "X" demo_bid_only).
  split_and!; [simpl; lia|reflexivity|reflexivity].
Defined.

Lemma X6_ticker_to_index_idempotent_witness :
  TradingEngine.ticker_to_index demo_hash "X" demo_bid_only = (Ok (Some 1), demo_bid_only)
  ∧ ∃ ob, TradingEngine.order_books demo_bid_only !! 1 = Some ob
      ∧ OrderBook.ticker_symbol ob = Some "X"
      ∧ TradingEngine.trade_locks demo_bid_only !! 1 = Some (Some RLock_new).
Proof.
  apply (X6_ticker_to_index_idempotent demo_hash "X" demo_bid_only 1 demo_bid_only).
  - split_and!; [simpl; lia|reflexivity|reflexivity].
  - vm_compute. reflexivity.
Defined.

Lemma X7_addOrder_outcomes_witness :
  let r := TradingEngine.addOrder demo_hash 2 12%N SELL "X" 40 45 demo_bid_only in
  (r = (Raise ValueError, demo_bid_only) ↔
   number.le 40 0 = true ∨ number.le 45 0 = true)
  ∧ (r = (Raise TypeError, demo_bid_only) ↔
     validated 40 45
     ∧ Forall (λ ob, ∃ t, OrderBook.ticker_symbol ob = Some t ∧ t ≠ "" ∧ t ≠ "X")
         (TradingEngine.order_books demo_bid_only))
  ∧ (r.1 = Ok 12%N ↔
     validated 40 45
     ∧ Exists (λ ob, OrderBook.ticker_symbol ob = Some "X"
                     ∨ OrderBook.ticker_symbol ob = None
                     ∨ OrderBook.ticker_symbol ob = Some "")
         (TradingEngine.order_books demo_bid_only))
  ∧ (r.1 = Ok 12%N ∨ r.2 = demo_bid_only)
  ∧ (r.1 = Ok 12%N →
     TradingEngine.size r.2 = TradingEngine.size demo_bid_only
     ∧ TradingEngine.matches r.2 = TradingEngine.matches demo_bid_only
     ∧ resting_orders r.2 ≡ₚ demo_sell :: resting_orders demo_bid_only).
Proof.
  apply (X7_addOrder_outcomes demo_hash 2 12%N SELL "X" 40 45 demo_bid_only).
  split_and!; [simpl; lia|reflexivity|reflexivity].
Defined.


(** ** Sweeps *)

Lemma matchOrder_loop_vacant clock fuel range e :
  Forall (λ ob, OrderBook.ticker_symbol ob = None) (TradingEngine.order_books e) →
  Forall (λ i, i < length (TradingEngine.order_books e)) range →
  TradingEngine.matchOrder_loop clock fuel range e = (Ok tt, e).
Proof.
  intros Hnone Hrange. induction Hrange as [|i range Hi _ IH]; [done|].
  cbn [TradingEngine.matchOrder_loop].
  destruct (lookup_lt_is_Some_2 _ _ Hi) as [ob Hob].
  erewrite bind_Ok; [exact IH|].
  unfold TradingEngine.match_orders_by_index.
  erewrite bind_Ok;
    [|unfold TradingEngine.get_order_book; by rewrite (getitem_Ok _ _ _ Hob)].
  by rewrite (Forall_lookup_1 _ _ _ _ Hnone Hob).
Qed.

(** X9: [match_orders_by_index] on a slot without a ticker returns at once
    and changes nothing, whatever the number of passes allowed; on an index
    past the array it raises [IndexError]; and [matchOrder] on an engine no
    slot of which has a ticker changes nothing. *)
Theorem X9_unassigned_slots clock clocks fuel e :
  length (TradingEngine.order_books e) = TradingEngine.size e →
  (∀ index, length (TradingEngine.order_books e) ≤ index →
     TradingEngine.match_orders_by_index clock fuel index e = (Raise IndexError, e))
  ∧ (∀ index ob, TradingEngine.order_books e !! index = Some ob →
       OrderBook.ticker_symbol ob = None →
       TradingEngine.match_orders_by_index clock fuel index e = (Ok tt, e))
  ∧ (Forall (λ ob, OrderBook.ticker_symbol ob = None) (TradingEngine.order_books e) →
     TradingEngine.matchOrder clocks fuel e = (Ok tt, e)).
Proof.
  intros Hlen. split_and!.
  - intros index Hi. unfold TradingEngine.match_orders_by_index.
    apply bind_Raise. unfold TradingEngine.get_order_book, getitem.
    by rewrite lookup_ge_None_2.
  - intros index ob Hob Hnone. unfold TradingEngine.match_orders_by_index.
    erewrite bind_Ok;
      [|unfold TradingEngine.get_order_book; by rewrite (getitem_Ok _ _ _ Hob)].
    by rewrite Hnone.
  - intros Hnone. unfold TradingEngine.matchOrder.
    apply matchOrder_loop_vacant; [done|].
    apply Forall_forall. intros i Hi%elem_of_seq. lia.
Qed.

Lemma X9_unassigned_slots_witness :
  (∀ index, length (TradingEngine.order_books demo_bid_only) ≤ index →
     TradingEngine.match_orders_by_index (λ k, Z.of_nat k) 0 index demo_bid_only
     = (Raise IndexError, demo_bid_only))
  ∧ (∀ index ob, TradingEngine.order_books demo_bid_only !! index = Some ob →
       OrderBook.ticker_symbol ob = None →
       TradingEngine.match_orders_by_index (λ k, Z.of_nat k) 0 index demo_bid_only
       = (Ok tt, demo_bid_only))
  ∧ (Forall (λ ob, OrderBook.ticker_symbol ob = None)
       (TradingEngine.order_books demo_bid_only) →
     TradingEngine.matchOrder (λ _ k, Z.of_nat k) 0 demo_bid_only
     = (Ok tt, demo_bid_only)).
Proof.
  apply (X9_unassigned_slots (λ k, Z.of_nat k) (λ _ k, Z.of_nat k) 0 demo_bid_only).
  reflexivity.
Defined.

(** A pass touches the book of its slot only, and leaves slots without a
    ticker empty. *)
Lemma match_pass_same_but index :
  pass_closed (λ e, invariant e ∧ vacant_empty e) (same_but index) index.
Proof.
  intros now e [Hinv Hvac]. split; [split|].
  { by apply match_pass_invariant. }
  - destruct (match_pass_cases now index e Hinv)
      as [[x ->]|(ob & lk & ob' & Hob & Hlk & _ & Ht & _ & _
                  & [(b & s & B & S & HB & HS & _ & _ & _ & -> & _)
                    |(_ & -> & HB & HS)])]; [done|..]; simpl.
    + apply Forall_insert; [done|]. intros Hnone. rewrite Ht in Hnone.
      pose proof (Forall_lookup_1 _ _ _ _ Hvac Hob Hnone) as Hnil.
      unfold resting in Hnil. by rewrite HB in Hnil.
    + apply Forall_insert; [done|]. intros Hnone. rewrite Ht in Hnone.
      pose proof (Forall_lookup_1 _ _ _ _ Hvac Hob Hnone) as Hnil.
      unfold resting in *. apply app_eq_nil in Hnil as [HB' HS'].
      rewrite HB' in HB. rewrite HS' in HS.
      apply Permutation_nil_r in HB, HS. by rewrite HB, HS.
  - destruct (match_pass_cases now index e Hinv)
      as [[x ->]|(ob & lk & ob' & Hob & Hlk & _ & Ht & _ & _
                  & [(b & s & B & S & HB & HS & _ & _ & _ & -> & _)
                    |(_ & -> & HB & HS)])]; simpl.
    + by split_and!.
    + split_and!; [done|done|by eapply tickers_insert_same|].
      intros i Hi. simpl. by rewrite list_lookup_insert_ne.
    + split_and!; [done|done|by eapply tickers_insert_same|].
      intros i Hi. simpl. by rewrite list_lookup_insert_ne.
Qed.

Lemma same_but_refl index e : same_but index e e.
Proof. by split_and!. Qed.

Lemma same_but_trans index e1 e2 e3 :
  same_but index e1 e2 → same_but index e2 e3 → same_but index e1 e3.
Proof.
  intros (? & ? & ? & H12) (? & ? & ? & H23).
  split_and!; [congruence..|]. intros i Hi. rewrite H23, H12; done.
Qed.

(** ** What a pass does to the numbers *)

Lemma validated_positive q p :
  validated q p → (is_num q → positive q) ∧ (is_num p → positive p).
Proof.
  unfold validated. intros [Hq Hp]%orb_false_iff.
  apply le_0_false in Hq, Hp.
  split; intros [z ->]; [destruct Hq|destruct Hp]; done.
Qed.

Lemma positive_sub a b :
  positive a → positive b → number.gt a b = true → positive (number.sub a b).
Proof. num_solve. Qed.

Lemma positive_sub_lt a b :
  positive a → positive b → number.lt a b = true → positive (number.sub b a).
Proof. num_solve. Qed.

Lemma positive_min a b : positive a → positive b → positive (number.min a b).
Proof. num_solve. Qed.

(** The orders that rest in the book after a pass that traded: those that
    rested behind the two best, and what is left of the larger of the
    two. *)
Lemma settled_resting (b s : Order.t) (B S : list Order.t) ob' :
  (if number.gt (Order.quantity b) (Order.quantity s) then
     OrderBook.buy_orders ob'
       ≡ₚ Order.set_quantity b
            (number.sub (Order.quantity b) (Order.quantity s)) :: B
     ∧ OrderBook.sell_orders ob' ≡ₚ S
   else if number.lt (Order.quantity b) (Order.quantity s) then
     OrderBook.buy_orders ob' ≡ₚ B
     ∧ OrderBook.sell_orders ob'
       ≡ₚ Order.set_quantity s
            (number.sub (Order.quantity s) (Order.quantity b)) :: S
   else OrderBook.buy_orders ob' ≡ₚ B ∧ OrderBook.sell_orders ob' ≡ₚ S) →
  ∀ o, o ∈ resting ob' →
    o ∈ B ++ S
    ∨ (number.gt (Order.quantity b) (Order.quantity s) = true
       ∧ o = Order.set_quantity b
               (number.sub (Order.quantity b) (Order.quantity s)))
    ∨ (number.lt (Order.quantity b) (Order.quantity s) = true
       ∧ o = Order.set_quantity s
               (number.sub (Order.quantity s) (Order.quantity b))).
Proof.
  intros Hset o Ho. unfold resting in Ho.
  destruct (number.gt (Order.quantity b) (Order.quantity s));
    [|destruct (number.lt (Order.quantity b) (Order.quantity s))];
    destruct Hset as [HB HS]; rewrite HB, HS in Ho;
    rewrite ?elem_of_app, ?elem_of_cons in Ho; rewrite elem_of_app;
    intuition auto.
Qed.

(** A property of the resting orders that the orders left by a trade keep
    is kept by a pass. *)
Lemma match_pass_resting (P : Order.t → Prop) now index e :
  (∀ b s, P b → P s →
     number.gt (Order.quantity b) (Order.quantity s) = true →
     P (Order.set_quantity b (number.sub (Order.quantity b) (Order.quantity s)))) →
  (∀ b s, P b → P s →
     number.lt (Order.quantity b) (Order.quantity s) = true →
     P (Order.set_quantity s (number.sub (Order.quantity s) (Order.quantity b)))) →
  invariant e →
  Forall (λ ob, Forall P (resting ob)) (TradingEngine.order_books e) →
  Forall (λ ob, Forall P (resting ob))
    (TradingEngine.order_books (TradingEngine.match_pass now index e).2)
  ∧ (TradingEngine.matches (TradingEngine.match_pass now index e).2
     = TradingEngine.matches e
     ∨ ∃ b s, P b ∧ P s ∧ is_buy b ∧ is_sell s
         ∧ number.ge (Order.price b) (Order.price s) = true
         ∧ TradingEngine.matches (TradingEngine.match_pass now index e).2
           = TradingEngine.matches e ++ [MatchedOrders.__init__ now b s]).
Proof.
  intros Hgt Hlt Hinv Hall.
  destruct (match_pass_cases now index e Hinv)
    as [[x ->]|(ob & lk & ob' & Hob & Hlk & _ & Ht & _ & _
                & [(b & s & B & S & HB & HS & Hge & Hib & His & -> & Hset)
                  |(_ & -> & HB & HS)])]; cbn [snd]; [by split; [|left]|..].
  - pose proof (Forall_lookup_1 _ _ _ _ Hall Hob) as Hpob. simpl in Hpob.
    unfold resting in Hpob. rewrite HB, HS in Hpob.
    apply Forall_app in Hpob as [[Hb HBs]%Forall_cons [Hs HSs]%Forall_cons].
    split; [|right; by exists b, s].
    simpl. apply Forall_insert; [done|]. apply Forall_forall. intros o Ho.
    destruct (settled_resting b s B S ob' Hset o Ho)
      as [Hin|[[Hq ->]|[Hq ->]]].
    + apply elem_of_app in Hin as [Hin|Hin].
      * exact (proj1 (Forall_forall _ _) HBs o Hin).
      * exact (proj1 (Forall_forall _ _) HSs o Hin).
    + by apply Hgt.
    + by apply Hlt.
  - split; [|by left]. simpl. apply Forall_insert; [done|].
    pose proof (Forall_lookup_1 _ _ _ _ Hall Hob) as Hpob. simpl in Hpob.
    unfold resting in *. by rewrite HB, HS.
Qed.

Lemma match_pass_heaped now index e :
  invariant e → heaped e → heaped (TradingEngine.match_pass now index e).2.
Proof.
  intros Hinv Hheap.
  destruct (match_pass_cases now index e Hinv)
    as [[x ->]|(ob & lk & ob' & Hob & Hlk & _ & Ht & _ & Hh
                & [(b & s & B & S & _ & _ & _ & _ & _ & -> & _)
                  |(_ & -> & _)])]; cbn [snd]; [done|..];
    unfold heaped; simpl; (apply Forall_insert; [done|]); apply Hh;
    exact (Forall_lookup_1 _ _ _ _ Hheap Hob).
Qed.

Lemma match_pass_valued now index e :
  invariant e → valued e → valued (TradingEngine.match_pass now index e).2.
Proof.
  intros Hinv [Hval Hm].
  destruct (match_pass_resting (λ o, positive (Order.price o)) now index e)
    as [Hval' [Heq|(b & s & Hb & Hs & _ & _ & _ & Heq)]]; [done..| |];
    (split; [done|]); rewrite Heq; [done|].
  apply Forall_app. split; [done|]. by repeat constructor.
Qed.

Lemma match_pass_counted now index e :
  invariant e → counted e → counted (TradingEngine.match_pass now index e).2.
Proof.
  intros Hinv [Hcnt Hm].
  destruct (match_pass_resting (λ o, positive (Order.quantity o)) now index e)
    as [Hcnt' [Heq|(b & s & Hb & Hs & _ & _ & _ & Heq)]]; [| |done..| |].
  - intros b s Hb Hs Hq. simpl. by apply positive_sub.
  - intros b s Hb Hs Hq. simpl. by apply positive_sub_lt.
  - split; [done|]. by rewrite Heq.
  - split; [done|]. rewrite Heq. apply Forall_app. split; [done|].
    repeat constructor. simpl. by apply positive_min.
Qed.

(** ** More on sessions *)

Section sessions_more.
Variable hash : string → Z.

(** What a new engine satisfies and submissions and passes keep holds all
    along a session; the submissions may be restricted. *)
Lemma session_induction_on (ok : event → Prop) (I : TradingEngine.t → Prop) :
  I TradingEngine.__init__ →
  (∀ now uid ty ticker q p e, ok (Submit now uid ty ticker q p) →
     invariant e → I e →
     I (TradingEngine.addOrder hash now uid ty ticker q p e).2) →
  (∀ now index e, invariant e → I e →
     I (TradingEngine.match_pass now index e).2) →
  ∀ evs, Forall ok evs → I (session hash evs).
Proof.
  intros Hinit Hadd Hpass evs.
  assert (∀ index, pass_closed (λ e, invariant e ∧ I e) (λ _ _, True) index)
    as Hclosed.
  { intros index now e [Hinv HI]. split; [split|done].
    - by apply match_pass_invariant.
    - by apply Hpass. }
  unfold session. induction evs as [|ev evs IH] using rev_ind; [done|].
  intros [Hok [Hev _]%Forall_cons]%Forall_app. specialize (IH Hok).
  rewrite foldl_app. simpl.
  pose proof (session_invariant hash evs) as Hinv. unfold session in Hinv.
  destruct ev; simpl.
  - by apply Hadd.
  - by apply Hpass.
  - by apply (match_orders_by_index_closed (λ e, invariant e ∧ I e) (λ _ _, True)).
  - by apply (matchOrder_closed (λ e, invariant e ∧ I e) (λ _ _, True)).
Qed.

Lemma session_induction (I : TradingEngine.t → Prop) :
  I TradingEngine.__init__ →
  (∀ now uid ty ticker q p e, invariant e → I e →
     I (TradingEngine.addOrder hash now uid ty ticker q p e).2) →
  (∀ now index e, invariant e → I e →
     I (TradingEngine.match_pass now index e).2) →
  ∀ evs, I (session hash evs).
Proof.
  intros Hinit Hadd Hpass evs.
  apply (session_induction_on (λ _, True) I); [done|auto|done|].
  by apply Forall_true.
Qed.

Lemma session_vacant evs : vacant_empty (session hash evs).
Proof.
  apply session_induction.
  - apply Forall_replicate. done.
  - intros now uid ty ticker q p e Hinv Hvac.
    destruct (addOrder_cases hash now uid ty ticker q p e (proj1 Hinv))
      as [[_ ->]|[(_ & _ & ->)
                 |(_ & j & ob & lk & ob' & Hob & _ & _ & _ & Hadd & ->)]];
      [done..|].
    simpl. apply Forall_insert; [done|].
    destruct (add_order_spec (OrderBook.set_ticker_symbol ob ticker)
      (Order.mk ty ticker p q now uid)) as (? & Hadd' & Ht & _).
    rewrite Hadd in Hadd'. injection Hadd' as <-. by rewrite Ht.
  - intros now index e Hinv Hvac.
    by apply (match_pass_same_but index now e).
Qed.

(** *** Sessions whose prices are numbers *)

Lemma addOrder_heaped now uid ty ticker q p e :
  is_num p → invariant e → heaped e →
  heaped (TradingEngine.addOrder hash now uid ty ticker q p e).2.
Proof.
  intros Hp Hinv Hheap.
  destruct (addOrder_cases hash now uid ty ticker q p e (proj1 Hinv))
    as [[_ ->]|[(_ & _ & ->)
               |(_ & j & ob & lk & ob' & Hob & _ & _ & _ & Hadd & ->)]];
    [done..|].
  destruct (add_order_spec (OrderBook.set_ticker_symbol ob ticker)
    (Order.mk ty ticker p q now uid)) as (? & Hadd' & _ & _ & _ & Hh).
  rewrite Hadd in Hadd'. injection Hadd' as <-.
  unfold heaped. simpl. apply Forall_insert; [done|]. apply Hh; [|done].
  exact (Forall_lookup_1 _ _ _ _ Hheap Hob).
Qed.

Lemma session_heaped evs : Forall priced_event evs → heaped (session hash evs).
Proof.
  apply session_induction_on.
  - apply Forall_replicate, heap_book_init.
  - intros now uid ty ticker q p e Hp. by apply addOrder_heaped.
  - intros now index e. by apply match_pass_heaped.
Qed.

Lemma addOrder_valued now uid ty ticker q p e :
  is_num p → invariant e → valued e →
  valued (TradingEngine.addOrder hash now uid ty ticker q p e).2.
Proof.
  intros Hp Hinv [Hval Hm].
  destruct (addOrder_cases hash now uid ty ticker q p e (proj1 Hinv))
    as [[_ ->]|[(_ & _ & ->)
               |(Hv & j & ob & lk & ob' & Hob & _ & _ & _ & Hadd & ->)]];
    [done..|].
  destruct (add_order_spec (OrderBook.set_ticker_symbol ob ticker)
    (Order.mk ty ticker p q now uid)) as (? & Hadd' & _ & Hw & _).
  rewrite Hadd in Hadd'. injection Hadd' as <-.
  split; [|done]. simpl. apply Forall_insert; [done|].
  rewrite (holds_with_resting _ _ _ _ Hw). constructor.
  - simpl. by apply (validated_positive q p).
  - exact (Forall_lookup_1 _ _ _ _ Hval Hob).
Qed.

Lemma session_valued evs : Forall priced_event evs → valued (session hash evs).
Proof.
  apply session_induction_on.
  - split; [|constructor]. apply Forall_replicate. constructor.
  - intros now uid ty ticker q p e Hp. by apply addOrder_valued.
  - intros now index e. by apply match_pass_valued.
Qed.

(** *** Sessions whose quantities are numbers *)

Lemma addOrder_counted now uid ty ticker q p e :
  is_num q → invariant e → counted e →
  counted (TradingEngine.addOrder hash now uid ty ticker q p e).2.
Proof.
  intros Hq Hinv [Hcnt Hm].
  destruct (addOrder_cases hash now uid ty ticker q p e (proj1 Hinv))
    as [[_ ->]|[(_ & _ & ->)
               |(Hv & j & ob & lk & ob' & Hob & _ & _ & _ & Hadd & ->)]];
    [done..|].
  destruct (add_order_spec (OrderBook.set_ticker_symbol ob ticker)
    (Order.mk ty ticker p q now uid)) as (? & Hadd' & _ & Hw & _).
  rewrite Hadd in Hadd'. injection Hadd' as <-.
  split; [|done]. simpl. apply Forall_insert; [done|].
  rewrite (holds_with_resting _ _ _ _ Hw). constructor.
  - simpl. by apply (validated_positive q p).
  - exact (Forall_lookup_1 _ _ _ _ Hcnt Hob).
Qed.

Lemma session_counted evs : Forall counted_event evs → counted (session hash evs).
Proof.
  apply session_induction_on.
  - split; [|constructor]. apply Forall_replicate. constructor.
  - intros now uid ty ticker q p e Hq. by apply addOrder_counted.
  - intros now index e. by apply match_pass_counted.
Qed.

(** Along a session whose prices are numbers the best bid and the best ask
    that a book shows rank first, pops and partial fills included. *)
Lemma session_price_time_priority evs ob :
  Forall priced_event evs →
  ob ∈ TradingEngine.order_books (session hash evs) →
  (∀ top, OrderBook.get_best_buy ob = Some top →
     top ∈ OrderBook.buy_orders ob
     ∧ ∀ o, o ∈ OrderBook.buy_orders ob → buy_priority top o)
  ∧ (∀ top, OrderBook.get_best_sell ob = Some top →
       top ∈ OrderBook.sell_orders ob
       ∧ ∀ o, o ∈ OrderBook.sell_orders ob → sell_priority top o).
Proof.
  intros Hevs Hob. pose proof (session_heaped evs Hevs) as Hheap.
  pose proof (proj1 (Forall_forall _ _) Hheap ob Hob) as Hh. split.
  - intros top. by apply heap_book_best_buy.
  - intros top. by apply heap_book_best_sell.
Qed.

(** Along a session whose quantities and prices are numbers, in which
    orders enter by [addOrder] only, every trade of the ledger has a
    positive quantity and a positive price, and so has every order resting
    in a book. *)
Lemma session_positive evs :
  Forall numeric_event evs →
  (∀ t, t ∈ TradingEngine.matches (session hash evs) → positive_trade t)
  ∧ (∀ ob o, ob ∈ TradingEngine.order_books (session hash evs) →
       o ∈ OrderBook.buy_orders ob ∨ o ∈ OrderBook.sell_orders ob →
       positive_order o).
Proof.
  intros Hevs.
  destruct (session_counted evs) as [Hcnt Hcm].
  { eapply Forall_impl; [exact Hevs|]. by intros ev [_ ?]. }
  destruct (session_valued evs) as [Hval Hvm].
  { eapply Forall_impl; [exact Hevs|]. by intros ev [? _]. }
  split.
  - intros t Ht. split.
    + exact (proj1 (Forall_forall _ _) Hcm t Ht).
    + exact (proj1 (Forall_forall _ _) Hvm t Ht).
  - intros ob o Hob Ho.
    assert (o ∈ resting ob) as Hin by (unfold resting; by apply elem_of_app).
    split.
    + exact (proj1 (Forall_forall _ _)
               (proj1 (Forall_forall _ _) Hcnt ob Hob) o Hin).
    + exact (proj1 (Forall_forall _ _)
               (proj1 (Forall_forall _ _) Hval ob Hob) o Hin).
Qed.
End sessions_more.

(** ** Sweeps that settle the books *)

Lemma heap_book_priced ob o : heap_book ob → o ∈ resting ob → priced o.
Proof. intros (_ & Hp & _) Ho. exact (proj1 (Forall_forall _ _) Hp o Ho). Qed.

(** When the best bid is below the best ask, every bid is below every ask. *)
Lemma priority_no_cross b0 s0 b s :
  priced b0 → priced s0 → priced b → priced s →
  buy_priority b0 b → sell_priority s0 s →
  number.ge (Order.price b0) (Order.price s0) = false →
  number.ge (Order.price b) (Order.price s) = false
  ∧ number.lt (Order.price b) (Order.price s) = true.
Proof.
  intros [? Hb0] [? Hs0] [? Hb] [? Hs]. unfold buy_priority, sell_priority.
  rewrite Hb0, Hs0, Hb, Hs. simpl.
  intros [?|[? ?]] [?|[? ?]] ?; simplify_eq; split; lia.
Qed.

(** In a book of heaps that shows no cross every bid is below every ask. *)
Lemma no_cross_all ob b s :
  heap_book ob → no_cross ob →
  b ∈ OrderBook.buy_orders ob → s ∈ OrderBook.sell_orders ob →
  number.ge (Order.price b) (Order.price s) = false
  ∧ number.lt (Order.price b) (Order.price s) = true.
Proof.
  intros Hh [Hno|[Hno|(b0 & s0 & Hb0 & Hs0 & Hlt)]] Hb Hs.
  - rewrite get_best_buy_head in Hno.
    destruct (OrderBook.buy_orders ob); [by apply elem_of_nil in Hb|done].
  - rewrite get_best_sell_head in Hno.
    destruct (OrderBook.sell_orders ob); [by apply elem_of_nil in Hs|done].
  - destruct (heap_book_best_buy ob b0 Hh Hb0) as [Hin0 Hbest].
    destruct (heap_book_best_sell ob s0 Hh Hs0) as [Hin0' Hbest'].
    apply (priority_no_cross b0 s0); auto;
      apply (heap_book_priced ob); auto; unfold resting; apply elem_of_app; auto.
Qed.

(** A book that shows no cross still shows none once its sides have been
    rebuilt from the same orders. *)
Lemma no_cross_perm ob ob' :
  heap_book ob → heap_book ob' →
  OrderBook.buy_orders ob' ≡ₚ OrderBook.buy_orders ob →
  OrderBook.sell_orders ob' ≡ₚ OrderBook.sell_orders ob →
  no_cross ob → no_cross ob'.
Proof.
  intros Hh Hh' HB HS Hno. unfold no_cross.
  destruct (OrderBook.get_best_buy ob') as [b'|] eqn:Hb'; [|by left].
  destruct (OrderBook.get_best_sell ob') as [s'|] eqn:Hs'; [|by right; left].
  right. right. exists b', s'. split_and!; [done..|].
  destruct (heap_book_best_buy ob' b' Hh' Hb') as [Hinb _].
  destruct (heap_book_best_sell ob' s' Hh' Hs') as [Hins _].
  rewrite HB in Hinb. rewrite HS in Hins.
  by apply (no_cross_all ob).
Qed.

Lemma match_pass_settling index :
  pass_closed (λ e, (invariant e ∧ vacant_empty e) ∧ heaped e)
    (same_but index) index.
Proof.
  intros now e [Hiv Hh].
  destruct (match_pass_same_but index now e Hiv) as [Hiv' Hsame].
  split; [split; [done|]|done]. apply match_pass_heaped; [apply Hiv|done].
Qed.

(** The loop of a slot leaves a book that shows no cross. *)
Lemma loop_run_no_cross clock index k n e e' :
  invariant e → heaped e → loop_run clock index k n e e' →
  ∃ ob', TradingEngine.order_books e' !! index = Some ob' ∧ no_cross ob'.
Proof.
  intros Hinv Hheap Hrun.
  induction Hrun as [k e e' Hpass|k n e e1 e' Hpass _ IH].
  - destruct (match_pass_cases (clock k) index e Hinv)
      as [[x Hx]|(ob & lk & ob' & Hob & Hlk & _ & Ht & _ & Hh
                  & [(b & s & B & S & _ & _ & _ & _ & _ & Hx & _)
                    |(Hno & Hx & HB & HS)])]; [congruence..|].
    rewrite Hx in Hpass. injection Hpass as <-. exists ob'. split.
    + apply put_order_book_lookup. by eapply lookup_lt_Some.
    + pose proof (Forall_lookup_1 _ _ _ _ Hheap Hob) as Hhob.
      apply (no_cross_perm ob ob'); auto.
  - pose proof (match_pass_invariant (clock k) index e Hinv) as H1.
    pose proof (match_pass_heaped (clock k) index e Hinv Hheap) as H2.
    rewrite Hpass in H1, H2. by apply IH.
Qed.

Lemma match_orders_by_index_settles clock fuel index e :
  invariant e → vacant_empty e → heaped e →
  index < TradingEngine.size e →
  resting_count e index < fuel →
  ∃ e', TradingEngine.match_orders_by_index clock fuel index e = (Ok tt, e')
    ∧ invariant e' ∧ vacant_empty e' ∧ heaped e'
    ∧ same_but index e e'
    ∧ ∃ ob', TradingEngine.order_books e' !! index = Some ob' ∧ no_cross ob'.
Proof.
  intros Hinv Hvac Hheap Hi Hfuel.
  destruct (match_orders_by_index_closed
    (λ e, (invariant e ∧ vacant_empty e) ∧ heaped e)
    (same_but index) (same_but_refl index) (same_but_trans index)
    index clock fuel (match_pass_settling index) e (conj (conj Hinv Hvac) Hheap))
    as [[[Hinv' Hvac'] Hheap'] Hsame].
  pose proof Hinv as ((Hsz & Hlb & Hll) & Hlocked & _).
  destruct (lookup_lt_is_Some_2 (TradingEngine.order_books e) index) as [ob Hob];
    [lia|].
  rewrite (resting_count_lookup e index ob Hob) in Hfuel.
  assert (TradingEngine.get_order_book index e = (Ok ob, e)) as Hget.
  { unfold TradingEngine.get_order_book. by rewrite (getitem_Ok _ _ _ Hob). }
  destruct (OrderBook.ticker_symbol ob) as [t|] eqn:Ht.
  - destruct (Hlocked index ob Hob) as [lk Hlk]; [by rewrite Ht|].
    destruct (match_loop_terminates clock index lk (length (resting ob)) 0 e ob
                Hob Hlk) as (m & e' & Hrun & Hm & Hloop); [done|].
    assert (TradingEngine.match_orders_by_index clock fuel index e = (Ok tt, e'))
      as Hres.
    { unfold TradingEngine.match_orders_by_index.
      rewrite (bind_Ok _ _ e ob e) by done. rewrite Ht.
      apply Hloop. lia. }
    rewrite Hres in Hinv', Hvac', Hheap', Hsame.
    exists e'. split_and!; [done..|].
    exact (loop_run_no_cross clock index 0 m e e' Hinv Hheap Hrun).
  - assert (TradingEngine.match_orders_by_index clock fuel index e = (Ok tt, e))
      as Hres.
    { unfold TradingEngine.match_orders_by_index.
      rewrite (bind_Ok _ _ e ob e) by done. by rewrite Ht. }
    exists e. split_and!; [done..|apply same_but_refl|].
    exists ob. split; [done|]. left.
    pose proof (Forall_lookup_1 _ _ _ _ Hvac Hob Ht) as Hnil.
    unfold resting in Hnil. apply app_eq_nil in Hnil as [HB _].
    by rewrite get_best_buy_head, HB.
Qed.

Lemma matchOrder_loop_settles clock fuel range :
  NoDup range →
  ∀ e, invariant e → vacant_empty e → heaped e →
    Forall (λ i, i < TradingEngine.size e ∧ resting_count e i < fuel) range →
    ∃ e', TradingEngine.matchOrder_loop clock fuel range e = (Ok tt, e')
      ∧ invariant e' ∧ vacant_empty e' ∧ heaped e'
      ∧ TradingEngine.size e' = TradingEngine.size e
      ∧ TradingEngine.trade_locks e' = TradingEngine.trade_locks e
      ∧ tickers e' = tickers e
      ∧ (∀ i, i ∉ range →
           TradingEngine.order_books e' !! i = TradingEngine.order_books e !! i)
      ∧ ∀ i, i ∈ range →
          ∃ ob', TradingEngine.order_books e' !! i = Some ob' ∧ no_cross ob'.
Proof.
  induction 1 as [|i range Hi Hnd IH]; intros e Hinv Hvac Hheap Hrange.
  { exists e. split_and!; [done..|]. intros i Hi. by apply elem_of_nil in Hi. }
  apply Forall_cons in Hrange as [[Hlt Hfuel] Hrange].
  destruct (match_orders_by_index_settles (clock i) fuel i e Hinv Hvac Hheap
              Hlt Hfuel)
    as (e1 & Hrun1 & Hinv1 & Hvac1 & Hheap1 & (Hsz1 & Hlk1 & Ht1 & Hsame1)
        & ob1 & Hob1 & Hno1).
  destruct (IH e1 Hinv1 Hvac1 Hheap1)
    as (e' & Hrun & Hinv' & Hvac' & Hheap' & Hsz & Hlk & Ht & Hsame & Hsettled).
  { apply Forall_forall. intros j Hj.
    destruct (proj1 (Forall_forall _ _) Hrange j Hj) as [Hjlt Hjfuel].
    rewrite Hsz1. split; [done|].
    unfold resting_count. rewrite Hsame1; [done|]. by intros ->. }
  exists e'. split_and!; [|done|done|done|congruence..| |].
  - cbn [TradingEngine.matchOrder_loop]. by rewrite (bind_Ok _ _ _ _ _ Hrun1).
  - intros j Hj. rewrite not_elem_of_cons in Hj. destruct Hj as [Hne Hj].
    rewrite Hsame, Hsame1; done.
  - intros j [->|Hj]%elem_of_cons; [|by apply Hsettled].
    exists ob1. split; [|done]. by rewrite Hsame.
Qed.

Lemma match_orders_by_index_settled clock fuel index e :
  invariant e → heaped e → 0 < fuel → index < TradingEngine.size e →
  Forall no_cross (TradingEngine.order_books e) →
  ∃ e', TradingEngine.match_orders_by_index clock fuel index e = (Ok tt, e')
    ∧ invariant e' ∧ heaped e'
    ∧ Forall no_cross (TradingEngine.order_books e')
    ∧ TradingEngine.size e' = TradingEngine.size e
    ∧ TradingEngine.matches e' = TradingEngine.matches e.
Proof.
  intros Hinv Hheap Hfuel Hi Hno.
  pose proof Hinv as ((Hsz & Hlb & Hll) & Hlocked & _).
  destruct (lookup_lt_is_Some_2 (TradingEngine.order_books e) index) as [ob Hob];
    [lia|].
  unfold TradingEngine.match_orders_by_index.
  rewrite (bind_Ok _ _ e ob e)
    by (unfold TradingEngine.get_order_book; by rewrite (getitem_Ok _ _ _ Hob)).
  destruct (OrderBook.ticker_symbol ob) as [t|] eqn:Ht; [|by exists e].
  destruct (Hlocked index ob Hob) as [lk Hlk]; [by rewrite Ht|].
  pose proof (Forall_lookup_1 _ _ _ _ Hheap Hob) as Hhob.
  pose proof (Forall_lookup_1 _ _ _ _ Hno Hob) as Hnob.
  destruct fuel as [|fuel]; [lia|]. cbn [TradingEngine.match_loop].
  pose proof (match_pass_invariant (clock 0) index e Hinv) as Hinv'.
  pose proof (match_pass_heaped (clock 0) index e Hinv Hheap) as Hheap'.
  destruct (match_pass_spec (clock 0) index e ob lk Hob Hlk)
    as (ob' & _ & _ & Hh
        & [(b & s & Hcross & _)|(_ & Hrun & _ & Hsides)]).
  { by apply no_cross_iff in Hcross. }
  rewrite Hrun in Hinv', Hheap'. rewrite (bind_Ok _ _ _ _ _ Hrun).
  exists (TradingEngine.put_order_book index ob' e).
  split_and!; [done..| |done|done].
  simpl. apply Forall_insert; [done|].
  destruct (Hsides (proj1 Hhob)) as [HB HS].
  apply (no_cross_perm ob ob'); auto.
Qed.

Lemma matchOrder_loop_settled clock fuel range :
  0 < fuel →
  ∀ e, invariant e → heaped e →
    Forall (λ i, i < TradingEngine.size e) range →
    Forall no_cross (TradingEngine.order_books e) →
    ∃ e', TradingEngine.matchOrder_loop clock fuel range e = (Ok tt, e')
      ∧ TradingEngine.matches e' = TradingEngine.matches e.
Proof.
  intros Hfuel. induction range as [|i range IH]; intros e Hinv Hheap Hrange Hno.
  { by exists e. }
  apply Forall_cons in Hrange as [Hi Hrange].
  destruct (match_orders_by_index_settled (clock i) fuel i e Hinv Hheap Hfuel Hi Hno)
    as (e1 & Hrun1 & Hinv1 & Hheap1 & Hno1 & Hsz1 & Hm1).
  destruct (IH e1 Hinv1 Hheap1) as (e' & Hrun & Hm); [by rewrite Hsz1|done|].
  exists e'. split; [|congruence].
  cbn [TradingEngine.matchOrder_loop]. by rewrite (bind_Ok _ _ _ _ _ Hrun1).
Qed.

Section sweep_settles.
Variable hash : string → Z.

(** X10: with more passes allowed than any book has orders, [matchOrder]
    on the engine of a session whose prices are numbers returns, and it
    leaves no book whose best bid reaches its best ask: in every book every
    bid is then priced below every ask.  The slots keep their tickers, and a
    second [matchOrder] records no trade. *)
Theorem X10_sweep_settles evs clocks fuel :
  Forall priced_event evs →
  Forall (λ ob, length (resting ob) < fuel)
    (TradingEngine.order_books (session hash evs)) →
  ∃ e', TradingEngine.matchOrder clocks fuel (session hash evs) = (Ok tt, e')
    ∧ Forall no_cross (TradingEngine.order_books e')
    ∧ (∀ ob b s, ob ∈ TradingEngine.order_books e' →
         b ∈ OrderBook.buy_orders ob → s ∈ OrderBook.sell_orders ob →
         number.lt (Order.price b) (Order.price s) = true)
    ∧ tickers e' = tickers (session hash evs)
    ∧ ∀ clocks' fuel', 0 < fuel' →
        ∃ e'', TradingEngine.matchOrder clocks' fuel' e' = (Ok tt, e'')
          ∧ TradingEngine.matches e'' = TradingEngine.matches e'.
Proof.
  intros Hevs Hfuel. pose proof (session_heaped hash evs Hevs) as Hheap.
  set (e := session hash evs) in *.
  pose proof (session_invariant hash evs) as Hinv. fold e in Hinv.
  pose proof (session_vacant hash evs) as Hvac. fold e in Hvac.
  pose proof Hinv as ((Hsz & Hlb & Hll) & _).
  destruct (matchOrder_loop_settles clocks fuel (seq 0 (TradingEngine.size e))
              (NoDup_seq _ _) e Hinv Hvac Hheap)
    as (e' & Hrun & Hinv' & _ & Hheap' & Hsz' & _ & Ht & _ & Hsettled).
  { apply Forall_forall. intros i Hi%elem_of_seq. split; [lia|].
    destruct (lookup_lt_is_Some_2 (TradingEngine.order_books e) i) as [ob Hob];
      [lia|].
    rewrite (resting_count_lookup e i ob Hob).
    exact (Forall_lookup_1 _ _ _ _ Hfuel Hob). }
  pose proof Hinv' as ((_ & Hlb' & _) & _).
  assert (Forall no_cross (TradingEngine.order_books e')) as Hno.
  { apply Forall_lookup. intros i ob Hob.
    destruct (Hsettled i) as (ob' & Hob' & Hno).
    { apply elem_of_seq. apply lookup_lt_Some in Hob. lia. }
    congruence. }
  exists e'. split_and!; [done|done| |done|].
  { intros ob b s Hob Hb Hs.
    pose proof (proj1 (Forall_forall _ _) Hheap' ob Hob) as Hh.
    pose proof (proj1 (Forall_forall _ _) Hno ob Hob) as Hnob.
    by apply (no_cross_all ob). }
  intros clocks' fuel' Hfuel'. unfold TradingEngine.matchOrder.
  apply matchOrder_loop_settled; [done..| |done].
  apply Forall_forall. intros i Hi%elem_of_seq. lia.
Qed.
End sweep_settles.

Lemma X10_sweep_settles_witness :
  ∃ e', TradingEngine.matchOrder (λ _ k, Z.of_nat k) 3
          (session demo_hash (take 2 demo_session)) = (Ok tt, e')
    ∧ Forall no_cross (TradingEngine.order_books e')
    ∧ (∀ ob b s, ob ∈ TradingEngine.order_books e' →
         b ∈ OrderBook.buy_orders ob → s ∈ OrderBook.sell_orders ob →
         number.lt (Order.price b) (Order.price s) = true)
    ∧ tickers e' = tickers (session demo_hash (take 2 demo_session))
    ∧ ∀ clocks' fuel', 0 < fuel' →
        ∃ e'', TradingEngine.matchOrder clocks' fuel' e' = (Ok tt, e'')
          ∧ TradingEngine.matches e'' = TradingEngine.matches e'.
Proof.
  apply (X10_sweep_settles demo_hash (take 2 demo_session) (λ _ k, Z.of_nat k) 3).
  - repeat constructor; by eexists.
  - apply (bool_decide_unpack _). vm_compute. exact I.
Defined.

(** ** Quantities *)










Section quantities.
Variable hash : string → Z.





End quantities.


Example conservation_demo :
  accepted_from demo_hash BUY (λ _, true) TradingEngine.__init__ demo_session = 100%Z
  ∧ bid_volume (λ _, true) (session demo_hash demo_session) = 60%Z
  ∧ bought (λ _, true) (session demo_hash demo_session) = 40%Z
  ∧ accepted_from demo_hash SELL (λ _, true) TradingEngine.__init__ demo_session = 40%Z
  ∧ ask_volume (λ _, true) (session demo_hash demo_session) = 0%Z
  ∧ sold (λ _, true) (session demo_hash demo_session) = 40%Z.
Proof. vm_compute. by split_and!. Qed.

(** ** The place of a partly filled order *)

(** Two orders each of which ranks before the other have the same price
    and the same timestamp. *)
Lemma buy_priority_both a b :
  buy_priority a b →
  number.gt (Order.price b) (Order.price a) = true
  ∨ Order.price b = Order.price a ∧ (Order.timestamp b ≤ Order.timestamp a)%Z →
  Order.price b = Order.price a ∧ Order.timestamp b = Order.timestamp a.
Proof.
  unfold buy_priority.
  destruct (Order.price a), (Order.price b); simpl;
    intros [?|[? ?]] [?|[? ?]]; simplify_eq; try done; try lia;
    split; first [done|lia].
Qed.

Lemma sell_priority_both a b :
  sell_priority a b →
  number.lt (Order.price b) (Order.price a) = true
  ∨ Order.price b = Order.price a ∧ (Order.timestamp b ≤ Order.timestamp a)%Z →
  Order.price b = Order.price a ∧ Order.timestamp b = Order.timestamp a.
Proof.
  unfold sell_priority.
  destruct (Order.price a), (Order.price b); simpl;
    intros [?|[? ?]] [?|[? ?]]; simplify_eq; try done; try lia;
    split; first [done|lia].
Qed.

(** X12: in a book of heaps whose prices are numbers, when the best bid
    and the best ask cross and one quantity is greater than the other, the
    larger of the two goes back to its side with the difference, and its
    side then shows a best order with the price and the timestamp it had:
    what is left of an order keeps its place. *)
Theorem X12_partial_fill_keeps_place now index e ob lk b s :
  TradingEngine.order_books e !! index = Some ob →
  TradingEngine.trade_locks e !! index = Some (Some lk) →
  heap_book ob →
  OrderBook.get_best_buy ob = Some b →
  OrderBook.get_best_sell ob = Some s →
  number.ge (Order.price b) (Order.price s) = true →
  number.gt (Order.quantity b) (Order.quantity s) = true
  ∨ number.lt (Order.quantity b) (Order.quantity s) = true →
  ∃ ob',
    (TradingEngine.match_pass now index e).1 = Ok true
    ∧ TradingEngine.order_books (TradingEngine.match_pass now index e).2 !! index
      = Some ob'
    ∧ if number.gt (Order.quantity b) (Order.quantity s) then
        Order.set_quantity b (number.sub (Order.quantity b) (Order.quantity s))
          ∈ OrderBook.buy_orders ob'
        ∧ ∃ b', OrderBook.get_best_buy ob' = Some b'
            ∧ Order.price b' = Order.price b
            ∧ Order.timestamp b' = Order.timestamp b
      else
        Order.set_quantity s (number.sub (Order.quantity s) (Order.quantity b))
          ∈ OrderBook.sell_orders ob'
        ∧ ∃ s', OrderBook.get_best_sell ob' = Some s'
            ∧ Order.price s' = Order.price s
            ∧ Order.timestamp s' = Order.timestamp s.
Proof.
  intros Hob Hlk Hh Hb Hs Hle Hne.
  assert (crosses ob b s) as Hcross by done.
  destruct (match_pass_spec now index e ob lk Hob Hlk)
    as (ob' & _ & _ & Hh'
        & [(b0 & s0 & Hcross0 & Hrun & Hset)|(Hno & _)]); cycle 1.
  { by destruct (Hno b s). }
  destruct (crosses_inj ob b s b0 s0 Hcross Hcross0) as [-> ->].
  specialize (Hh' Hh). exists ob'. rewrite Hrun. cbn [fst snd].
  split_and!; [done|..].
  { simpl. apply list_lookup_insert_eq. by eapply lookup_lt_Some. }
  destruct (heap_book_best_buy ob b Hh Hb) as [Hbin Hbbest].
  destruct (heap_book_best_sell ob s Hh Hs) as [Hsin Hsbest].
  destruct Hh as ([Hsb Hss] & _).
  pose proof (proj1 (Forall_forall _ _) Hsb b Hbin) as Hib.
  pose proof (proj1 (Forall_forall _ _) Hss s Hsin) as His.
  unfold settled in Hset.
  destruct (number.gt (Order.quantity b) (Order.quantity s)) eqn:Hgt.
  - apply holds_with_buy in Hset as [HB _]; [|done].
    set (r := Order.set_quantity b
                (number.sub (Order.quantity b) (Order.quantity s))) in *.
    assert (r ∈ OrderBook.buy_orders ob') as Hr by (rewrite HB; by left).
    split; [done|].
    destruct (OrderBook.get_best_buy ob') as [b'|] eqn:Hb'; cycle 1.
    { rewrite get_best_buy_head in Hb'.
      destruct (OrderBook.buy_orders ob'); [by apply elem_of_nil in Hr|done]. }
    exists b'. split; [done|].
    destruct (heap_book_best_buy ob' b' Hh' Hb') as [Hin Hbest].
    specialize (Hbest r Hr). rewrite HB in Hin.
    apply elem_of_cons in Hin as [->|Hin]; [done|].
    assert (b' ∈ OrderBook.buy_orders ob) as Hin'.
    { destruct (OrderBook.buy_orders ob); [done|by right]. }
    specialize (Hbbest b' Hin').
    exact (buy_priority_both b b' Hbbest Hbest).
  - destruct Hne as [?|Hlt]; [done|]. rewrite Hlt in Hset.
    apply holds_with_sell in Hset as [_ HS]; [|done].
    set (r := Order.set_quantity s
                (number.sub (Order.quantity s) (Order.quantity b))) in *.
    assert (r ∈ OrderBook.sell_orders ob') as Hr by (rewrite HS; by left).
    split; [done|].
    destruct (OrderBook.get_best_sell ob') as [s'|] eqn:Hs'; cycle 1.
    { rewrite get_best_sell_head in Hs'.
      destruct (OrderBook.sell_orders ob'); [by apply elem_of_nil in Hr|done]. }
    exists s'. split; [done|].
    destruct (heap_book_best_sell ob' s' Hh' Hs') as [Hin Hbest].
    specialize (Hbest r Hr). rewrite HS in Hin.
    apply elem_of_cons in Hin as [->|Hin]; [done|].
    assert (s' ∈ OrderBook.sell_orders ob) as Hin'.
    { destruct (OrderBook.sell_orders ob); [done|by right]. }
    specialize (Hsbest s' Hin').
    exact (sell_priority_both s s' Hsbest Hbest).
Qed.

Lemma X12_partial_fill_keeps_place_witness :
  ∃ ob',
    (TradingEngine.match_pass 3 1 demo_bid_ask).1 = Ok true
    ∧ TradingEngine.order_books (TradingEngine.match_pass 3 1 demo_bid_ask).2 !! 1
      = Some ob'
    ∧ if number.gt (Order.quantity demo_buy) (Order.quantity demo_sell) then
        Order.set_quantity demo_buy
          (number.sub (Order.quantity demo_buy) (Order.quantity demo_sell))
          ∈ OrderBook.buy_orders ob'
        ∧ ∃ b', OrderBook.get_best_buy ob' = Some b'
            ∧ Order.price b' = Order.price demo_buy
            ∧ Order.timestamp b' = Order.timestamp demo_buy
      else
        Order.set_quantity demo_sell
          (number.sub (Order.quantity demo_sell) (Order.quantity demo_buy))
          ∈ OrderBook.sell_orders ob'
        ∧ ∃ s', OrderBook.get_best_sell ob' = Some s'
            ∧ Order.price s' = Order.price demo_sell
            ∧ Order.timestamp s' = Order.timestamp demo_sell.
Proof.
  apply (X12_partial_fill_keeps_place 3 1 demo_bid_ask demo_book RLock_new
           demo_buy demo_sell); try reflexivity.
  - split_and!.
    + split; by repeat constructor.
    + repeat constructor; by eexists.
    + intros [|i] c p Hi Hc; first [lia|done].
    + intros [|i] c p Hi Hc; first [lia|done].
  - by left.
Defined.

(** ** What a session never undoes *)

Lemma grown_refl e : grown e e.
Proof. split_and!; [done..|]. intros i ob Hob Ht. by exists ob. Qed.

Lemma grown_trans e1 e2 e3 : grown e1 e2 → grown e2 e3 → grown e1 e3.
Proof.
  intros (Hs12 & Hm12 & Ht12) (Hs23 & Hm23 & Ht23).
  split_and!; [congruence|by etrans|].
  intros i ob Hob Ht. destruct (Ht12 i ob Hob Ht) as (ob2 & Hob2 & Ht2).
  by apply (Ht23 i ob2).
Qed.

Lemma grown_insert e i ob ob' locks m :
  TradingEngine.order_books e !! i = Some ob →
  (OrderBook.ticker_symbol ob ≠ None → OrderBook.ticker_symbol ob' ≠ None) →
  grown e (TradingEngine.mk (TradingEngine.size e)
             (<[i:=ob']> (TradingEngine.order_books e)) locks
             (TradingEngine.matches e ++ m)).
Proof.
  intros Hob Ht. split_and!; [done|by apply prefix_app_r|].
  intros j obj Hj Htj. simpl. destruct (decide (i = j)) as [<-|Hne].
  - exists ob'. split; [apply list_lookup_insert_eq; by eapply lookup_lt_Some|].
    apply Ht. congruence.
  - exists obj. by rewrite list_lookup_insert_ne.
Qed.

Lemma match_pass_grown index : pass_closed invariant grown index.
Proof.
  intros now e Hinv. split; [by apply match_pass_invariant|].
  destruct (match_pass_cases now index e Hinv)
    as [[x ->]|(ob & lk & ob' & Hob & Hlk & _ & Ht & _ & _
                & [(b & s & B & S & _ & _ & _ & _ & _ & -> & _)
                  |(_ & -> & _)])]; cbn [snd].
  - apply grown_refl.
  - apply grown_insert with ob; [done|by rewrite Ht].
  - unfold TradingEngine.put_order_book, TradingEngine.set_order_books.
    rewrite <-(app_nil_r (TradingEngine.matches e)).
    apply grown_insert with ob; [done|by rewrite Ht].
Qed.

Section growth.
Variable hash : string → Z.

Lemma after_grown e ev : invariant e → grown e (after hash e ev).
Proof.
  intros Hinv. destruct ev as [now uid ty ticker q p|now index|clock fuel index|clock fuel];
    simpl.
  - destruct (addOrder_cases hash now uid ty ticker q p e (proj1 Hinv))
      as [[_ ->]|[(_ & _ & ->)
                 |(_ & j & ob & lk & ob' & Hob & _ & _ & _ & Hadd & ->)]];
      cbn [snd]; [apply grown_refl..|].
    destruct (add_order_spec (OrderBook.set_ticker_symbol ob ticker)
      (Order.mk ty ticker p q now uid)) as (? & Hadd' & Ht & _).
    rewrite Hadd in Hadd'. injection Hadd' as <-.
    rewrite <-(app_nil_r (TradingEngine.matches e)).
    apply grown_insert with ob; [done|by rewrite Ht].
  - by apply match_pass_grown.
  - by apply (match_orders_by_index_closed invariant grown grown_refl grown_trans
                index clock fuel (match_pass_grown index)).
  - by apply (matchOrder_closed invariant grown grown_refl grown_trans
                clock fuel match_pass_grown).
Qed.

Lemma foldl_after_grown evs : ∀ e, invariant e → grown e (foldl (after hash) e evs).
Proof.
  induction evs as [|ev evs IH]; intros e Hinv; [apply grown_refl|]. simpl.
  eapply grown_trans; [by apply after_grown|].
  apply IH. by apply after_invariant.
Qed.

(** X13: what a session never undoes.  The engine keeps its 1600 slots, a
    book and a lock entry for each; whatever follows, the ledger only grows
    at its end, and a slot that has a ticker keeps having one, and has its
    lock. *)
Theorem X13_session_growth evs evs' :
  TradingEngine.size (session hash evs) = 1600
  ∧ length (TradingEngine.order_books (session hash evs)) = 1600
  ∧ length (TradingEngine.trade_locks (session hash evs)) = 1600
  ∧ TradingEngine.matches (session hash evs)
      `prefix_of` TradingEngine.matches (session hash (evs ++ evs'))
  ∧ ∀ i ob, TradingEngine.order_books (session hash evs) !! i = Some ob →
      OrderBook.ticker_symbol ob ≠ None →
      ∃ ob' lk,
        TradingEngine.order_books (session hash (evs ++ evs')) !! i = Some ob'
        ∧ OrderBook.ticker_symbol ob' ≠ None
        ∧ TradingEngine.trade_locks (session hash (evs ++ evs')) !! i
          = Some (Some lk).
Proof.
  destruct (foldl_after_grown evs TradingEngine.__init__ invariant_init)
    as (Hsz & _). fold (session hash evs) in Hsz. simpl in Hsz.
  pose proof (session_invariant hash evs) as Hinv.
  pose proof Hinv as ((_ & Hlb & Hll) & _).
  destruct (foldl_after_grown evs' (session hash evs) Hinv) as (_ & Hm & Ht).
  assert (foldl (after hash) (session hash evs) evs' = session hash (evs ++ evs'))
    as Heq by (unfold session; by rewrite foldl_app).
  rewrite Heq in Hm, Ht.
  split_and!; [done|congruence|congruence|done|].
  intros i ob Hob Hsome. destruct (Ht i ob Hob Hsome) as (ob' & Hob' & Hsome').
  destruct (session_invariant hash (evs ++ evs')) as (_ & Hlocked & _).
  destruct (Hlocked i ob' Hob' Hsome') as [lk Hlk]. by exists ob', lk.
Qed.
End growth.

(** ** Where orders and trades come from *)

Lemma remainder_of_mono S S' o : S ⊆ S' → remainder_of S o → remainder_of S' o.
Proof. intros Hsub (o0 & Hin & H). exists o0. split; [by apply Hsub|done]. Qed.

Lemma trade_of_mono S S' t : S ⊆ S' → trade_of S t → trade_of S' t.
Proof.
  intros Hsub (b & s & Hb & Hs & H). exists b, s.
  split; [by apply Hsub|]. split; [by apply Hsub|]. exact H.
Qed.

Lemma traced_mono S S' e : S ⊆ S' → traced S e → traced S' e.
Proof.
  intros Hsub [Hr Ht]. split.
  - eapply Forall_impl; [exact Hr|]. intros ob Hob. simpl in *.
    eapply Forall_impl; [exact Hob|]. intros o. by apply remainder_of_mono.
  - eapply Forall_impl; [exact Ht|]. intros t. by apply trade_of_mono.
Qed.

(** A pass trades what is left of submitted orders, and leaves what is left
    of submitted orders. *)
Lemma match_pass_traced S index :
  pass_closed (λ e, invariant e ∧ traced S e) (λ _ _, True) index.
Proof.
  intros now e [Hinv [Hr Ht]]. split; [split|done].
  { by apply match_pass_invariant. }
  destruct (match_pass_cases now index e Hinv)
    as [[x ->]|(ob & lk & ob' & Hob & Hlk & _ & _ & _ & _
                & [(b & s & B & S0 & HB & HS & Hle & Hib & His & -> & Hset)
                  |(_ & -> & HB & HS)])]; cbn [snd]; [done|..].
  - pose proof (Forall_lookup_1 _ _ _ _ Hr Hob) as Hrob. simpl in Hrob.
    unfold resting in Hrob. rewrite HB, HS in Hrob.
    apply Forall_app in Hrob as [[Hrb HrB]%Forall_cons [Hrs HrS]%Forall_cons].
    destruct Hrb as (b0 & Hb0 & Hbeq & Hqb & Hbq).
    destruct Hrs as (s0 & Hs0 & Hseq & Hqs & Hsq).
    split; simpl.
    + apply Forall_insert; [done|]. apply Forall_forall. intros o Ho.
      destruct (settled_resting b s B S0 ob' Hset o Ho)
        as [Hin|[[Hq ->]|[Hq ->]]].
      * apply elem_of_app in Hin as [Hin|Hin].
        -- exact (proj1 (Forall_forall _ _) HrB o Hin).
        -- exact (proj1 (Forall_forall _ _) HrS o Hin).
      * exists b0. split; [done|]. simpl. split; [by rewrite Hbeq|].
        split; [by apply positive_sub|]. revert Hqb Hqs Hq Hbq. clear.
        destruct (Order.quantity b), (Order.quantity s), (Order.quantity b0);
          unfold positive; simpl; try done; lia.
      * exists s0. split; [done|]. simpl. split; [by rewrite Hseq|].
        split; [by apply positive_sub_lt|]. revert Hqb Hqs Hq Hsq. clear.
        destruct (Order.quantity b), (Order.quantity s), (Order.quantity s0);
          unfold positive; simpl; try done; lia.
    + apply Forall_app. split; [done|]. constructor; [|done].
      exists b0, s0. unfold is_buy, is_sell in *.
      rewrite Hbeq in Hib, Hle. rewrite Hseq in His, Hle. simpl in *.
      split_and!; [done..|by rewrite Hbeq|by rewrite Hseq|by rewrite Hseq|done
                  |by apply positive_min| |].
      * revert Hqb Hqs Hbq. clear.
        destruct (Order.quantity b), (Order.quantity s), (Order.quantity b0);
          unfold positive, number.min; simpl; try done;
          case_match; simpl; lia.
      * revert Hqb Hqs Hsq. clear.
        destruct (Order.quantity b), (Order.quantity s), (Order.quantity s0);
          unfold positive, number.min; simpl; try done;
          case_match; simpl; lia.
  - split; [|done]. simpl. apply Forall_insert; [done|].
    pose proof (Forall_lookup_1 _ _ _ _ Hr Hob) as Hrob. simpl in Hrob.
    unfold resting in *. by rewrite HB, HS.
Qed.

Lemma submitted_validated now uid ty ticker q p :
  validated q p →
  submitted [Submit now uid ty ticker q p] = [Order.mk ty ticker p q now uid].
Proof. unfold validated, submitted. simpl. by intros ->. Qed.

Lemma submitted_Submit evs o :
  o ∈ submitted evs →
  Submit (Order.timestamp o) (Order.order_id o) (Order.order_type o)
    (Order.ticker_symbol o) (Order.quantity o) (Order.price o) ∈ evs
  ∧ validated (Order.quantity o) (Order.price o).
Proof.
  intros (ev & Hev & Ho)%list_elem_of_omap.
  destruct ev as [now uid ty ticker q p| | |]; try done.
  destruct (number.le q 0 || number.le p 0) eqn:Hv; simplify_eq/=. done.
Qed.

Lemma submitted_app evs evs' : submitted (evs ++ evs') = submitted evs ++ submitted evs'.
Proof. apply omap_app. Qed.

Section provenance.
Variable hash : string → Z.

(** A pass trades orders that come from [S], and leaves orders that come
    from [S]. *)
Lemma match_pass_sourced S now index e :
  invariant e → sourced S e → sourced S (TradingEngine.match_pass now index e).2.
Proof.
  intros Hinv [Hr Ht].
  destruct (match_pass_resting (order_of S) now index e)
    as [Hr' [Heq|(b & s & Hb & Hs & Hib & His & Hge & Heq)]]; [| |done..| |].
  - intros b s (b0 & Hb0 & Hbeq) _ _. exists b0. split; [done|]. simpl.
    by rewrite Hbeq.
  - intros b s _ (s0 & Hs0 & Hseq) _. exists s0. split; [done|]. simpl.
    by rewrite Hseq.
  - split; [done|]. by rewrite Heq.
  - split; [done|]. rewrite Heq. apply Forall_app. split; [done|].
    constructor; [|done]. destruct Hb as (b0 & Hb0 & Hbeq).
    destruct Hs as (s0 & Hs0 & Hseq). exists b0, s0.
    unfold is_buy, is_sell in *. rewrite Hbeq in Hib, Hge.
    rewrite Hseq in His, Hge. simpl in *.
    split_and!; [done..|by rewrite Hbeq|by rewrite Hseq|by rewrite Hseq|done].
Qed.

Lemma sourced_mono S S' e : S ⊆ S' → sourced S e → sourced S' e.
Proof.
  intros Hsub [Hr Ht]. split.
  - eapply Forall_impl; [exact Hr|]. intros ob Hob. simpl in *.
    eapply Forall_impl; [exact Hob|]. intros o (o0 & Hin & H).
    exists o0. split; [by apply Hsub|done].
  - eapply Forall_impl; [exact Ht|]. intros t (b & s & Hb & Hs & H).
    exists b, s. split; [by apply Hsub|]. split; [by apply Hsub|]. exact H.
Qed.

(** Along any session the resting orders and the trades come from the
    orders that the submissions created. *)
Lemma session_sourced evs : sourced (submitted evs) (session hash evs).
Proof.
  induction evs as [|ev evs IH] using rev_ind.
  { split; [|constructor]. apply Forall_replicate. constructor. }
  pose proof (session_invariant hash evs) as Hinv.
  assert (session hash (evs ++ [ev]) = after hash (session hash evs) ev) as ->
    by (unfold session; by rewrite foldl_app).
  rewrite submitted_app.
  assert (sourced (submitted evs ++ submitted [ev]) (session hash evs)) as IH'.
  { eapply sourced_mono; [|exact IH]. intros o Ho. apply elem_of_app. by left. }
  set (e := session hash evs) in *.
  assert (∀ index, pass_closed
            (λ e, invariant e ∧ sourced (submitted evs ++ submitted [ev]) e)
            (λ _ _, True) index) as Hclosed.
  { intros index now e0 [Hinv0 Hs0]. split; [split|done].
    - by apply match_pass_invariant.
    - by apply match_pass_sourced. }
  destruct ev as [now uid ty ticker q p|now index|clock fuel index|clock fuel];
    cbn [after].
  - destruct (addOrder_cases hash now uid ty ticker q p e (proj1 Hinv))
      as [[_ ->]|[(_ & _ & ->)
                 |(Hv & j & ob & lk & ob' & Hob & _ & _ & _ & Hadd & ->)]];
      cbn [snd]; [done..|].
    destruct (add_order_spec (OrderBook.set_ticker_symbol ob ticker)
      (Order.mk ty ticker p q now uid)) as (? & Hadd' & _ & Hw & _).
    rewrite Hadd in Hadd'. injection Hadd' as <-.
    rewrite (submitted_validated now uid ty ticker q p Hv) in *.
    destruct IH' as [Hr Ht]. split; [|done]. simpl.
    apply Forall_insert; [done|].
    rewrite (holds_with_resting _ _ _ _ Hw). constructor.
    + exists (Order.mk ty ticker p q now uid).
      split; [apply elem_of_app; right; by left|].
      done.
    + exact (Forall_lookup_1 _ _ _ _ Hr Hob).
  - by apply match_pass_sourced.
  - by apply (match_orders_by_index_closed _ (λ _ _, True) (λ _, I) (λ _ _ _ _ _, I)
                index clock fuel (Hclosed index) e).
  - by apply (matchOrder_closed _ (λ _ _, True) (λ _, I) (λ _ _ _ _ _, I)
                clock fuel Hclosed e).
Qed.

Lemma session_traced evs :
  Forall counted_event evs → traced (submitted evs) (session hash evs).
Proof.
  induction evs as [|ev evs IH] using rev_ind.
  { intros _. split; [|constructor]. apply Forall_replicate. constructor. }
  intros [Hevs [Hev _]%Forall_cons]%Forall_app. specialize (IH Hevs).
  pose proof (session_invariant hash evs) as Hinv.
  assert (session hash (evs ++ [ev]) = after hash (session hash evs) ev) as ->
    by (unfold session; by rewrite foldl_app).
  rewrite submitted_app.
  assert (traced (submitted evs ++ submitted [ev]) (session hash evs)) as IH'.
  { eapply traced_mono; [|exact IH]. intros o Ho. apply elem_of_app. by left. }
  set (e := session hash evs) in *.
  destruct ev as [now uid ty ticker q p|now index|clock fuel index|clock fuel];
    cbn [after].
  - destruct (addOrder_cases hash now uid ty ticker q p e (proj1 Hinv))
      as [[_ ->]|[(_ & _ & ->)
                 |(Hv & j & ob & lk & ob' & Hob & _ & _ & _ & Hadd & ->)]];
      cbn [snd]; [done..|].
    destruct (add_order_spec (OrderBook.set_ticker_symbol ob ticker)
      (Order.mk ty ticker p q now uid)) as (? & Hadd' & _ & Hw & _).
    rewrite Hadd in Hadd'. injection Hadd' as <-.
    rewrite (submitted_validated now uid ty ticker q p Hv) in *.
    destruct IH' as [Hr Ht]. split; [|done]. simpl.
    apply Forall_insert; [done|].
    rewrite (holds_with_resting _ _ _ _ Hw). constructor.
    + exists (Order.mk ty ticker p q now uid).
      split; [apply elem_of_app; right; by left|].
      split; [done|]. simpl in *.
      pose proof (proj1 (validated_positive q p Hv) Hev) as Hq.
      split; [done|]. destruct Hev as [z ->]. simpl. lia.
    + exact (Forall_lookup_1 _ _ _ _ Hr Hob).
  - by apply (match_pass_traced _ index now e).
  - by apply (match_orders_by_index_closed _ (λ _ _, True) (λ _, I) (λ _ _ _ _ _, I)
                index clock fuel (match_pass_traced _ index) e).
  - by apply (matchOrder_closed _ (λ _ _, True) (λ _, I) (λ _ _ _ _ _, I)
                clock fuel (match_pass_traced _) e).
Qed.

(** X14: along a session whose quantities are numbers, every trade in the
    ledger is between a submitted BUY order and a submitted SELL order,
    whose ids it carries; its price is the price of the SELL order, which
    is not above that of the BUY order, and its quantity is positive and
    exceeds neither order's.  Every resting order is a submitted order,
    unchanged but for its quantity, which is positive and not above the
    submitted one. *)
Theorem X14_provenance evs :
  Forall counted_event evs →
  (∀ t, t ∈ TradingEngine.matches (session hash evs) →
     ∃ nb ub tb qb pb ns us ts qs ps,
       Submit nb ub BUY tb qb pb ∈ evs
       ∧ Submit ns us SELL ts qs ps ∈ evs
       ∧ MatchedOrders.buy_order_id t = ub
       ∧ MatchedOrders.sell_order_id t = us
       ∧ MatchedOrders.price t = ps
       ∧ number.ge pb ps = true
       ∧ positive (MatchedOrders.quantity t)
       ∧ number.le (MatchedOrders.quantity t) qb = true
       ∧ number.le (MatchedOrders.quantity t) qs = true)
  ∧ (∀ ob o, ob ∈ TradingEngine.order_books (session hash evs) →
       o ∈ resting ob →
       ∃ q, Submit (Order.timestamp o) (Order.order_id o) (Order.order_type o)
              (Order.ticker_symbol o) q (Order.price o) ∈ evs
         ∧ positive (Order.quantity o)
         ∧ number.le (Order.quantity o) q = true).
Proof.
  intros Hevs.
  assert (∀ o, o ∈ submitted evs →
    Submit (Order.timestamp o) (Order.order_id o) (Order.order_type o)
      (Order.ticker_symbol o) (Order.quantity o) (Order.price o) ∈ evs) as Hsub.
  { intros o Ho. by apply submitted_Submit. }
  destruct (session_traced evs Hevs) as [Hr Ht]. split.
  - intros t Hin.
    destruct (proj1 (Forall_forall _ _) Ht t Hin)
      as (b & s & Hb & Hs & Hib & His & Hbid & Hsid & Hp & Hle & Hq & Hqb & Hqs).
    apply Hsub in Hb, Hs. unfold is_buy in Hib. unfold is_sell in His.
    rewrite Hib in Hb. rewrite His in Hs.
    by eexists _, _, _, _, _, _, _, _, _, _.
  - intros ob o Hob Ho.
    pose proof (proj1 (Forall_forall _ _) Hr ob Hob) as Hrob. simpl in Hrob.
    destruct (proj1 (Forall_forall _ _) Hrob o Ho) as (o0 & Ho0 & Heq & Hq).
    apply Hsub in Ho0. exists (Order.quantity o0). split; [|done].
    rewrite Heq. done.
Qed.
End provenance.

Lemma X14_provenance_witness :
  (∀ t, t ∈ TradingEngine.matches (session demo_hash demo_session) →
     ∃ nb ub tb qb pb ns us ts qs ps,
       Submit nb ub BUY tb qb pb ∈ demo_session
       ∧ Submit ns us SELL ts qs ps ∈ demo_session
       ∧ MatchedOrders.buy_order_id t = ub
       ∧ MatchedOrders.sell_order_id t = us
       ∧ MatchedOrders.price t = ps
       ∧ number.ge pb ps = true
       ∧ positive (MatchedOrders.quantity t)
       ∧ number.le (MatchedOrders.quantity t) qb = true
       ∧ number.le (MatchedOrders.quantity t) qs = true)
  ∧ (∀ ob o, ob ∈ TradingEngine.order_books (session demo_hash demo_session) →
       o ∈ resting ob →
       ∃ q, Submit (Order.timestamp o) (Order.order_id o) (Order.order_type o)
              (Order.ticker_symbol o) q (Order.price o) ∈ demo_session
         ∧ positive (Order.quantity o)
         ∧ number.le (Order.quantity o) q = true).
Proof.
  apply (X14_provenance demo_hash demo_session).
  repeat constructor; by eexists.
Defined.

(** ** Order ids *)

Lemma submseteq_NoDup {A} (l k : list A) : l ⊆+ k → NoDup k → NoDup l.
Proof.
  intros (l2 & Hp & Hsub)%submseteq_sublist_r Hk. rewrite Hp.
  by eapply sublist_NoDup.
Qed.

Lemma NoDup_fmap_inj {A B} (f : A → B) l x y :
  NoDup (f <$> l) → x ∈ l → y ∈ l → f x = f y → x = y.
Proof.
  induction l as [|a l IH]; intros Hnd Hx Hy Heq; [by apply elem_of_nil in Hx|].
  rewrite fmap_cons in Hnd. apply NoDup_cons in Hnd as [Ha Hnd].
  apply elem_of_cons in Hx as [->|Hx]; apply elem_of_cons in Hy as [->|Hy].
  - done.
  - exfalso. apply Ha. rewrite Heq. by apply list_elem_of_fmap_2.
  - exfalso. apply Ha. rewrite <-Heq. by apply list_elem_of_fmap_2.
  - by apply IH.
Qed.

(** The ids of the engine when one book changes. *)
Lemma resting_ids_insert (books : list OrderBook.t) i ob ob' :
  books !! i = Some ob →
  Order.order_id <$> resting ob' ⊆+ Order.order_id <$> resting ob →
  Order.order_id <$> concat (resting <$> <[i:=ob']> books)
    ⊆+ Order.order_id <$> concat (resting <$> books).
Proof.
  revert i. induction books as [|x books IH]; intros [|i] Hob Hr; simplify_eq/=;
    rewrite !fmap_app.
  - by apply submseteq_skips_r.
  - apply submseteq_skips_l. by apply (IH i).
Qed.

(** A pass creates no order: the ids that rest after it rested before. *)
Lemma match_pass_ids index :
  pass_closed invariant (λ e e', resting_ids e' ⊆+ resting_ids e) index.
Proof.
  intros now e Hinv. split; [by apply match_pass_invariant|].
  destruct (match_pass_cases now index e Hinv)
    as [[x ->]|(ob & lk & ob' & Hob & Hlk & _ & _ & _ & _
                & [(b & s & B & S0 & HB & HS & _ & _ & _ & -> & Hset)
                  |(_ & -> & HB & HS)])]; cbn [snd]; [done|..];
    unfold resting_ids, resting_orders; simpl;
    apply (resting_ids_insert _ index ob ob' Hob); unfold resting.
  - rewrite HB, HS.
    destruct (number.gt (Order.quantity b) (Order.quantity s));
      [|destruct (number.lt (Order.quantity b) (Order.quantity s))];
      destruct Hset as [-> ->]; rewrite !fmap_app, !fmap_cons; simpl.
    + apply submseteq_skip, submseteq_skips_l, submseteq_cons. done.
    + apply submseteq_cons, submseteq_skips_l. done.
    + apply submseteq_cons, submseteq_skips_l, submseteq_cons. done.
  - by rewrite HB, HS.
Qed.

Section ids.
Variable hash : string → Z.

Lemma after_ids e ev :
  invariant e →
  resting_ids (after hash e ev) ⊆+ resting_ids e ++ (Order.order_id <$> submitted [ev]).
Proof.
  intros Hinv.
  destruct ev as [now uid ty ticker q p|now index|clock fuel index|clock fuel];
    cbn [after]; rewrite ?app_nil_r.
  - destruct (addOrder_cases hash now uid ty ticker q p e (proj1 Hinv))
      as [[_ ->]|[(_ & _ & ->)
                 |(Hv & j & ob & lk & ob' & Hob & _ & _ & _ & Hadd & ->)]];
      cbn [snd]; [by apply submseteq_inserts_r..|].
    rewrite (submitted_validated now uid ty ticker q p Hv).
    destruct (add_order_spec (OrderBook.set_ticker_symbol ob ticker)
      (Order.mk ty ticker p q now uid)) as (? & Hadd' & _ & Hw & _).
    rewrite Hadd in Hadd'. injection Hadd' as <-.
    unfold resting_ids, resting_orders. simpl.
    rewrite (resting_orders_insert _ j ob ob' [Order.mk ty ticker p q now uid] Hob)
      by exact (holds_with_resting _ _ _ _ Hw).
    simpl. apply Permutation_submseteq. by rewrite Permutation_cons_append.
  - by apply match_pass_ids.
  - apply (match_orders_by_index_closed invariant
             (λ e e', resting_ids e' ⊆+ resting_ids e)); try done.
    + intros e1 e2 e3 H12 H23. by etrans.
    + apply match_pass_ids.
  - apply (matchOrder_closed invariant
             (λ e e', resting_ids e' ⊆+ resting_ids e)); try done.
    + intros e1 e2 e3 H12 H23. by etrans.
    + apply match_pass_ids.
Qed.

Lemma session_ids evs :
  resting_ids (session hash evs) ⊆+ Order.order_id <$> submitted evs.
Proof.
  induction evs as [|ev evs IH] using rev_ind.
  { change (session hash []) with TradingEngine.__init__.
    unfold resting_ids, resting_orders, TradingEngine.__init__.
    cbn [TradingEngine.order_books]. by rewrite resting_orders_empty. }
  assert (session hash (evs ++ [ev]) = after hash (session hash evs) ev) as ->
    by (unfold session; by rewrite foldl_app).
  rewrite submitted_app, fmap_app.
  etrans; [apply after_ids, session_invariant|].
  by apply submseteq_skips_r.
Qed.

(** X15: order ids.  Matching creates no order: the ids that rest after
    [match_orders_by_index] or [matchOrder] rested before, as often.  Along
    a session the resting ids are among the submitted ones, as often at
    most; so when the ids drawn for the submissions are all different, no
    two resting orders share an id, and no trade has the same id on both
    sides. *)
Theorem X15_order_ids evs :
  NoDup (Order.order_id <$> submitted evs) →
  NoDup (resting_ids (session hash evs))
  ∧ resting_ids (session hash evs) ⊆+ Order.order_id <$> submitted evs
  ∧ (∀ t, t ∈ TradingEngine.matches (session hash evs) →
       MatchedOrders.buy_order_id t ≠ MatchedOrders.sell_order_id t)
  ∧ (∀ clock fuel index,
       resting_ids (TradingEngine.match_orders_by_index clock fuel index
                      (session hash evs)).2
         ⊆+ resting_ids (session hash evs))
  ∧ (∀ clocks fuel,
       resting_ids (TradingEngine.matchOrder clocks fuel (session hash evs)).2
         ⊆+ resting_ids (session hash evs)).
Proof.
  intros Hnd. pose proof (session_ids evs) as Hsub.
  pose proof (session_invariant hash evs) as Hinv.
  split_and!; [by eapply submseteq_NoDup|done|..].
  - intros t Ht Heq. destruct (session_sourced hash evs) as [_ Htr].
    destruct (proj1 (Forall_forall _ _) Htr t Ht)
      as (b & s & Hb & Hs & Hib & His & Hbid & Hsid & _).
    assert (b = s) as ->.
    { apply (NoDup_fmap_inj Order.order_id (submitted evs)); [done..|congruence]. }
    unfold is_buy, is_sell in *. congruence.
  - intros clock fuel index.
    by apply (after_ids (session hash evs) (MatchSlot clock fuel index)) in Hinv
      as Hs; simpl in Hs; rewrite app_nil_r in Hs.
  - intros clocks fuel.
    by apply (after_ids (session hash evs) (MatchAll clocks fuel)) in Hinv
      as Hs; simpl in Hs; rewrite app_nil_r in Hs.
Qed.
End ids.

Lemma X15_order_ids_witness :
  NoDup (resting_ids (session demo_hash demo_session))
  ∧ resting_ids (session demo_hash demo_session)
      ⊆+ Order.order_id <$> submitted demo_session
  ∧ (∀ t, t ∈ TradingEngine.matches (session demo_hash demo_session) →
       MatchedOrders.buy_order_id t ≠ MatchedOrders.sell_order_id t)
  ∧ (∀ clock fuel index,
       resting_ids (TradingEngine.match_orders_by_index clock fuel index
                      (session demo_hash demo_session)).2
         ⊆+ resting_ids (session demo_hash demo_session))
  ∧ (∀ clocks fuel,
       resting_ids (TradingEngine.matchOrder clocks fuel
                      (session demo_hash demo_session)).2
         ⊆+ resting_ids (session demo_hash demo_session)).
Proof.
  apply (X15_order_ids demo_hash demo_session).
  apply (bool_decide_unpack _). vm_compute. exact I.
Defined.

(** ** One slot at a time *)

Section locality.
Variable hash : string → Z.

(** X16: along any session [match_orders_by_index] touches the book of its
    slot and the ledger only: size, locks, tickers and the books of all
    other slots are left as they were, whatever its outcome.  [addOrder]
    likewise touches one slot only, and never the ledger. *)
Theorem X16_one_slot_at_a_time evs :
  (∀ clock fuel index,
     same_but index (session hash evs)
       (TradingEngine.match_orders_by_index clock fuel index (session hash evs)).2)
  ∧ (∀ now uid ty ticker q p,
       TradingEngine.matches
         (TradingEngine.addOrder hash now uid ty ticker q p (session hash evs)).2
       = TradingEngine.matches (session hash evs)
       ∧ ∃ j, ∀ i, i ≠ j →
           TradingEngine.order_books
             (TradingEngine.addOrder hash now uid ty ticker q p (session hash evs)).2
             !! i
           = TradingEngine.order_books (session hash evs) !! i
           ∧ TradingEngine.trade_locks
               (TradingEngine.addOrder hash now uid ty ticker q p (session hash evs)).2
               !! i
             = TradingEngine.trade_locks (session hash evs) !! i).
Proof.
  pose proof (session_invariant hash evs) as Hinv.
  pose proof (session_vacant hash evs) as Hvac.
  set (e := session hash evs) in *. split.
  - intros clock fuel index.
    by apply (match_orders_by_index_closed (λ e, invariant e ∧ vacant_empty e)
                (same_but index) (same_but_refl index) (same_but_trans index)
                index clock fuel (match_pass_same_but index) e).
  - intros now uid ty ticker q p.
    destruct (addOrder_cases hash now uid ty ticker q p e (proj1 Hinv))
      as [[_ ->]|[(_ & _ & ->)
                 |(_ & j & ob & lk & ob' & _ & _ & _ & _ & _ & ->)]];
      cbn [snd]; (split; [done|]); [by exists 0..|].
    exists j. intros i Hi. simpl. by rewrite !list_lookup_insert_ne.
Qed.
End locality.

(** ** The id of a new order *)

Lemma submitted_events uuid4 cs :
  ∀ k, Order.order_id <$> submitted (events uuid4 k cs)
       = uuid4 <$> seq k (drawn cs).
Proof.
  unfold drawn.
  induction cs as [|c cs IH]; intros k; [done|]. cbn [events].
  change (event_of uuid4 k c :: ?evs) with ([event_of uuid4 k c] ++ evs).
  rewrite submitted_app, fmap_app, IH.
  destruct c as [now ty ticker q p|now index|clock fuel index|clock fuel];
    cbn [event_of draws sum_list_with];
    [|by rewrite Nat.add_0_r..].
  unfold submitted at 1. cbn [omap].
  destruct (number.le q 0 || number.le p 0) eqn:Hv; simpl; rewrite Hv; simpl.
  - by rewrite Nat.add_0_r.
  - by rewrite Nat.add_1_r.
Qed.

Section new_order.
Variable hash : string → Z.

(** The ids of the ledger are ids of orders that submissions created. *)
Lemma session_ledger_ids evs t :
  t ∈ TradingEngine.matches (session hash evs) →
  MatchedOrders.buy_order_id t ∈ Order.order_id <$> submitted evs
  ∧ MatchedOrders.sell_order_id t ∈ Order.order_id <$> submitted evs.
Proof.
  intros Ht. destruct (session_sourced hash evs) as [_ Htr].
  destruct (proj1 (Forall_forall _ _) Htr t Ht)
    as (b & s & Hb & Hs & _ & _ & -> & -> & _).
  split; by apply list_elem_of_fmap_2.
Qed.

(** C4: a call of [addOrder] with [quantity <= 0] or [price <= 0] raises
    [ValueError] and leaves the engine, whatever it is, as it was: no order
    is pushed and the directory is unchanged.  In a run of calls from a new
    engine in which [uuid.uuid4()] never draws the same id twice, a call
    with a positive quantity and a positive price whose ticker resolves to
    slot [i] returns the id drawn for the new order, and that order is
    pushed on the side of its type in the book of slot [i], which carries
    the ticker.  The id is fresh: it is the id of no order created before,
    no resting order carries it and no trade of the ledger names it; and it
    is unique: afterwards the new order is the only resting order that
    carries it, and no two resting orders share an id. *)
Theorem C4_submit_validation (uuid4 : nat → uuid) :
  (∀ now uid ty ticker q p e,
     number.le q 0 = true ∨ number.le p 0 = true →
     TradingEngine.addOrder hash now uid ty ticker q p e = (Raise ValueError, e))
  ∧ (Inj (=) (=) uuid4 →
     ∀ cs now ty ticker q p i e1,
       let e := session hash (events uuid4 0 cs) in
       let uid := uuid4 (drawn cs) in
       positive q → positive p →
       TradingEngine.ticker_to_index hash ticker e = (Ok (Some i), e1) →
       ∃ ob ob',
         TradingEngine.order_books e1 !! i = Some ob
         ∧ OrderBook.ticker_symbol ob = Some ticker
         ∧ TradingEngine.addOrder hash now uid ty ticker q p e
           = (Ok uid, TradingEngine.put_order_book i ob' e1)
         ∧ OrderBook.ticker_symbol ob' = Some ticker
         ∧ match ty with
           | BUY =>
               OrderBook.buy_orders ob'
                 ≡ₚ Order.mk ty ticker p q now uid :: OrderBook.buy_orders ob
               ∧ OrderBook.sell_orders ob' ≡ₚ OrderBook.sell_orders ob
           | SELL =>
               OrderBook.buy_orders ob' ≡ₚ OrderBook.buy_orders ob
               ∧ OrderBook.sell_orders ob'
                 ≡ₚ Order.mk ty ticker p q now uid :: OrderBook.sell_orders ob
           end
         ∧ (uid ∉ Order.order_id <$> submitted (events uuid4 0 cs))
         ∧ (uid ∉ resting_ids e)
         ∧ (∀ t, t ∈ TradingEngine.matches e →
              MatchedOrders.buy_order_id t ≠ uid
              ∧ MatchedOrders.sell_order_id t ≠ uid)
         ∧ (∀ o, o ∈ resting_orders (TradingEngine.put_order_book i ob' e1) →
              Order.order_id o = uid → o = Order.mk ty ticker p q now uid)
         ∧ NoDup (resting_ids (TradingEngine.put_order_book i ob' e1))).
Proof.
  split; [intros; by apply addOrder_invalid|].
  intros Hinj cs now ty ticker q p i e1 e uid Hq Hp Hres.
  pose proof (positive_validated q p Hq Hp) as Hv.
  destruct (addOrder_resolved hash now uid ty ticker q p e i e1 Hv Hres)
    as (ob0 & lk & ob' & Hob0 & Hlk & Htest & -> & Hadd & Hrun).
  assert (i < length (TradingEngine.order_books e)) as Hlen
    by (by eapply lookup_lt_Some).
  set (order := Order.mk ty ticker p q now uid) in *.
  destruct (add_order_spec (OrderBook.set_ticker_symbol ob0 ticker) order)
    as (? & Hadd' & Ht & Hw & _).
  rewrite Hadd in Hadd'. injection Hadd' as <-.
  assert (uid ∉ Order.order_id <$> submitted (events uuid4 0 cs)) as Hfresh.
  { rewrite submitted_events.
    intros (k & Heq & Hk%elem_of_seq)%list_elem_of_fmap.
    apply Hinj in Heq. lia. }
  assert (NoDup (Order.order_id <$> submitted (events uuid4 0 cs))) as Hnd.
  { rewrite submitted_events. apply NoDup_fmap_2; [done|apply NoDup_seq]. }
  pose proof (session_ids hash (events uuid4 0 cs)) as Hsub. fold e in Hsub.
  assert (uid ∉ resting_ids e) as Hrest.
  { intros Hin. apply Hfresh. by eapply elem_of_submseteq. }
  assert (resting_orders (TradingEngine.put_order_book i ob' (claimed i ticker ob0 e))
          ≡ₚ [order] ++ resting_orders e) as Hperm.
  { unfold resting_orders. simpl. rewrite list_insert_insert_eq.
    exact (resting_orders_insert _ i ob0 ob' [order] Hob0
             (holds_with_resting _ _ _ _ Hw)). }
  exists (OrderBook.set_ticker_symbol ob0 ticker), ob'.
  split_and!; [simpl; by apply list_lookup_insert_eq|done| |done|exact Hw
              |done|done| | |].
  - rewrite Hrun. f_equal.
    unfold TradingEngine.put_order_book, TradingEngine.set_order_books, claimed.
    simpl. by rewrite list_insert_insert_eq.
  - intros t Hin.
    destruct (session_ledger_ids (events uuid4 0 cs) t Hin) as [Hb Hs].
    split; intros Heq; apply Hfresh; by rewrite <-Heq.
  - intros o Ho Hid. rewrite Hperm in Ho.
    apply elem_of_cons in Ho as [->|Ho]; [done|].
    destruct Hrest. rewrite <-Hid. by apply list_elem_of_fmap_2.
  - unfold resting_ids. rewrite Hperm. simpl. apply NoDup_cons. split; [done|].
    by eapply submseteq_NoDup.
Qed.
End new_order.

Lemma C4_submit_validation_witness :
  TradingEngine.addOrder demo_hash 1 11%N BUY "X" 0 50 TradingEngine.__init__
  = (Raise ValueError, TradingEngine.__init__)
  ∧ let e := session demo_hash (events N.of_nat 0 demo_calls) in
    let uid := N.of_nat (drawn demo_calls) in
    let e1 := (TradingEngine.ticker_to_index demo_hash "X" e).2 in
    ∃ ob ob',
      TradingEngine.order_books e1 !! 1 = Some ob
      ∧ OrderBook.ticker_symbol ob = Some "X"
      ∧ TradingEngine.addOrder demo_hash 2 uid SELL "X" 40 45 e
        = (Ok uid, TradingEngine.put_order_book 1 ob' e1)
      ∧ OrderBook.ticker_symbol ob' = Some "X"
      ∧ (OrderBook.buy_orders ob' ≡ₚ OrderBook.buy_orders ob
         ∧ OrderBook.sell_orders ob'
           ≡ₚ Order.mk SELL "X" 45 40 2 uid :: OrderBook.sell_orders ob)
      ∧ (uid ∉ Order.order_id <$> submitted (events N.of_nat 0 demo_calls))
      ∧ (uid ∉ resting_ids e)
      ∧ (∀ t, t ∈ TradingEngine.matches e →
           MatchedOrders.buy_order_id t ≠ uid ∧ MatchedOrders.sell_order_id t ≠ uid)
      ∧ (∀ o, o ∈ resting_orders (TradingEngine.put_order_book 1 ob' e1) →
           Order.order_id o = uid → o = Order.mk SELL "X" 45 40 2 uid)
      ∧ NoDup (resting_ids (TradingEngine.put_order_book 1 ob' e1)).
Proof.
  destruct (C4_submit_validation demo_hash N.of_nat) as [Hbad Hgood]. split.
  - apply Hbad. by left.
  - intros e uid e1.
    apply (Hgood Nat2N.inj demo_calls 2%Z SELL "X" (number.Num 40)
             (number.Num 45) 1 e1).
    + reflexivity.
    + reflexivity.
    + vm_compute. reflexivity.
Defined.
